(** * Agentic-Form-Analyser: document understanding pipeline

    A shallow embedding of the field parser, table parser, schema detector,
    context retriever and QA engine ([src/processors], [src/qa]) together
    with the properties the specification states about them.

    Modelling conventions.
    - A Python [str] is a [list ascii].  The alphabet of the model is the
      ASCII range; the non-ASCII characters that occur in some patterns of
      the program (tick marks, ballot boxes, long dashes, euro and pound
      signs) never occur in a text of the model, so a pattern that needs one
      of them is the class [no_char].
    - A Python [dict] is an association list in insertion order in which
      every key occurs once ([Dict]).
    - A compiled [re] pattern is a term of [regex], run by a backtracking
      matcher with Python's priorities (ordered alternation, greedy and lazy
      repetition, leftmost match).
    - [float] values that are computed from text are exact rationals ([Q]);
      where the outcome depends on rounding the model rounds as the code
      does: the header heuristic of the table parser and the confidence of
      a parsed field use binary64 floats ([PrimFloat]), and a number that
      the QA engine prints is first rounded to its binary64 value
      ([FloatOps.binary64]).
    - An [int] is a [Z]; where the code turns an [int] into a [float] the
      model keeps the two apart ([FloatOps.number]), since the conversion
      raises OverflowError beyond the range of a float.
    - An exception is an [option]: [None] stands for the exception named
      at the definition, whether the code catches it (the ValueError of
      [int] and [float]) or lets it end the call (the OverflowError of
      [cross_form_analysis]); a function of the model that is total
      corresponds to code that cannot raise. *)

From Stdlib Require Import Ascii String List Bool Arith ZArith QArith Qround Qabs Lia.
From Stdlib Require Import Floats.
From Stdlib Require Import Permutation Sorted.
Import ListNotations.

Set Implicit Arguments.

(** ** Strings *)

Definition str := list ascii.

Definition s (x : string) : str := list_ascii_of_string x.

Coercion s : string >-> str.

Open Scope string_scope.
Open Scope list_scope.
Open Scope nat_scope.

Module Str.

Definition code (c : ascii) : nat := nat_of_ascii c.

Definition in_range (lo hi : nat) (c : ascii) : bool :=
  (lo <=? code c) && (code c <=? hi).

(** [str.isspace] on one ASCII character: TAB..CR, FS..US and the blank. *)
Definition is_space (c : ascii) : bool :=
  in_range 9 13 c || in_range 28 32 c.

Definition is_digit (c : ascii) : bool := in_range 48 57 c.
Definition is_upper (c : ascii) : bool := in_range 65 90 c.
Definition is_lower (c : ascii) : bool := in_range 97 122 c.
Definition is_alpha (c : ascii) : bool := is_upper c || is_lower c.
Definition is_alnum (c : ascii) : bool := is_alpha c || is_digit c.

(** [\w] *)
Definition is_word (c : ascii) : bool := is_alnum c || Ascii.eqb c "_".

Definition lower_char (c : ascii) : ascii :=
  if is_upper c then ascii_of_nat (code c + 32) else c.

(** [x.lower()] *)
Definition lower (x : str) : str := map lower_char x.

Fixpoint eqb (x y : str) : bool :=
  match x, y with
  | [], [] => true
  | a :: x', b :: y' => Ascii.eqb a b && eqb x' y'
  | _, _ => false
  end.

(** [x.lstrip()], [x.rstrip()], [x.strip()] *)
Fixpoint lstrip (x : str) : str :=
  match x with
  | c :: x' => if is_space c then lstrip x' else x
  | [] => []
  end.

Definition rstrip (x : str) : str := rev (lstrip (rev x)).

Definition strip (x : str) : str := rstrip (lstrip x).

(** [x.startswith(p)] *)
Fixpoint startswith (p x : str) : bool :=
  match p, x with
  | [], _ => true
  | a :: p', b :: x' => Ascii.eqb a b && startswith p' x'
  | _ :: _, [] => false
  end.

(** [p in x] *)
Fixpoint contains (p x : str) : bool :=
  startswith p x ||
  match x with
  | [] => false
  | _ :: x' => contains p x'
  end.

(** [x in l] for a list of strings *)
Definition mem (x : str) (l : list str) : bool := existsb (eqb x) l.

(** [x.isdigit()] *)
Definition isdigit (x : str) : bool :=
  negb (Nat.eqb (length x) 0) && forallb is_digit x.

(** [x.split()]: the maximal runs of characters that are not blank. *)
Fixpoint words_aux (x : str) (cur : str) : list str :=
  match x with
  | [] => match cur with [] => [] | _ => [rev cur] end
  | c :: x' =>
    if is_space c
    then match cur with
         | [] => words_aux x' []
         | _ => rev cur :: words_aux x' []
         end
    else words_aux x' (c :: cur)
  end.

Definition words (x : str) : list str := words_aux x [].

(** [x.split(sep)] for a separator that is not empty; [skip] counts the
    characters of a separator still to be passed over. *)
Fixpoint split_aux (sep : str) (x : str) (skip : nat) (cur : str) : list str :=
  match x with
  | [] => [rev cur]
  | c :: x' =>
    match skip with
    | S k => split_aux sep x' k cur
    | O =>
      if startswith sep x then rev cur :: split_aux sep x' (length sep - 1) []
      else split_aux sep x' 0 (c :: cur)
    end
  end.

Definition split (sep : str) (x : str) : list str := split_aux sep x 0 [].

Definition lines (x : str) : list str := split ["010"%char] x.

(** [sep.join(l)] *)
Fixpoint join (sep : str) (l : list str) : str :=
  match l with
  | [] => []
  | [x] => x
  | x :: l' => x ++ sep ++ join sep l'
  end.

(** [x.replace(c, '')] for one character *)
Definition remove_char (c : ascii) (x : str) : str :=
  filter (fun d => negb (Ascii.eqb d c)) x.

(** [str(n)] for a natural number *)
Fixpoint digits_aux (fuel n : nat) (acc : str) : str :=
  match fuel with
  | O => acc
  | S fuel' =>
    let acc' := ascii_of_nat (48 + n mod 10) :: acc in
    if n <? 10 then acc' else digits_aux fuel' (n / 10) acc'
  end.

Definition of_nat (n : nat) : str := digits_aux (S n) n [].

(** [x[-n:]] *)
Definition last_n (n : nat) (x : str) : str := skipn (length x - n) x.

End Str.

(** ** Regular expressions

    The fragment of Python's [re] syntax that the program uses.  Bounded
    repetition is written out with [rep] and [upto]. *)

Inductive regex : Type :=
| Eps
| Chr (p : ascii -> bool)          (* a literal, [.], or a class [[...]] *)
| Seq (r1 r2 : regex)
| Alt (r1 r2 : regex)              (* r1|r2, r1 tried first *)
| Star (greedy : bool) (r : regex) (* r* and r*? *)
| Grp (i : nat) (r : regex)        (* the i-th capturing group *)
| Bol                              (* ^ under re.MULTILINE *)
| Eol (multiline : bool)           (* $ *)
| WordB                            (* \b *)
| Behind (p : ascii -> bool).      (* (?<=[...]) for one character *)

Module Re.

(** The matcher's position: the text read so far (latest character
    first), the text ahead, and the groups captured on the way. *)
Record pos : Type := mkPos {
  before : str;
  ahead : str;
  groups : list (nat * str)
}.

Definition start (x : str) : pos := mkPos [] x [].

Definition step (c : ascii) (p : pos) : pos :=
  mkPos (c :: before p) (tl (ahead p)) (groups p).

Definition offset (p : pos) : nat := length (before p).

(** The text between two positions of one run. *)
Definition between (p q : pos) : str :=
  firstn (length (ahead p) - length (ahead q)) (ahead p).

Definition capture (i : nat) (x : str) (p : pos) : pos :=
  mkPos (before p) (ahead p) ((i, x) :: groups p).

Definition at_word (o : option ascii) : bool :=
  match o with Some c => Str.is_word c | None => false end.

(** First success; the second alternative is evaluated only on failure. *)
Notation "x <|> y" :=
  (match x with Some v => Some v | None => y end)
  (at level 55, right associativity).

(** The matcher, in continuation-passing style: [run r p k] tries the ways
    [r] can match at [p] in Python's order of preference and returns the
    first result the continuation [k] accepts.  In a repetition every turn
    must read at least one character (the body of every repetition of the
    program does), so the [length (ahead p)] turns the loop is given are
    never used up while a further turn is possible ([run_star_unfold]). *)
Fixpoint run {A} (r : regex) (p : pos) (k : pos -> option A) : option A :=
  match r with
  | Eps => k p
  | Chr f =>
    match ahead p with
    | c :: _ => if f c then k (step c p) else None
    | [] => None
    end
  | Seq r1 r2 => run r1 p (fun q => run r2 q k)
  | Alt r1 r2 => run r1 p k <|> run r2 p k
  | Star greedy r1 =>
    (fix loop (n : nat) (p : pos) : option A :=
       match n with
       | O => k p
       | S n' =>
         if greedy then
           run r1 p (fun q => if length (ahead q) <? length (ahead p)
                              then loop n' q else None)
           <|> k p
         else
           k p
           <|> run r1 p (fun q => if length (ahead q) <? length (ahead p)
                                  then loop n' q else None)
       end) (length (ahead p)) p
  | Grp i r1 => run r1 p (fun q => k (capture i (between p q) q))
  | Bol =>
    match before p with
    | [] => k p
    | c :: _ => if Ascii.eqb c "010" then k p else None
    end
  | Eol multiline =>
    match ahead p with
    | [] => k p
    | c :: t =>
      if Ascii.eqb c "010" &&
         (multiline || match t with [] => true | _ => false end)
      then k p else None
    end
  | WordB =>
    if xorb (at_word (hd_error (before p))) (at_word (hd_error (ahead p)))
    then k p else None
  | Behind f =>
    match before p with
    | c :: _ => if f c then k p else None
    | [] => None
    end
  end.

(** [pattern.match] anchored at a position: the end of the match. *)
Definition match_at (r : regex) (p : pos) : option pos :=
  run r p (fun q => Some q).

(** A match object. *)
Record mtch : Type := mkMatch {
  m_start : nat;
  m_end : nat;
  m_text : str;
  m_groups : list (nat * str)
}.

Definition mk (p q : pos) : mtch :=
  mkMatch (offset p) (offset q) (between p q) (groups q).

Fixpoint assoc (i : nat) (l : list (nat * str)) : option str :=
  match l with
  | [] => None
  | (j, x) :: l' => if Nat.eqb i j then Some x else assoc i l'
  end.

(** [m.group(i)], with the empty string for a group that took no part
    (as [findall] reports it). *)
Definition group (i : nat) (m : mtch) : str :=
  match assoc i (m_groups m) with Some x => x | None => [] end.

Definition forget (p : pos) : pos := mkPos (before p) (ahead p) [].

Definition advance (p : pos) : pos :=
  match ahead p with
  | c :: _ => step c p
  | [] => p
  end.

(** Leftmost match at or after a position; [n] is the number of
    characters ahead, so that every position up to the end is tried
    ([search_from_bound]). *)
Fixpoint search_from (n : nat) (r : regex) (p : pos) : option (pos * pos) :=
  match match_at r p with
  | Some q => Some (p, q)
  | None =>
    match n, ahead p with
    | S n', _ :: _ => search_from n' r (advance p)
    | _, _ => None
    end
  end.

(** All matches, left to right, without overlap.  After an empty match the
    scan moves one character on; no pattern of the program matches the
    empty string.  Every turn moves on by at least one character, so one
    turn more than the text has characters is enough ([scan_bound]). *)
Fixpoint scan (n : nat) (r : regex) (p : pos) : list mtch :=
  match n with
  | O => []
  | S n' =>
    match search_from (length (ahead p)) r p with
    | None => []
    | Some (a, b) =>
      let next := if offset b <=? offset a then advance b else b in
      mk a b ::
      match ahead b with
      | [] => []
      | _ :: _ => scan n' r (forget next)
      end
    end
  end.

(** [pattern.finditer(x)] *)
Definition finditer (r : regex) (x : str) : list mtch :=
  scan (S (length x)) r (start x).

(** [pattern.search(x)] *)
Definition search (r : regex) (x : str) : option mtch :=
  match search_from (length x) r (start x) with
  | Some (a, b) => Some (mk a b)
  | None => None
  end.

(** [pattern.match(x)] as a truth value *)
Definition matches (r : regex) (x : str) : bool :=
  match match_at r (start x) with Some _ => true | None => false end.

(** [pattern.findall(x)] for a pattern without groups *)
Definition findall (r : regex) (x : str) : list str :=
  map m_text (finditer r x).

(** [pattern.findall(x)] for a pattern with two groups *)
Definition findall2 (r : regex) (x : str) : list (str * str) :=
  map (fun m => (group 1 m, group 2 m)) (finditer r x).

(** [re.split(r, x)] for a pattern without groups *)
Fixpoint split_at (ms : list mtch) (from : nat) (x : str) : list str :=
  match ms with
  | [] => [skipn from x]
  | m :: ms' =>
    firstn (m_start m - from) (skipn from x) :: split_at ms' (m_end m) x
  end.

Definition split (r : regex) (x : str) : list str :=
  split_at (finditer r x) 0 x.

(** [re.sub(r, '', x)] for a class of one character *)
Definition delete (f : ascii -> bool) (x : str) : str :=
  filter (fun c => negb (f c)) x.

(** *** Pattern syntax *)

Definition lit_c (c : ascii) : regex := Chr (Ascii.eqb c).

Fixpoint lit (x : str) : regex :=
  match x with
  | [] => Eps
  | [c] => lit_c c
  | c :: x' => Seq (lit_c c) (lit x')
  end.

(** A literal under re.IGNORECASE *)
Definition ilit_c (c : ascii) : regex :=
  Chr (fun d => Ascii.eqb (Str.lower_char d) (Str.lower_char c)).

Fixpoint ilit (x : str) : regex :=
  match x with
  | [] => Eps
  | [c] => ilit_c c
  | c :: x' => Seq (ilit_c c) (ilit x')
  end.

Definition one_of (x : str) (c : ascii) : bool :=
  existsb (Ascii.eqb c) x.

Definition no_char (c : ascii) : bool := false.
Definition dot (c : ascii) : bool := negb (Ascii.eqb c "010").
Definition digit : regex := Chr Str.is_digit.
Definition space : regex := Chr Str.is_space.

Definition opt (r : regex) : regex := Alt r Eps.
Definition star (r : regex) : regex := Star true r.
Definition plus (r : regex) : regex := Seq r (Star true r).
Definition plus_lazy (r : regex) : regex := Seq r (Star false r).

(** r{n} *)
Fixpoint rep (n : nat) (r : regex) : regex :=
  match n with
  | O => Eps
  | 1 => r
  | S n' => Seq r (rep n' r)
  end.

(** r{0,n} *)
Fixpoint upto (n : nat) (r : regex) : regex :=
  match n with
  | O => Eps
  | S n' => opt (Seq r (upto n' r))
  end.

(** r{m,n} *)
Definition between_n (m n : nat) (r : regex) : regex :=
  match m with
  | O => upto n r
  | _ => Seq (rep m r) (upto (n - m) r)
  end.

Fixpoint seqs (l : list regex) : regex :=
  match l with
  | [] => Eps
  | [r] => r
  | r :: l' => Seq r (seqs l')
  end.

Fixpoint alts (l : list regex) : regex :=
  match l with
  | [] => Chr no_char
  | [r] => r
  | r :: l' => Alt r (alts l')
  end.

End Re.

(** ** Dictionaries

    A Python [dict]: keys in insertion order, each key once.  Assigning to
    a key that is present keeps its place and replaces its value. *)

Module Dict.

Section Ops.
Variable V : Type.

Definition t : Type := list (str * V).

Definition empty : t := [].

Fixpoint get (k : str) (d : t) : option V :=
  match d with
  | [] => None
  | (k', v) :: d' => if Str.eqb k k' then Some v else get k d'
  end.

(** [d[k] = v] *)
Fixpoint set (k : str) (v : V) (d : t) : t :=
  match d with
  | [] => [(k, v)]
  | (k', v') :: d' =>
    if Str.eqb k k' then (k', v) :: d' else (k', v') :: set k v d'
  end.

(** [d.update(e)] *)
Definition update (d e : t) : t :=
  fold_left (fun acc kv => set (fst kv) (snd kv) acc) e d.

Definition keys (d : t) : list str := map fst d.
Definition values (d : t) : list V := map snd d.

End Ops.

End Dict.

(** ** Built-in functions *)

Module Builtins.

(** [enumerate(l)] *)
Definition enumerate {A} (l : list A) : list (nat * A) :=
  combine (seq 0 (length l)) l.

Section Sorted.
Variable A : Type.
(** [lt a b]: the key of [a] is less than the key of [b]. *)
Variable lt : A -> A -> bool.

Fixpoint insert (x : A) (l : list A) : list A :=
  match l with
  | [] => [x]
  | y :: l' => if lt x y then y :: insert x l' else x :: l
  end.

(** [sorted(l, key=.., reverse=True)] and [l.sort(key=.., reverse=True)]:
    by descending key, and stable: of two elements with the same key the
    one that comes first in [l] stays first. *)
Definition sorted_reverse (l : list A) : list A := fold_right insert [] l.
End Sorted.

End Builtins.

(** ** Numbers read from text *)

Module PyFloat.
Import Re.

(** A Python [float], without rounding: a rational, an infinity or NaN. *)
Inductive t : Type :=
| Fin (q : Q)
| Inf (negative : bool)
| NaN.

Definition digit_val (c : ascii) : Z := Z.of_nat (Str.code c - 48).

(** The value of a run of decimal digits; underscores are skipped. *)
Definition digits_val (x : str) : Z :=
  fold_left (fun acc c => if Str.is_digit c then 10 * acc + digit_val c else acc)%Z
            x 0%Z.

Definition count_digits (x : str) : nat :=
  length (filter Str.is_digit x).

Definition sign : regex := Chr (one_of "+-").

(** digitpart ::= digit (["_"] digit)* *)
Definition digitpart : regex :=
  Seq digit (star (Seq (opt (lit "_")) digit)).

(** number ::= [digitpart] "." digitpart | digitpart ["."] *)
Definition number : regex :=
  Alt (seqs [Grp 2 (opt digitpart); lit "."; Grp 3 digitpart])
      (seqs [Grp 2 digitpart; opt (lit ".")]).

(** exponent ::= ("e" | "E") [sign] digitpart *)
Definition exponent : regex :=
  seqs [ilit "e"; Grp 4 (opt sign); Grp 5 digitpart].

(** floatvalue ::= [sign] (number [exponent] | "inf" | "infinity" | "nan"),
    the words in any case. *)
Definition floatvalue : regex :=
  Seq (Grp 1 (opt sign))
      (alts [Seq number (opt exponent);
             Grp 6 (Seq (ilit "inf") (opt (ilit "inity")));
             Grp 7 (ilit "nan")]).

Definition pow10 (e : Z) : Q :=
  match e with
  | Z0 => 1
  | Zpos p => inject_Z (10 ^ Zpos p)
  | Zneg p => / inject_Z (10 ^ Zpos p)
  end.

Definition is_minus (x : str) : bool := Str.eqb x "-".

(** [float(x)]: [None] stands for ValueError. *)
Definition of_str (x : str) : option t :=
  match run floatvalue (start (Str.strip x))
            (fun q => match ahead q with [] => Some q | _ => None end) with
  | None => None
  | Some q =>
    let g i := match assoc i (groups q) with Some y => y | None => [] end in
    let neg := is_minus (g 1) in
    match assoc 6 (groups q), assoc 7 (groups q) with
    | Some _, _ => Some (Inf neg)
    | None, Some _ => Some NaN
    | None, None =>
      let mant := digits_val (g 2 ++ g 3) in
      let ex := digits_val (g 5) in
      let frac := Z.of_nat (count_digits (g 3)) in
      let neg_e := is_minus (g 4) in
      let e := ((if neg_e then - ex else ex) - frac)%Z in
      let v := (inject_Z mant * pow10 e)%Q in
      Some (Fin (if neg then - v else v)%Q)
    end
  end.

Definition of_Z (z : Z) : t := Fin (inject_Z z).

(** The greatest number of digits that [int] reads and [str] prints
    ([sys.get_int_max_str_digits()], 4300 unless it is configured; CPython
    3.11 and later). *)
Definition max_str_digits : nat := 4300.

(** [int(x)] for a string of digits with an optional minus sign; [None]
    stands for ValueError, which a numeral of more than [max_str_digits]
    digits raises (the sign is not counted, leading zeros are). *)
Definition int_of_str (x : str) : option Z :=
  match x with
  | c :: x' =>
    if Ascii.eqb c "-"
    then if Str.isdigit x' && (length x' <=? max_str_digits)
         then Some (- digits_val x')%Z else None
    else if Str.isdigit x && (length x <=? max_str_digits)
         then Some (digits_val x) else None
  | [] => None
  end.

End PyFloat.

(** ** Table parser ([src/processors/table_parser.py]) *)

Module TableParser.
Import Re.

Record ParsedTable : Type := mkParsedTable {
  headers : list str;
  rows : list (list str);
  column_count : nat;
  row_count : nat;
  has_header : bool;
  table_type : str
}.

Definition table : Type := list (list str).

Definition nonempty (x : str) : bool :=
  match x with [] => false | _ => true end.

(** [max(len(row) for row in table)] on a table that has a row. *)
Definition max_cols (tb : table) : nat :=
  fold_right Nat.max 0 (map (@length str) tb).

(** The cleaned cells of a row, padded with empty cells. *)
Definition clean_row (width : nat) (row : list str) : list str :=
  let cells := map (fun cell => if nonempty cell then Str.strip cell else []) row in
  cells ++ repeat [] (width - length cells).

Definition _normalize_table (tb : table) : table :=
  match tb with
  | [] => []
  | _ => map (clean_row (max_cols tb)) tb
  end.

(** [re.sub(r'[\$,€£%\s]', '', value)] followed by [float]. *)
Definition _is_numeric (value : str) : bool :=
  match value with
  | [] => false
  | _ =>
    let cleaned := delete (fun c => one_of "$,%" c || Str.is_space c) value in
    match PyFloat.of_str cleaned with Some _ => true | None => false end
  end.

Definition common_headers : list str :=
  [s "name"; s "date"; s "amount"; s "total"; s "description"; s "id";
   s "number"; s "quantity"; s "price"; s "item"; s "type"; s "status";
   s "value"; s "count"].

Definition count {A} (f : A -> bool) (l : list A) : nat :=
  length (filter f l).

Definition float_of_nat (n : nat) : float :=
  PrimFloat.of_uint63 (Uint63.of_Z (Z.of_nat n)).

(** [a / b] on two counts: the quotient rounded to binary64. *)
Definition ratio (a b : nat) : float :=
  PrimFloat.div (float_of_nat a) (float_of_nat b).

Definition numeric_ratio (row : list str) : float :=
  ratio (count _is_numeric row) (Nat.max 1 (length row)).

(** [sum(l)] on floats, added from left to right (Python 3.12 and later
    compensate the rounding of the partial sums). *)
Definition fsum (l : list float) : float :=
  fold_left PrimFloat.add l 0%float.

(** The literals 0.5 and 0.2 as binary64 values. *)
Definition half : float := 0x1p-1%float.
Definition fifth : float := 0x1.999999999999ap-3%float.

Definition b2n (b : bool) : nat := if b then 1 else 0.

Definition _detect_headers (tb : table) : bool * list str :=
  match tb with
  | first_row :: second_row :: _ =>
    let first_row_text_ratio :=
      ratio (count (fun cell => nonempty cell && negb (_is_numeric cell)) first_row)
            (Nat.max 1 (length first_row)) in
    let s1 := b2n (PrimFloat.ltb half first_row_text_ratio) in
    let second_row_numeric_ratio :=
      ratio (count (fun cell => nonempty cell && _is_numeric cell) second_row)
            (Nat.max 1 (length second_row)) in
    let s2 := b2n (PrimFloat.ltb first_row_text_ratio second_row_numeric_ratio) in
    let s3 :=
      b2n (existsb (fun cell =>
             nonempty cell &&
             existsb (fun h => Str.contains h (Str.lower cell)) common_headers)
           first_row) in
    let s4 :=
      if 2 <? length tb then
        let other_rows_numeric := map numeric_ratio (tl tb) in
        let avg_numeric :=
          PrimFloat.div (fsum other_rows_numeric)
                        (float_of_nat (length other_rows_numeric)) in
        let first_numeric := numeric_ratio first_row in
        b2n (PrimFloat.ltb first_numeric (PrimFloat.sub avg_numeric fifth))
      else 0 in
    let header_score := s1 + s2 + s3 + s4 in
    let has_header := 2 <=? header_score in
    (has_header, if has_header then first_row else [])
  | _ => (false, [])
  end.

Definition any_in (keys : list str) (x : str) : bool :=
  existsb (fun h => Str.contains h x) keys.

Definition _infer_table_type (headers : list str) (rows : table) : str :=
  let joined := Str.join " " (map Str.lower headers) in
  if any_in [s "amount"; s "total"; s "price"; s "cost"; s "balance"] joined
  then "financial"
  else if any_in [s "name"; s "email"; s "phone"; s "address"] joined
  then "contact"
  else if any_in [s "date"; s "time"; s "schedule"; s "due"] joined
  then "schedule"
  else if any_in [s "item"; s "quantity"; s "stock"; s "product"] joined
  then "inventory"
  else "general".

(** [[f"Column {i+1}" for i in range(n)]] *)
Definition column_names (n : nat) : list str :=
  map (fun i => s "Column " ++ Str.of_nat (i + 1)) (seq 0 n).

(** The body of the loop of [parse]; [None] is [continue]. *)
Definition parse_table (raw_table : table) : option ParsedTable :=
  match raw_table with
  | [] => None
  | _ =>
    let normalized := _normalize_table raw_table in
    match normalized with
    | [] => None
    | first :: rest =>
      let (has_header, detected) := _detect_headers normalized in
      let headers := if has_header then detected
                     else column_names (length first) in
      let rows := if has_header then rest else normalized in
      Some (mkParsedTable headers rows (length headers) (length rows)
              has_header (_infer_table_type headers rows))
    end
  end.

Definition parse (raw_tables : list table) : list ParsedTable :=
  flat_map (fun raw_table =>
              match parse_table raw_table with
              | Some p => [p]
              | None => []
              end) raw_tables.

End TableParser.

(** ** Field values

    What [FieldParser.parse] stores under a field name: a string, a
    boolean, an [int], a [float], the dictionary of a currency amount
    ([{'type': 'currency', 'value': .., 'raw': ..}]), the dictionary of a
    date ([{'type': 'date', 'value': ..}]) or the list of the labels of
    check boxes. *)

Inductive value : Type :=
| VStr (x : str)
| VBool (b : bool)
| VInt (z : Z)
| VFloat (f : PyFloat.t)
| VCurrency (amount : PyFloat.t) (raw : str)
| VDate (text : str)
| VList (l : list str).

Definition fieldmap : Type := Dict.t value.

(** ** Schema detector ([src/processors/schema_detector.py]) *)

Module SchemaDetector.

Record SchemaMatch : Type := mkSchemaMatch {
  schema_type : str;
  confidence : Q;
  matched_indicators : list str;
  category : str
}.

Record schema_def : Type := mkSchema {
  sd_type : str;
  sd_category : str;
  sd_indicators : list str;
  sd_required : nat
}.

Definition strs (l : list string) : list str := map s l.

(** [_build_schema_definitions], in the order of the dictionary. *)
Definition schemas : list schema_def :=
  [ mkSchema "w2" "tax"
      (strs ["wage and tax statement"; "w-2"; "form w-2";
             "employer identification number"; "ein";
             "employee's social security"; "federal income tax withheld";
             "social security wages"; "medicare wages"]) 2;
    mkSchema "w4" "tax"
      (strs ["employee's withholding"; "w-4"; "form w-4";
             "withholding allowance"; "personal allowances";
             "additional amount to withhold"]) 2;
    mkSchema "1099" "tax"
      (strs ["1099"; "form 1099"; "miscellaneous income";
             "nonemployee compensation"; "payer's federal";
             "rents"; "royalties"; "other income"]) 2;
    mkSchema "1040" "tax"
      (strs ["1040"; "form 1040"; "u.s. individual income tax";
             "adjusted gross income"; "taxable income";
             "filing status"; "standard deduction"; "tax return"]) 2;
    mkSchema "insurance_claim" "medical"
      (strs ["insurance claim"; "claim form"; "cms-1500"; "hcfa";
             "diagnosis code"; "icd"; "cpt"; "procedure code";
             "date of service"; "provider"; "patient information";
             "policyholder"; "group number"; "member id"]) 3;
    mkSchema "medical_intake" "medical"
      (strs ["patient intake"; "medical history"; "health history";
             "allergies"; "medications"; "emergency contact";
             "primary care physician"; "insurance information";
             "chief complaint"; "symptoms"; "family history"]) 3;
    mkSchema "hipaa_authorization" "medical"
      (strs ["hipaa"; "authorization"; "protected health information";
             "phi"; "release of information"; "health information";
             "disclose"; "privacy"]) 3;
    mkSchema "job_application" "employment"
      (strs ["employment application"; "job application"; "applicant";
             "position applied"; "work experience"; "previous employer";
             "references"; "education history"; "equal opportunity";
             "availability"; "desired salary"]) 3;
    mkSchema "i9" "employment"
      (strs ["i-9"; "form i-9"; "employment eligibility";
             "verification"; "citizenship status"; "work authorization";
             "list a"; "list b"; "list c"; "uscis"]) 3;
    mkSchema "onboarding" "employment"
      (strs ["new hire"; "onboarding"; "employee information";
             "start date"; "department"; "manager"; "direct deposit";
             "emergency contact"; "benefits enrollment"]) 3;
    mkSchema "loan_application" "financial"
      (strs ["loan application"; "credit application"; "borrower";
             "loan amount"; "interest rate"; "collateral";
             "monthly payment"; "debt-to-income"; "credit score";
             "assets"; "liabilities"; "loan purpose"]) 3;
    mkSchema "bank_account" "financial"
      (strs ["account opening"; "new account"; "account application";
             "checking"; "savings"; "routing number"; "account number";
             "joint account"; "beneficiary"; "initial deposit"]) 3;
    mkSchema "contract" "legal"
      (strs ["agreement"; "contract"; "parties"; "terms and conditions";
             "whereas"; "hereby"; "binding"; "effective date";
             "termination"; "governing law"; "jurisdiction";
             "indemnification"; "liability"]) 3;
    mkSchema "power_of_attorney" "legal"
      (strs ["power of attorney"; "attorney-in-fact"; "principal";
             "agent"; "authority"; "durable"; "revocation";
             "notarized"; "witness"]) 3;
    mkSchema "dmv" "government"
      (strs ["dmv"; "driver license"; "vehicle registration";
             "title"; "vin"; "license plate"; "odometer";
             "registration fee"; "department of motor vehicles"]) 3;
    mkSchema "passport" "government"
      (strs ["passport"; "citizenship"; "place of birth";
             "passport number"; "nationality"; "travel document";
             "department of state"; "ds-11"; "ds-82"]) 3;
    mkSchema "school_application" "education"
      (strs ["admission"; "application"; "enrollment"; "student";
             "gpa"; "transcript"; "academic"; "school";
             "grade level"; "program"; "degree"; "major"]) 3;
    mkSchema "financial_aid" "education"
      (strs ["fafsa"; "financial aid"; "student aid"; "grant";
             "scholarship"; "loan"; "efc"; "expected family contribution";
             "award letter"; "disbursement"]) 3 ].

Definition Qltb (a b : Q) : bool := negb (Qle_bool b a).

(** [min(1.0, x)] *)
Definition min1 (x : Q) : Q := if Qle_bool 1 x then 1 else x.

(** [len(a) / len(b)] *)
Definition frac (a b : nat) : Q := Z.of_nat a # Pos.of_nat b.

Section Detect.
(** Python's [str] on a field value (the text of a float or of a
    dictionary is not modelled). *)
Variable py_str : value -> str.

(** The text the indicators are looked up in: the lower-cased text,
    followed by the lower-cased "key value" rendering of the fields when
    there are fields. *)
Definition search_text (text : str) (fields : option fieldmap) : str :=
  let text_lower := Str.lower text in
  match fields with
  | None | Some [] => text_lower
  | Some fs =>
    let field_text :=
      Str.join " " (map (fun kv => fst kv ++ s " " ++ py_str (snd kv)) fs) in
    text_lower ++ s " " ++ Str.lower field_text
  end.

Definition matched (text_lower : str) (d : schema_def) : list str :=
  filter (fun indicator => Str.contains indicator text_lower)
         (sd_indicators d).

Definition score (text_lower : str) (d : schema_def) : Q :=
  frac (length (matched text_lower d)) (length (sd_indicators d)).

(** One turn of the loop of [detect_with_confidence] on the state
    (best_match, best_score). *)
Definition consider (text_lower : str)
           (st : option SchemaMatch * Q) (d : schema_def)
  : option SchemaMatch * Q :=
  let matched_indicators := matched text_lower d in
  if sd_required d <=? length matched_indicators then
    let sc := frac (length matched_indicators) (length (sd_indicators d)) in
    if Qltb (snd st) sc then
      (Some (mkSchemaMatch (sd_type d) (min1 (sc * 1.2)%Q)
                           matched_indicators (sd_category d)), sc)
    else st
  else st.

Definition detect_in (catalog : list schema_def) (text : str)
           (fields : option fieldmap) : option SchemaMatch :=
  match text with
  | [] => None
  | _ =>
    fst (fold_left (consider (search_text text fields)) catalog (None, 0%Q))
  end.

Definition detect_with_confidence : str -> option fieldmap -> option SchemaMatch :=
  detect_in schemas.

Definition detect (text : str) (fields : option fieldmap) : option str :=
  match detect_with_confidence text fields with
  | Some m => if Qle_bool 0.5%Q (confidence m) then Some (schema_type m) else None
  | None => None
  end.

Definition detect_all_matches (text : str) (fields : option fieldmap)
  : list SchemaMatch :=
  match text with
  | [] => []
  | _ =>
    let text_lower := search_text text fields in
    let matches :=
      flat_map (fun d =>
                  match matched text_lower d with
                  | [] => []
                  | matched_indicators =>
                    let sc := frac (length matched_indicators)
                                   (length (sd_indicators d)) in
                    [mkSchemaMatch (sd_type d) (min1 (sc * 1.2)%Q)
                                   matched_indicators (sd_category d)]
                  end) schemas in
    Builtins.sorted_reverse (fun a b => Qltb (confidence a) (confidence b))
                            matches
  end.
End Detect.

Definition expected_fields : Dict.t (list str) :=
  [ (s "w2",
     strs ["Employee SSN"; "Employer EIN"; "Employee Name";
           "Employer Name"; "Wages"; "Federal Tax Withheld";
           "Social Security Wages"; "Medicare Wages"]);
    (s "insurance_claim",
     strs ["Patient Name"; "Date of Birth"; "Insurance ID";
           "Group Number"; "Provider Name"; "Date of Service";
           "Diagnosis Code"; "Procedure Code"; "Amount Charged"]);
    (s "job_application",
     strs ["Applicant Name"; "Address"; "Phone"; "Email";
           "Position Applied For"; "Desired Salary";
           "Work Experience"; "Education"; "References"]);
    (s "loan_application",
     strs ["Borrower Name"; "SSN"; "Address"; "Employment";
           "Annual Income"; "Loan Amount"; "Loan Purpose";
           "Assets"; "Liabilities"]) ].

(** [expected_fields.get(schema_type, [])] *)
Definition get_expected_fields (schema_type : str) : list str :=
  match Dict.get schema_type expected_fields with
  | Some l => l
  | None => []
  end.

Definition validate_fields (schema_type : str) (fields : fieldmap)
  : Q * list str :=
  match get_expected_fields schema_type with
  | [] => (1%Q, [])
  | expected =>
    let field_names_lower := map Str.lower (Dict.keys fields) in
    let is_matched expected_field :=
      let expected_lower := Str.lower expected_field in
      existsb (fun f => Str.contains expected_lower f
                        || Str.contains f expected_lower)
              field_names_lower in
    let found := length (filter is_matched expected) in
    let missing := filter (fun e => negb (is_matched e)) expected in
    (frac found (length expected), missing)
  end.

End SchemaDetector.

(** ** Field parser ([src/processors/field_parser.py]) *)

Module FieldParser.
Import Re.

Definition alpha : regex := Chr Str.is_alpha.
Definition upper : regex := Chr Str.is_upper.

(** A class: the characters of [x], and those of the listed kinds. *)
Definition cls (kinds : list (ascii -> bool)) (x : string) : regex :=
  Chr (fun c => existsb (fun f => f c) kinds || one_of x c).

Definition any : regex := Chr dot.

(** [_build_patterns]; all six are compiled with re.MULTILINE. *)
Definition patterns : list regex :=
  [ (* ^([A-Za-z][A-Za-z0-9\s\-_/()]+?):\s*(.+)$ *)
    seqs [Bol;
          Grp 1 (Seq alpha (plus_lazy (cls [Str.is_alnum; Str.is_space] "-_/()")));
          lit ":"; star space; Grp 2 (plus any); Eol true];
    (* ^([A-Za-z][A-Za-z0-9\s_]+?)\s*[-–—]\s*(.+)$ *)
    seqs [Bol;
          Grp 1 (Seq alpha (plus_lazy (cls [Str.is_alnum; Str.is_space] "_")));
          star space; lit "-"; star space; Grp 2 (plus any); Eol true];
    (* ^([A-Za-z][A-Za-z0-9\s_]+?)\s*=\s*(.+)$ *)
    seqs [Bol;
          Grp 1 (Seq alpha (plus_lazy (cls [Str.is_alnum; Str.is_space] "_")));
          star space; lit "="; star space; Grp 2 (plus any); Eol true];
    (* ^([A-Z][A-Z0-9\s]+):\s*(.+)$ *)
    seqs [Bol;
          Grp 1 (Seq upper (plus (cls [Str.is_upper; Str.is_digit; Str.is_space] "")));
          lit ":"; star space; Grp 2 (plus any); Eol true];
    (* ^\d+\.\s*([A-Za-z][A-Za-z0-9\s]+?):\s*(.+)$ *)
    seqs [Bol; plus digit; lit "."; star space;
          Grp 1 (Seq alpha (plus_lazy (cls [Str.is_alnum; Str.is_space] "")));
          lit ":"; star space; Grp 2 (plus any); Eol true];
    (* \[([xX✓✔]|\s)\]\s*(.+)$ *)
    seqs [lit "["; Grp 1 (Alt (cls [] "xX") space); lit "]"; star space;
          Grp 2 (plus any); Eol true] ].

(** [_build_date_patterns] *)
Definition month : regex :=
  Seq (alts (map (fun m => ilit (s m))
                 ["Jan"; "Feb"; "Mar"; "Apr"; "May"; "Jun";
                  "Jul"; "Aug"; "Sep"; "Oct"; "Nov"; "Dec"]))
      (star alpha).

(* \d{1,2}[/-]\d{1,2}[/-]\d{2,4} *)
Definition date_mdy : regex :=
  seqs [between_n 1 2 digit; cls [] "/-"; between_n 1 2 digit;
        cls [] "/-"; between_n 2 4 digit].

(* \d{4}[/-]\d{1,2}[/-]\d{1,2} *)
Definition date_ymd : regex :=
  seqs [rep 4 digit; cls [] "/-"; between_n 1 2 digit;
        cls [] "/-"; between_n 1 2 digit].

(* (?:Jan|...|Dec)[a-z]*\s+\d{1,2},?\s+\d{4}, re.IGNORECASE *)
Definition date_month_day : regex :=
  seqs [month; plus space; between_n 1 2 digit; opt (lit ",");
        plus space; rep 4 digit].

(* \d{1,2}\s+(?:Jan|...|Dec)[a-z]*\s+\d{4}, re.IGNORECASE *)
Definition date_day_month : regex :=
  seqs [between_n 1 2 digit; plus space; month; plus space; rep 4 digit].

Definition date_patterns : list regex :=
  [date_mdy; date_ymd; date_month_day; date_day_month].

(** \$[\d,]+(?:\.\d{2})?|\d+(?:,\d{3})*(?:\.\d{2})?\s*(?:USD|EUR|GBP|dollars?) *)
Definition currency_pattern : regex :=
  Alt (seqs [lit "$"; plus (cls [Str.is_digit] ","); opt (Seq (lit ".") (rep 2 digit))])
      (seqs [plus digit; star (Seq (lit ",") (rep 3 digit));
             opt (Seq (lit ".") (rep 2 digit)); star space;
             alts [lit "USD"; lit "EUR"; lit "GBP";
                   Seq (lit "dollar") (opt (lit "s"))]]).

(** [a-zA-Z0-9._%+-]+@[a-zA-Z0-9.-]+\.[a-zA-Z]{2,} *)
Definition email_pattern : regex :=
  seqs [plus (cls [Str.is_alnum] "._%+-"); lit "@";
        plus (cls [Str.is_alnum] ".-"); lit ".";
        rep 2 alpha; star alpha].

(** (?:\+?1[-.\s]?)?\(?\d{3}\)?[-.\s]?\d{3}[-.\s]?\d{4} *)
Definition phone_pattern : regex :=
  seqs [opt (seqs [opt (lit "+"); lit "1"; opt (cls [Str.is_space] "-.")]);
        opt (lit "("); rep 3 digit; opt (lit ")");
        opt (cls [Str.is_space] "-."); rep 3 digit;
        opt (cls [Str.is_space] "-."); rep 4 digit].

(** \d{3}[-\s]?\d{2}[-\s]?\d{4} *)
Definition ssn_pattern : regex :=
  seqs [rep 3 digit; opt (cls [Str.is_space] "-"); rep 2 digit;
        opt (cls [Str.is_space] "-"); rep 4 digit].

Definition _normalize_field_name (name : str) : str :=
  Str.strip (Str.join " " (Str.words name)).

Definition generic_names : list str :=
  [s "a"; s "b"; s "c"; s "i"; s "ii"; s "iii"; s "the"; s "and"; s "or"].

Definition _process_value (value0 : str) : value :=
  let value := Str.strip value0 in
  let as_currency :=
    if matches currency_pattern value then
      let numeric := filter (fun c => Str.is_digit c || Ascii.eqb c ".") value in
      match PyFloat.of_str numeric with
      | Some f => Some (VCurrency f value)
      | None => None
      end
    else None in
  match as_currency with
  | Some v => v
  | None =>
    if existsb (fun pattern => matches pattern value) date_patterns
    then VDate value
    else if Str.mem (Str.lower value)
              [s "yes"; s "no"; s "true"; s "false"; s "y"; s "n"]
    then VBool (Str.mem (Str.lower value) [s "yes"; s "true"; s "y"])
    else if existsb (Ascii.eqb ".") value then
      match PyFloat.of_str (Str.remove_char "," value) with
      | Some f => VFloat f
      | None => VStr value
      end
    else if Str.isdigit value
            || (Str.startswith "-" value && Str.isdigit (tl value)) then
      match PyFloat.int_of_str (Str.remove_char "," value) with
      | Some z => VInt z
      | None => VStr value
      end
    else VStr value
  end.

(** The body of the inner loop of [parse] for one match [(match[0],
    match[1])]. *)
Definition store (fields : fieldmap) (m : str * str) : fieldmap :=
  let name := _normalize_field_name (fst m) in
  let value := Str.strip (snd m) in
  if 500 <? length value then fields
  else if Str.mem (Str.lower name) generic_names then fields
  else if TableParser.nonempty name && TableParser.nonempty value
  then Dict.set name (_process_value value) fields
  else fields.

(** [enumerate(l, 1)] *)
Definition enumerate1 {A} (l : list A) : list (nat * A) :=
  combine (seq 1 (length l)) l.

(** The fields of one special kind: the bare name for a single find,
    numbered names otherwise. *)
Definition numbered (name : string) (f : str -> str) (found : list str)
  : fieldmap :=
  match found with
  | [x] => [(s name, VStr (f x))]
  | _ =>
    fold_left (fun d ix =>
                 Dict.set (s name ++ s " " ++ Str.of_nat (fst ix))
                          (VStr (f (snd ix))) d)
              (enumerate1 found) []
  end.

Definition mask (ssn : str) : str := s "XXX-XX-" ++ Str.last_n 4 ssn.

(** ([A-Za-z]+(?:\s+[A-Za-z]+)?)\s*[:\-]?\s*$ *)
Definition label_pattern : regex :=
  seqs [Grp 1 (Seq (plus alpha) (opt (Seq (plus space) (plus alpha))));
        star space; opt (cls [] ":-"); star space; Eol false].

(** The field of a date found in the text, named after the words in
    front of it. *)
Definition date_field (text : str) (m : mtch) : option (str * value) :=
  let start := m_start m - 50 in
  let context := Str.strip (firstn (m_start m - start) (skipn start text)) in
  match search label_pattern context with
  | Some label_match =>
    let label := Str.strip (group 1 label_match) in
    if Str.mem (Str.lower label) [s "on"; s "of"; s "the"; s "at"; s "by"]
    then None
    else Some (label ++ s " Date", VStr (m_text m))
  | None => None
  end.

Definition set_opt (d : fieldmap) (o : option (str * value)) : fieldmap :=
  match o with
  | Some (k, v) => Dict.set k v d
  | None => d
  end.

Definition _extract_special_fields (text : str) : fieldmap :=
  let fields := numbered "Email" (fun x => x) (findall email_pattern text) in
  let fields :=
    Dict.update fields (numbered "Phone" (fun x => x) (findall phone_pattern text)) in
  let fields :=
    Dict.update fields (numbered "SSN" mask (findall ssn_pattern text)) in
  fold_left (fun d pattern =>
               fold_left (fun d m => set_opt d (date_field text m))
                         (finditer pattern text) d)
            date_patterns fields.

(** The tail shared by the six check box patterns: \s*(.+?)(?:\n|$) *)
Definition box_tail (g : nat) : list regex :=
  [star space; Grp g (plus_lazy any); Alt (lit (String "010" "")) (Eol false)].

(** The patterns of [_extract_checkboxes], each with the number of its
    last group and whether it stands for a checked box.  The third and the
    fourth start with a ballot box, which no text of the model holds. *)
Definition checkbox_patterns : list (regex * nat * bool) :=
  [ (seqs ([lit "["; Grp 1 (cls [] "xX"); lit "]"] ++ box_tail 2), 2, true);
    (seqs ([lit "["; star space; lit "]"] ++ box_tail 1), 1, false);
    (seqs (Chr no_char :: box_tail 1), 1, true);
    (seqs (Chr no_char :: box_tail 1), 1, false);
    (seqs ([lit "("; Grp 1 (cls [] "xX"); lit ")"] ++ box_tail 2), 2, true);
    (seqs ([lit "("; star space; lit ")"] ++ box_tail 1), 1, false) ].

(** The items one pattern contributes: the last group of every match,
    stripped, when it is not empty and shorter than 100 characters. *)
Definition box_items (pg : regex * nat) (text : str) : list str :=
  filter (fun item => TableParser.nonempty item && (length item <? 100))
         (map (fun m => Str.strip (group (snd pg) m)) (finditer (fst pg) text)).

Definition _extract_checkboxes (text : str) : fieldmap :=
  let items (checked : bool) :=
    flat_map (fun p => box_items (fst p) text)
             (filter (fun p => Bool.eqb (snd p) checked) checkbox_patterns) in
  let checked_items := items true in
  let unchecked_items := items false in
  let fields :=
    match checked_items with
    | [] => []
    | _ => [(s "Selected Options", VList checked_items)]
    end in
  match unchecked_items with
  | [] => fields
  | _ => Dict.set "Unselected Options" (VList unchecked_items) fields
  end.

Definition parse (text : str) : fieldmap :=
  match text with
  | [] => []
  | _ =>
    let fields :=
      fold_left (fun d pattern => fold_left store (findall2 pattern text) d)
                patterns [] in
    let fields := Dict.update fields (_extract_special_fields text) in
    Dict.update fields (_extract_checkboxes text)
  end.

(** *** Fields with a confidence *)

Record FieldMatch : Type := mkFieldMatch {
  fm_name : str;
  fm_value : str;
  fm_confidence : float;
  fm_position : nat * nat
}.

Definition common_fields : list str :=
  SchemaDetector.strs
    ["name"; "date"; "address"; "phone"; "email"; "ssn"; "dob";
     "number"; "amount"; "total"; "id"; "signature"; "account"].

(** The literals 0.1 and 0.3 as binary64 values. *)
Definition tenth : float := 0x1.999999999999ap-4%float.
Definition three_tenths : float := 0x1.3333333333333p-2%float.

(** [max(a, b)] and [min(a, b)] on two floats: the first argument unless
    the second is greater (is less). *)
Definition fmax (a b : float) : float := if PrimFloat.ltb a b then b else a.
Definition fmin (a b : float) : float := if PrimFloat.ltb b a then b else a.

(** The confidence is computed in binary64, as the code does: the sums
    of 0.1 and 0.2 are not exact, and the order of the results depends on
    their rounding. *)
Definition _calculate_confidence (name value : str) : float :=
  let confidence := TableParser.half in
  let confidence :=
    if (2 <? length name) && (length name <? 50)
    then PrimFloat.add confidence tenth else confidence in
  let confidence :=
    if (1 <? length value) && (length value <? 200)
    then PrimFloat.add confidence tenth else confidence in
  let confidence :=
    if existsb (fun cf => Str.contains cf (Str.lower name)) common_fields
    then PrimFloat.add confidence TableParser.fifth else confidence in
  let confidence :=
    if 200 <? length value
    then PrimFloat.sub confidence TableParser.fifth else confidence in
  fmin 1%float (fmax 0%float confidence).

Definition parse_with_confidence (text : str) : list FieldMatch :=
  let results :=
    flat_map
      (fun pattern =>
         flat_map
           (fun m =>
              let name := _normalize_field_name (group 1 m) in
              let value := Str.strip (group 2 m) in
              let confidence := _calculate_confidence name value in
              if PrimFloat.ltb three_tenths confidence
              then [mkFieldMatch name value confidence (m_start m, m_end m)]
              else [])
           (finditer pattern text))
      patterns in
  Builtins.sorted_reverse
    (fun a b => PrimFloat.ltb (fm_confidence a) (fm_confidence b)) results.

End FieldParser.

(** ** Context retriever ([src/qa/retriever.py]) *)

Module Retriever.
Import Re.
Import SchemaDetector.

Inductive chunk_kind : Type := KField | KTable | KText.

Record RetrievalResult : Type := mkResult {
  text : str;
  score : Q;
  source : str;
  chunk_type : chunk_kind
}.

(** \b\w{3,}\b *)
Definition term_pattern : regex :=
  seqs [WordB; rep 3 (Chr Str.is_word); star (Chr Str.is_word); WordB].

(** [set(l)]: the elements of [l], each once. *)
Fixpoint to_set (l : list str) : list str :=
  match l with
  | [] => []
  | x :: l' => if Str.mem x l' then to_set l' else x :: to_set l'
  end.

(** [set(re.findall(r'\b\w{3,}\b', x))] *)
Definition terms (x : str) : list str := to_set (findall term_pattern x).

(** [len(a & b)] for two sets *)
Definition overlap (a b : list str) : nat :=
  length (filter (fun x => Str.mem x b) a).

(** One long paragraph cut at the ends of sentences: the state of the
    loop is (chunks, current_chunk). *)
Definition add_sentence (chunk_size : nat) (st : list str * str) (sentence : str)
  : list str * str :=
  let (chunks, current_chunk) := st in
  if length current_chunk + length sentence <=? chunk_size then
    (chunks, match current_chunk with
             | [] => sentence
             | _ => current_chunk ++ s " " ++ sentence
             end)
  else
    (match current_chunk with
     | [] => chunks
     | _ => chunks ++ [current_chunk]
     end, sentence).

Definition newline : regex := lit (String "010" "").

Definition _split_into_chunks (x : str) (chunk_size : nat) : list str :=
  (* re.split(r'\n\s*\n', text) *)
  let paragraphs := split (seqs [newline; star space; newline]) x in
  flat_map
    (fun para0 =>
       let para := Str.strip para0 in
       match para with
       | [] => []
       | _ =>
         if length para <=? chunk_size then [para]
         else
           (* re.split(r'(?<=[.!?])\s+', para) *)
           let sentences := split (Seq (Behind (one_of ".!?")) (plus space)) para in
           let (chunks, current_chunk) :=
             fold_left (add_sentence chunk_size) sentences ([], []) in
           match current_chunk with
           | [] => chunks
           | _ => chunks ++ [current_chunk]
           end
       end)
    paragraphs.

(** The score of a chunk before it is weighted: the number of query
    terms it shares, over [max(1, len(query_terms))]. *)
Definition base_score (query_terms : list str) (chunk : str) : Q :=
  frac (overlap query_terms (terms (Str.lower chunk)))
       (Nat.max 1 (length query_terms)).

Definition _retrieve_from_text (query x : str) : list RetrievalResult :=
  match x with
  | [] => []
  | _ =>
    let query_terms := terms (Str.lower query) in
    flat_map
      (fun chunk =>
         let sc := base_score query_terms chunk in
         if Qltb 0.2 sc
         then [mkResult chunk (min1 (sc * 0.8)) "document text" KText]
         else [])
      (_split_into_chunks x 300)
  end.

(** *** The field and table strategies *)

Section Fields.
(** Python's [str] on a field value. *)
Variable py_str : value -> str.

Definition _retrieve_from_fields (query : str) (fields : fieldmap)
  : list RetrievalResult :=
  let query_terms := terms (Str.lower query) in
  flat_map
    (fun kv =>
       let field_terms := terms (Str.lower (fst kv)) in
       let value_terms := terms (Str.lower (py_str (snd kv))) in
       let field_overlap := overlap query_terms field_terms in
       let value_overlap := overlap query_terms value_terms in
       let sc := frac (field_overlap * 2 + value_overlap)
                      (Nat.max 1 (length query_terms)) in
       if Qltb 0 sc
       then [mkResult (fst kv ++ s ": " ++ py_str (snd kv)) (min1 sc)
                      (fst kv) KField]
       else [])
    fields.
End Fields.

(** The text a table is searched in: its rows, the cells of a row joined
    by " | ", every row followed by a line break. *)
Definition table_text (tb : list (list str)) : str :=
  fold_left (fun acc row => acc ++ Str.join " | " row ++ s (String "010" ""))
            tb [].

Definition _retrieve_from_tables (query : str) (tables : list (list (list str)))
  : list RetrievalResult :=
  let query_terms := terms (Str.lower query) in
  flat_map
    (fun it =>
       match snd it with
       | [] => []
       | tb =>
         let tt := table_text tb in
         let sc := frac (overlap query_terms (terms (Str.lower tt)))
                        (Nat.max 1 (length query_terms)) in
         if Qltb 0.1 sc
         then [mkResult (firstn 500 tt) (min1 sc)
                        (s "Table " ++ Str.of_nat (fst it + 1)) KTable]
         else []
       end)
    (Builtins.enumerate tables).

End Retriever.

(** ** Float arithmetic of the aggregator *)

Module FloatOps.
Import PyFloat.

Definition add (a b : t) : t :=
  match a, b with
  | NaN, _ | _, NaN => NaN
  | Inf x, Inf y => if Bool.eqb x y then Inf x else NaN
  | Inf x, Fin _ | Fin _, Inf x => Inf x
  | Fin x, Fin y => Fin (x + y)
  end.

(** [a / n] for a count [n] *)
Definition div_nat (a : t) (n : nat) : t :=
  match a with
  | Fin x => Fin (x / inject_Z (Z.of_nat n))
  | _ => a
  end.

(** [a < b] *)
Definition ltb (a b : t) : bool :=
  match a, b with
  | NaN, _ | _, NaN => false
  | Inf true, Inf true => false
  | Inf true, _ => true
  | _, Inf true => false
  | Inf false, _ => false
  | Fin _, Inf false => true
  | Fin x, Fin y => SchemaDetector.Qltb x y
  end.

(** [sum(l)] *)
Definition sum (l : list t) : t := fold_left add l (Fin 0).

(** [max(l)] and [min(l)]: the first of the greatest, of the least. *)
Definition max_of (x : t) (l : list t) : t :=
  fold_left (fun cur y => if ltb cur y then y else cur) l x.

Definition min_of (x : t) (l : list t) : t :=
  fold_left (fun cur y => if ltb y cur then y else cur) l x.

(** Commas between groups of three digits, on the reversed digits. *)
Fixpoint commas_rev (l : str) (n : nat) : str :=
  match l with
  | [] => []
  | c :: l' =>
    match n with
    | 3 => ","%char :: c :: commas_rev l' 1
    | _ => c :: commas_rev l' (S n)
    end
  end.

Definition two_digits (n : nat) : str :=
  if n <? 10 then s "0" ++ Str.of_nat n else Str.of_nat n.

(** The decimal numeral of a natural number of any size. *)
Fixpoint numeral (d : Decimal.uint) : str :=
  match d with
  | Decimal.Nil => []
  | Decimal.D0 d' => "0"%char :: numeral d'
  | Decimal.D1 d' => "1"%char :: numeral d'
  | Decimal.D2 d' => "2"%char :: numeral d'
  | Decimal.D3 d' => "3"%char :: numeral d'
  | Decimal.D4 d' => "4"%char :: numeral d'
  | Decimal.D5 d' => "5"%char :: numeral d'
  | Decimal.D6 d' => "6"%char :: numeral d'
  | Decimal.D7 d' => "7"%char :: numeral d'
  | Decimal.D8 d' => "8"%char :: numeral d'
  | Decimal.D9 d' => "9"%char :: numeral d'
  end.

Definition of_N (n : N) : str := numeral (N.to_uint n).

(** The integer nearest to a rational; of two that are equally near, the
    even one. *)
Definition half_even (q : Q) : Z :=
  let n := Qfloor q in
  match (q - inject_Z n ?= 1 # 2)%Q with
  | Lt => n
  | Gt => (n + 1)%Z
  | Eq => if Z.even n then n else (n + 1)%Z
  end.

Definition pow2 (e : Z) : Q := (2 ^ e)%Q.

(** The integer part of the binary logarithm of a positive rational. *)
Definition ilog2 (a : Q) : Z :=
  let e := (Z.log2 (Qnum a) - Z.log2 (Zpos (Qden a)))%Z in
  if SchemaDetector.Qltb a (pow2 e) then (e - 1)%Z else e.

(** The binary64 value of a number: the nearest multiple of a power of two
    with 53 bits (exponents from -1074), ties to even; an infinity from
    2^1024 on.  It is what [float] makes of a numeral.  (The model has one
    zero.) *)
Definition binary64 (x : t) : t :=
  match x with
  | Fin q =>
    if Qeq_bool q 0 then Fin 0
    else
      let a := Qabs q in
      let e := Z.max (ilog2 a - 52) (-1074) in
      let v := Qred (inject_Z (half_even (a / pow2 e)) * pow2 e) in
      if Qle_bool (pow2 1024) v then Inf (SchemaDetector.Qltb q 0)
      else Fin (if SchemaDetector.Qltb q 0 then - v else v)
  | _ => x
  end.

(** [f"{x:,.2f}"] for a binary64 value [x]: its exact value rounded to two
    decimals, ties to even, with commas between the thousands. *)
Definition format_comma_2f (x : t) : str :=
  match x with
  | NaN => "nan"
  | Inf negative => if negative then "-inf" else "inf"
  | Fin q =>
    let cents := half_even (Qabs q * 100) in
    let whole := Z.to_N (cents / 100) in
    let part := Z.to_nat (cents mod 100) in
    (if SchemaDetector.Qltb q 0 then s "-" else []) ++
    rev (commas_rev (rev (of_N whole)) 0) ++ s "." ++ two_digits part
  end.

(** *** Numbers: [int] and [float] *)

Inductive number : Type :=
| NInt (z : Z)
| NFloat (f : t).

(** The least absolute value of an [int] that has no [float]: the greatest
    float is 2^1024 - 2^971, and what lies half way to 2^1024 or beyond
    rounds to 2^1024. *)
Definition float_limit : Z := (2 ^ 1024 - 2 ^ 970)%Z.

(** [float(z)] for an [int]; [None] stands for OverflowError.  The value
    is kept without rounding. *)
Definition float_of_int (z : Z) : option t :=
  if (Z.abs z <? float_limit)%Z then Some (of_Z z) else None.

(** The value of a number, which a comparison of an [int] with a [float]
    compares exactly. *)
Definition value_of (x : number) : t :=
  match x with
  | NInt z => of_Z z
  | NFloat f => f
  end.

(** [a + b]: two [int]s are added exactly, an [int] that meets a [float]
    is converted first; [None] stands for OverflowError. *)
Definition add_number (a b : number) : option number :=
  match a, b with
  | NInt x, NInt y => Some (NInt (x + y))
  | NInt x, NFloat g =>
    match float_of_int x with
    | Some f => Some (NFloat (add f g))
    | None => None
    end
  | NFloat f, NInt y =>
    match float_of_int y with
    | Some g => Some (NFloat (add f g))
    | None => None
    end
  | NFloat f, NFloat g => Some (NFloat (add f g))
  end.

(** [sum(l)], which starts from the [int] 0. *)
Definition sum_numbers (l : list number) : option number :=
  fold_left (fun result item =>
               match result with
               | Some r => add_number r item
               | None => None
               end) l (Some (NInt 0%Z)).

(** [a / n] for a count [n]: the quotient of two [int]s is rounded once
    and raises OverflowError ([None]) when it rounds to 2^1024; a [float]
    is divided as a float. *)
Definition true_div (a : number) (n : nat) : option t :=
  match a with
  | NInt z =>
    if (Z.abs z <? float_limit * Z.of_nat n)%Z
    then Some (Fin (inject_Z z / inject_Z (Z.of_nat n)))
    else None
  | NFloat f => Some (div_nat f n)
  end.

(** [max(l)] and [min(l)] of numbers. *)
Definition max_number (x : number) (l : list number) : number :=
  fold_left (fun cur y => if ltb (value_of cur) (value_of y) then y else cur) l x.

Definition min_number (x : number) (l : list number) : number :=
  fold_left (fun cur y => if ltb (value_of y) (value_of cur) then y else cur) l x.

End FloatOps.

(** ** Table parser: the methods that read a ParsedTable
    ([src/processors/table_parser.py]) *)

Module ParsedTables.
Import Re.
Import TableParser.

(** [{header: row[i] for i, header in enumerate(headers)}]; [None] is the
    IndexError of a row that has fewer cells than there are headers. *)
Definition row_dict (headers : list str) (row : list str)
  : option (Dict.t str) :=
  fold_left (fun acc ih =>
               match acc with
               | Some d =>
                 match nth_error row (fst ih) with
                 | Some cell => Some (Dict.set (snd ih) cell d)
                 | None => None
                 end
               | None => None
               end)
            (Builtins.enumerate headers) (Some []).

Fixpoint all_some {A} (l : list (option A)) : option (list A) :=
  match l with
  | [] => Some []
  | Some a :: l' =>
    match all_some l' with
    | Some r => Some (a :: r)
    | None => None
    end
  | None :: _ => None
  end.

Definition to_dict_list (p : ParsedTable) : option (list (Dict.t str)) :=
  all_some (map (row_dict (headers p)) (rows p)).

(** [l.index(x)] for an element of [l] *)
Fixpoint index (x : str) (l : list str) : nat :=
  match l with
  | [] => 0
  | y :: l' => if Str.eqb x y then 0 else S (index x l')
  end.

(** [float(re.sub(r'[\$,€£%\s]', '', cell))] *)
Definition number_of (cell : str) : option PyFloat.t :=
  PyFloat.of_str (delete (fun c => one_of "$,%" c || Str.is_space c) cell).

(** The numbers of a column, from top to bottom. *)
Definition column_values (p : ParsedTable) (col_idx : nat) : list PyFloat.t :=
  flat_map (fun row =>
              match nth_error row col_idx with
              | Some cell =>
                match number_of cell with
                | Some f => [f]
                | None => []
                end
              | None => []
              end)
           (rows p).

(** The result of [aggregate]: a float, or the [int] of a count. *)
Inductive aggregated : Type :=
| AFloat (f : PyFloat.t)
| ACount (n : nat).

Definition aggregate (p : ParsedTable) (column operation : str)
  : option aggregated :=
  if negb (Str.mem column (headers p)) then None
  else
    let col_idx := index column (headers p) in
    match column_values p col_idx with
    | [] => None
    | x :: rest =>
      let values := x :: rest in
      if Str.eqb operation "sum" then Some (AFloat (FloatOps.sum values))
      else if Str.eqb operation "avg"
      then Some (AFloat (FloatOps.div_nat (FloatOps.sum values) (length values)))
      else if Str.eqb operation "min" then Some (AFloat (FloatOps.min_of x rest))
      else if Str.eqb operation "max" then Some (AFloat (FloatOps.max_of x rest))
      else if Str.eqb operation "count" then Some (ACount (length values))
      else None
    end.

(** One row with "total" in its first cell: every header takes the number
    of the cell below it, when there is one. *)
Definition add_totals (headers : list str) (totals : Dict.t PyFloat.t)
           (row : list str) : Dict.t PyFloat.t :=
  fold_left (fun totals ih =>
               match nth_error row (fst ih) with
               | Some cell =>
                 match number_of cell with
                 | Some f => Dict.set (snd ih) f totals
                 | None => totals
                 end
               | None => totals
               end)
            (Builtins.enumerate headers) totals.

Definition is_total_row (row : list str) : bool :=
  match row with
  | first :: _ => Str.contains "total" (Str.lower first)
  | [] => false
  end.

Definition find_totals (p : ParsedTable) : Dict.t PyFloat.t :=
  fold_left (fun totals row =>
               if is_total_row row then add_totals (headers p) totals row
               else totals)
            (rows p) [].

(** One line of a Markdown table. *)
Definition md_line (cells : list str) : str :=
  s "| " ++ Str.join " | " cells ++ s " |".

(** [row + [""] * (n - len(row))], cut to [n] cells *)
Definition padded (n : nat) (row : list str) : list str :=
  firstn n (row ++ repeat [] (n - length row)).

Definition to_markdown (p : ParsedTable) : str :=
  let n := length (headers p) in
  Str.join (String "010" "")
    (md_line (headers p) ::
     md_line (map (fun _ => s "---") (headers p)) ::
     map (fun row => md_line (padded n row)) (rows p)).

End ParsedTables.

(** ** QA engine ([src/qa/qa_engine.py]) *)

Module QAEngine.
Import Re.
Import SchemaDetector.

(** The part of [FormDocument] ([src/agent.py]) the engine reads. *)
Record FormDocument : Type := mkDoc {
  file_path : str;
  raw_text : str;
  fields : fieldmap;
  tables : list (list (list str));
  schema_type : option str
}.

Record QueryResult : Type := mkQuery {
  question : str;
  answer_text : str;
  confidence : Q;
  source_fields : list str;
  context : str
}.

Definition no_information : str :=
  "I couldn't find relevant information to answer this question.".

Definition any_in (keys : list string) (x : str) : bool :=
  existsb (fun w => Str.contains (s w) x) keys.

(** \b\w+\b *)
Definition word_pattern : regex :=
  seqs [WordB; plus (Chr Str.is_word); WordB].

Definition word_set (x : str) : list str :=
  Retriever.to_set (findall word_pattern x).

Definition stop_words : list str :=
  strs ["the"; "a"; "an"; "is"; "are"; "was"; "were"; "what"; "who";
        "where"; "when"; "how"; "which"; "this"; "that"; "of"; "in";
        "on"; "for"; "to"; "from"; "with"; "by"].

Definition Qmax (a b : Q) : Q := if Qltb a b then b else a.

Definition _calculate_relevance (question field value : str) : Q :=
  let question_terms :=
    filter (fun w => negb (Str.mem w stop_words)) (word_set question) in
  let field_terms := word_set field in
  let value_terms := word_set value in
  let n := Nat.max 1 (length question_terms) in
  let field_overlap := frac (Retriever.overlap question_terms field_terms) n in
  let value_overlap := frac (Retriever.overlap question_terms value_terms) n in
  Qmax field_overlap (value_overlap * 0.5).

Definition _extract_relevant_snippets (question x : str) : list str :=
  match x with
  | [] => []
  | _ =>
    let question_terms := Retriever.terms (Str.lower question) in
    (* re.split(r'[.!?\n]+', text) *)
    let sentences := split (plus (Chr (fun c => one_of ".!?" c || Ascii.eqb c "010"))) x in
    let keep sentence0 :=
      let sentence := Str.strip sentence0 in
      if (length sentence <? 10) || (500 <? length sentence) then []
      else if 2 <=? Retriever.overlap question_terms
                      (Retriever.terms (Str.lower sentence))
      then [sentence] else [] in
    firstn 3 (flat_map keep sentences)
  end.

(** what is (?:the )?(.+?)(?:\?|$), and the same after "what's" and
    "what are". *)
Definition what_pattern (head : string) : regex :=
  seqs [lit (s head); lit " "; opt (lit "the "); Grp 1 (plus_lazy (Chr dot));
        Alt (lit "?") (Eol false)].

Definition what_patterns : list regex :=
  [what_pattern "what is"; what_pattern "what's"; what_pattern "what are"].

(** \$?[\d,]+(?:\.\d{2})? *)
Definition number_pattern : regex :=
  seqs [opt (lit "$"); plus (FieldParser.cls [Str.is_digit] ",");
        opt (Seq (lit ".") (rep 2 digit))].

(** The first element of a list that passes a test. *)
Definition first_of {A} (f : A -> bool) (l : list A) : option A :=
  find f l.

Definition generic (context : str) : str * Q :=
  (s "Based on the form: " ++ firstn 200 context, 0.5%Q).

Section Engine.
(** Python's [str] on a field value. *)
Variable py_str : value -> str.
(** [config['top_k_retrieval']], 5 when absent. *)
Variable top_k : nat.
(** The flag [_use_embeddings] and the embedding provider: [None] when
    sentence-transformers cannot be loaded, else the chunks the provider
    ranks first for a question. *)
Variable use_embeddings : bool.
Variable embedder : option (str -> list str -> list str).

Definition render (kv : str * value) : str :=
  fst kv ++ s ": " ++ py_str (snd kv).

Definition _semantic_search (question : str) (document : FormDocument)
  : list str :=
  match embedder with
  | None => []
  | Some rank =>
    let chunks :=
      map render (fields document) ++
      filter TableParser.nonempty
             (map Str.strip (Str.split (String "010" (String "010" ""))
                                       (raw_text document))) in
    match chunks with
    | [] => []
    | _ => rank question chunks
    end
  end.

Definition _retrieve_context (question : str) (document : FormDocument)
  : str * list str :=
  let question_lower := Str.lower question in
  let relevant :=
    filter (fun kv =>
              Qltb 0.3 (_calculate_relevance question_lower
                          (Str.lower (fst kv))
                          (Str.lower (py_str (snd kv)))))
           (fields document) in
  let source_fields := map fst relevant in
  let context_parts := map render relevant in
  let context_parts :=
    if use_embeddings && (length context_parts <? 3)
    then context_parts ++ _semantic_search question document
    else context_parts in
  let context_parts :=
    context_parts ++ _extract_relevant_snippets question (raw_text document) in
  (Str.join (String "010" "") (firstn top_k context_parts), source_fields).

(** [document] is [None] when the caller passes a list of documents,
    which has no attribute [fields]. *)
Definition the_field (kv : str * value) : str * Q :=
  (s "The " ++ fst kv ++ s " is: " ++ py_str (snd kv), 0.9%Q).

Definition doc_fields (document : option FormDocument) : fieldmap :=
  match document with
  | Some d => fields d
  | None => []
  end.

Definition _answer_what_question (question context : str)
           (document : option FormDocument) : str * Q :=
  let subject :=
    match flat_map (fun p => match search p question with
                             | Some m => [Str.strip (group 1 m)]
                             | None => []
                             end) what_patterns with
    | x :: _ => x
    | [] => []
    end in
  let by_field :=
    match subject with
    | [] => None
    | _ =>
      first_of (fun kv => Str.contains subject (Str.lower (fst kv))
                          || Str.contains (Str.lower (fst kv)) subject)
               (doc_fields document)
    end in
  match by_field with
  | Some kv => the_field kv
  | None =>
    match first_of (fun line => Str.contains ":" line) (Str.lines context) with
    | Some line => (Str.strip line, 0.7%Q)
    | None => (firstn 200 context, 0.5%Q)
    end
  end.

Definition _answer_quantity_question (question context : str)
           (document : option FormDocument) : str * Q :=
  let numbers := findall number_pattern context in
  match numbers with
  | [] => generic context
  | _ =>
    let total_line :=
      if Str.contains "total" question
      then first_of (fun line => Str.contains "total" (Str.lower line))
                    (Str.lines context)
      else None in
    match total_line with
    | Some line => (Str.strip line, 0.85%Q)
    | None =>
      let parsed_numbers :=
        flat_map (fun n =>
                    match PyFloat.of_str
                            (Str.remove_char "," (Str.remove_char "$" n)) with
                    | Some f => [FloatOps.binary64 f]
                    | None => []
                    end) numbers in
      match parsed_numbers with
      | x :: rest =>
        (s "The amount is: $" ++
           FloatOps.format_comma_2f (FloatOps.max_of x rest), 0.7%Q)
      | [] => generic context
      end
    end
  end.

Definition by_keywords (keys : list string) (context : str)
           (document : option FormDocument) : str * Q :=
  match first_of (fun kv => any_in keys (Str.lower (fst kv)))
                 (doc_fields document) with
  | Some kv => the_field kv
  | None =>
    match first_of (fun line => any_in keys (Str.lower line))
                   (Str.lines context) with
    | Some line => (Str.strip line, 0.7%Q)
    | None => generic context
    end
  end.

Definition _answer_who_question (question context : str)
           (document : option FormDocument) : str * Q :=
  by_keywords ["name"; "applicant"; "employee"; "patient"; "customer"; "client"]
              context document.

Definition _answer_where_question (question context : str)
           (document : option FormDocument) : str * Q :=
  by_keywords ["address"; "location"; "city"; "state"; "zip"; "street"]
              context document.

Definition _answer_when_question (question context : str)
           (document : option FormDocument) : str * Q :=
  let found :=
    flat_map (fun p => match search p context with
                       | Some m => [m_text m]
                       | None => []
                       end)
             [FieldParser.date_mdy; FieldParser.date_ymd;
              FieldParser.date_month_day] in
  match found with
  | d :: _ => (s "The date is: " ++ d, 0.8%Q)
  | [] =>
    match first_of (fun kv => Str.contains "date" (Str.lower (fst kv)))
                   (doc_fields document) with
    | Some kv => the_field kv
    | None => generic context
    end
  end.

Definition _generate_answer (question context : str)
           (document : option FormDocument) : str * Q :=
  match context with
  | [] => (no_information, 0%Q)
  | _ =>
    let question_lower := Str.lower question in
    if any_in ["what is"; "what's"; "what are"] question_lower
    then _answer_what_question question_lower context document
    else if any_in ["how much"; "how many"; "total"; "sum"; "amount"]
                   question_lower
    then _answer_quantity_question question_lower context document
    else if any_in ["who"; "whose"] question_lower
    then _answer_who_question question_lower context document
    else if any_in ["when"; "date"] question_lower
    then _answer_when_question question_lower context document
    else if any_in ["where"; "address"; "location"] question_lower
    then _answer_where_question question_lower context document
    else (s "Based on the form: " ++ firstn 300 context ++ s "...", 0.6%Q)
  end.

Definition answer (question : str) (document : FormDocument) : QueryResult :=
  let (context, source_fields) := _retrieve_context question document in
  let (answer, confidence) := _generate_answer question context (Some document) in
  mkQuery question answer confidence source_fields (firstn 500 context).

Definition answer_multiple (question : str) (documents : list FormDocument)
  : QueryResult :=
  let found :=
    flat_map (fun doc =>
                let (context, fields) := _retrieve_context question doc in
                match context with
                | [] => []
                | _ => [(s "[" ++ file_path doc ++ s "]: " ++ context, fields)]
                end) documents in
  let combined_context :=
    Str.join (String "010" (String "010" "")) (map fst found) in
  let (answer, confidence) := _generate_answer question combined_context None in
  mkQuery question answer confidence
          (Retriever.to_set (concat (map snd found)))
          (firstn 1000 combined_context).
End Engine.

(** *** Cross-form analysis *)

Record stats : Type := mkStats {
  st_count : nat;
  st_sum : FloatOps.number;
  st_average : PyFloat.t;
  st_min : FloatOps.number;
  st_max : FloatOps.number
}.

(** The entries of [all_fields]: a value and the path of its document. *)
Definition sourced : Type := (value * str)%type.

(** [all_fields]: every field name with its values across the
    documents. *)
Definition add_field (source : str) (all_fields : Dict.t (list sourced))
           (kv : str * value) : Dict.t (list sourced) :=
  let seen := match Dict.get (fst kv) all_fields with
              | Some l => l
              | None => []
              end in
  Dict.set (fst kv) (seen ++ [(snd kv, source)]) all_fields.

Definition collect (documents : list FormDocument) : Dict.t (list sourced) :=
  fold_left (fun acc doc => fold_left (add_field (file_path doc)) (fields doc) acc)
            documents [].

(** What the loop over the values of a field appends to
    [numeric_values]: an [int] or a [float] as it is (a [bool] is an
    [int]), the ['value'] of a dictionary when [float] accepts it. *)
Definition numeric_of (v : value) : option FloatOps.number :=
  match v with
  | VInt z => Some (FloatOps.NInt z)
  | VBool b => Some (FloatOps.NInt (if b then 1 else 0))
  | VFloat f => Some (FloatOps.NFloat f)
  | VCurrency amount _ => Some (FloatOps.NFloat amount)
  | VDate x => option_map FloatOps.NFloat (PyFloat.of_str x)
  | VStr _ | VList _ => None
  end.

Definition numeric_values (values : list sourced) : list FloatOps.number :=
  flat_map (fun v => match numeric_of (fst v) with
                     | Some f => [f]
                     | None => []
                     end) values.

(** The entry of a field whose numeric values are [x :: rest]; [None]
    stands for the OverflowError of [sum] or of the division. *)
Definition summarize (x : FloatOps.number) (rest : list FloatOps.number)
  : option stats :=
  let numeric := x :: rest in
  match FloatOps.sum_numbers numeric with
  | Some total =>
    match FloatOps.true_div total (length numeric) with
    | Some average =>
      Some (mkStats (length numeric) total average
                    (FloatOps.min_number x rest) (FloatOps.max_number x rest))
    | None => None
    end
  | None => None
  end.

(** One turn of the loop over [all_fields]; an OverflowError ends it. *)
Definition summary_step (field_summary : option (Dict.t stats))
           (fv : str * list sourced) : option (Dict.t stats) :=
  match field_summary with
  | Some summary =>
    match numeric_values (snd fv) with
    | [] => Some summary
    | x :: rest =>
      match summarize x rest with
      | Some st => Some (Dict.set (fst fv) st summary)
      | None => None
      end
    end
  | None => None
  end.

Definition field_summary (all_fields : Dict.t (list sourced))
  : option (Dict.t stats) :=
  fold_left summary_step all_fields (Some []).

(** Whether [f"{x:,.2f}"] raises OverflowError: an [int] is converted to a
    [float] before it is formatted. *)
Definition format_overflows (x : FloatOps.number) : bool :=
  match x with
  | FloatOps.NInt z =>
    match FloatOps.float_of_int z with
    | Some _ => false
    | None => true
    end
  | FloatOps.NFloat _ => false
  end.

(** [_generate_insights]: the model keeps of it whether it raises.  Its
    sentences are not modelled (their text depends on the order in which a
    set is iterated and on the rounding of the average); the one on a
    salary, an income or an amount with more than one value formats the
    average, a [float], and the least and the greatest value. *)
Definition insights_overflow (summary : Dict.t stats) : bool :=
  existsb (fun fs =>
             (1 <? st_count (snd fs))
             && (Str.contains "salary" (Str.lower (fst fs))
                 || Str.contains "income" (Str.lower (fst fs))
                 || Str.contains "amount" (Str.lower (fst fs)))
             && (format_overflows (st_min (snd fs))
                 || format_overflows (st_max (snd fs))))
          summary.

(** [common_fields]: the names that have a value in every document. *)
Definition common_field_names (all_fields : Dict.t (list sourced))
           (documents : list FormDocument) : list str :=
  map fst (filter (fun fv => Nat.eqb (length (snd fv)) (length documents))
                  all_fields).

(** The result of [cross_form_analysis], without its ['insights']. *)
Record analysis : Type := mkAnalysis {
  total_documents : nat;
  common_fields : list str;
  schema_types : list (option str);
  an_field_summary : Dict.t stats;
  an_answer : str
}.

(** [None] stands for OverflowError. *)
Definition cross_form_analysis (py_str : value -> str) (top_k : nat)
           (use_embeddings : bool)
           (embedder : option (str -> list str -> list str))
           (question : str) (documents : list FormDocument) : option analysis :=
  let all_fields := collect documents in
  let common_fields := common_field_names all_fields documents in
  match field_summary all_fields with
  | Some summary =>
    if insights_overflow summary then None
    else
      Some (mkAnalysis
              (length documents)
              common_fields
              (map schema_type documents)
              summary
              (answer_text (answer_multiple py_str top_k use_embeddings embedder
                                            question documents)))
  | None => None
  end.

End QAEngine.

(** * Notions used in the statements *)

Unset Implicit Arguments.

(** ** The matcher

    [reach r p q]: the pattern [r] can take the matcher from position [p]
    to position [q].  Every result of [Re.run] is reached this way
    ([run_sound] below), which is how facts about what a pattern of the
    program matched are proved. *)

Inductive reach : regex -> Re.pos -> Re.pos -> Prop :=
| reach_eps p : reach Eps p p
| reach_chr f p c t :
    Re.ahead p = c :: t -> f c = true -> reach (Chr f) p (Re.step c p)
| reach_seq r1 r2 p q u :
    reach r1 p q -> reach r2 q u -> reach (Seq r1 r2) p u
| reach_alt_l r1 r2 p q : reach r1 p q -> reach (Alt r1 r2) p q
| reach_alt_r r1 r2 p q : reach r2 p q -> reach (Alt r1 r2) p q
| reach_star_stop g r p : reach (Star g r) p p
| reach_star_more g r p q u :
    reach r p q -> reach (Star g r) q u -> reach (Star g r) p u
| reach_grp i r p q :
    reach r p q -> reach (Grp i r) p (Re.capture i (Re.between p q) q)
| reach_bol p : reach Bol p p
| reach_eol m p : reach (Eol m) p p
| reach_wordb p : reach WordB p p
| reach_behind f p : reach (Behind f) p p.

(** A pattern without groups. *)
Fixpoint groupless (r : regex) : bool :=
  match r with
  | Grp _ _ => false
  | Seq r1 r2 | Alt r1 r2 => groupless r1 && groupless r2
  | Star _ r1 => groupless r1
  | _ => true
  end.

(** The groups a pattern can capture. *)
Fixpoint group_ids (r : regex) : list nat :=
  match r with
  | Grp i r1 => i :: group_ids r1
  | Seq r1 r2 | Alt r1 r2 => group_ids r1 ++ group_ids r2
  | Star _ r1 => group_ids r1
  | _ => []
  end.

(** The loop that [Re.run] runs on a repetition, with the matcher of the
    body and the number of turns as parameters. *)
Definition star_loop {A : Type} (body : Re.pos -> (Re.pos -> option A) -> option A)
           (greedy : bool) (k : Re.pos -> option A) : nat -> Re.pos -> option A :=
  fix loop (n : nat) (p : Re.pos) : option A :=
    match n with
    | O => k p
    | S n' =>
      let again :=
        body p (fun q => if length (Re.ahead q) <? length (Re.ahead p)
                         then loop n' q else None) in
      if greedy
      then match again with Some v => Some v | None => k p end
      else match k p with Some v => Some v | None => again end
    end.

(** Every class of a pattern accepts only characters of the set [ok]. *)
Fixpoint classes_within (ok : ascii -> bool) (r : regex) : Prop :=
  match r with
  | Chr f => forall c, f c = true -> ok c = true
  | Seq r1 r2 | Alt r1 r2 => classes_within ok r1 /\ classes_within ok r2
  | Star _ r1 | Grp _ r1 => classes_within ok r1
  | _ => True
  end.

(** The 256 characters, to settle a fact about classes by enumeration. *)
Definition all_ascii : list ascii := map ascii_of_nat (seq 0 256).

Definition decimal_char (c : ascii) : bool :=
  Str.is_digit c || Ascii.eqb c ".".

Definition money_char (c : ascii) : bool :=
  Str.is_digit c || Re.one_of "$,." c.

Definition finite (f : PyFloat.t) : Prop := exists q, f = PyFloat.Fin q.

(** ** Table parser *)

(** The tables of the input that have a row. *)
Definition has_rows (tb : TableParser.table) : bool :=
  match tb with [] => false | _ => true end.

(** ** Schema detector *)

(** The schema types that have a list of expected fields. *)
Definition catalogued : list str :=
  [s "w2"; s "insurance_claim"; s "job_application"; s "loan_application"].

Section DetectNotions.
Import SchemaDetector.
(** The text the indicators are looked up in. *)
Variable hay : str.

(** A schema type is a candidate when it has its required number of
    matched indicators. *)
Definition candidate (d : schema_def) : Prop :=
  sd_required d <= length (matched hay d).

Definition the_match (d : schema_def) : SchemaMatch :=
  mkSchemaMatch (sd_type d) (min1 (score hay d * 1.2)%Q)
                (matched hay d) (sd_category d).

(** The first candidate of a catalog with the greatest score. *)
Definition first_best (l : list schema_def) (d : schema_def) : Prop :=
  exists p1 p2,
    l = p1 ++ d :: p2 /\ candidate d /\
    (forall d', In d' p1 -> candidate d' -> (score hay d' < score hay d)%Q) /\
    (forall d', In d' p2 -> candidate d' -> (score hay d' <= score hay d)%Q).

(** The state (best_match, best_score) of the loop of
    [detect_with_confidence] after the types of [l]. *)
Definition loop_inv (l : list schema_def) (st : option SchemaMatch * Q) : Prop :=
  (st = (None, 0%Q) /\ forall d, In d l -> ~ candidate d) \/
  (exists d, first_best l d /\ st = (Some (the_match d), score hay d)).

Definition well_formed (d : schema_def) : Prop := 0 < sd_required d.

End DetectNotions.

(** The confidence of a type with [m] of its [n] indicators matched, and
    the test against the floor 0.5, as the code computes them in binary64:
    [min(1.0, m / n * 1.2) >= 0.5]. *)
Definition confidence_binary64 (m n : nat) : float :=
  let x := PrimFloat.mul (TableParser.ratio m n) 0x1.3333333333333p+0%float in
  if PrimFloat.ltb x 1%float then x else 1%float.

Definition confident_binary64 (m n : nat) : bool :=
  PrimFloat.leb TableParser.half (confidence_binary64 m n).

(** Every (matched count, indicator count) a type of the catalog can
    have. *)
Definition catalog_counts : list (nat * nat) :=
  flat_map (fun d => let n := length (SchemaDetector.sd_indicators d) in
                     map (fun m => (m, n)) (seq 0 (S n)))
           SchemaDetector.schemas.

(** ** Field parser *)

(** A key of a FieldMap as the specification wants it: not empty, trimmed
    and outside the list of generic names. *)
Definition good_key (k : str) : Prop :=
  k <> [] /\ Str.strip k = k /\ ~ In k FieldParser.generic_names.

Definition good_keys (d : fieldmap) : Prop :=
  forall k, In k (Dict.keys d) -> good_key k.

(** Every pattern the parser runs over the text. *)
Definition parser_patterns : list regex :=
  FieldParser.patterns ++
  [FieldParser.email_pattern; FieldParser.phone_pattern; FieldParser.ssn_pattern] ++
  FieldParser.date_patterns ++
  map (fun p => fst (fst p)) FieldParser.checkbox_patterns.

(** No pattern of the parser finds a match in the text. *)
Definition no_match (text : str) : bool :=
  forallb (fun p => match Re.finditer p text with [] => true | _ => false end)
          parser_patterns.

(** ** QA engine *)

Section SummaryNotions.
Import QAEngine.
(** A field name. *)
Variable f : str.

(** The values the field name has across the documents, in the order the
    aggregator meets them. *)
Definition in_document (doc : FormDocument) : list sourced :=
  flat_map (fun kv => if Str.eqb f (fst kv) then [(snd kv, file_path doc)] else [])
           (fields doc).

Definition occurrences (documents : list FormDocument) : list sourced :=
  flat_map in_document documents.

(** The entry of [all_fields] for the name, given the entry so far and
    the values that follow. *)
Definition merge (o : option (list sourced)) (l : list sourced)
  : option (list sourced) :=
  match l with
  | [] => o
  | _ => Some (match o with Some l0 => l0 | None => [] end ++ l)
  end.

End SummaryNotions.



(** The documents whose [int]s [str] prints: those of at most
    [max_str_digits] digits. *)
Definition ints_printable (documents : list QAEngine.FormDocument) : bool :=
  forallb (fun doc =>
             forallb (fun kv => match snd kv with
                                | VInt z => (Z.abs z <? 10 ^ Z.of_nat PyFloat.max_str_digits)%Z
                                | _ => true
                                end)
                     (QAEngine.fields doc))
          documents.


(** The numbers the engine reads in a context, as binary64 values. *)
Definition parsed_numbers (context : str) : list PyFloat.t :=
  flat_map (fun n =>
              match PyFloat.of_str (Str.remove_char "," (Str.remove_char "$" n)) with
              | Some f => [FloatOps.binary64 f]
              | None => []
              end)
           (Re.findall QAEngine.number_pattern context).

(** The confidence of an answer that has a context. *)
Definition confidence_levels : list Q := [0.5; 0.6; 0.7; 0.8; 0.85; 0.9]%Q.

(** ** Numerals *)

(** The number a string of decimal digits stands for. *)
Definition decimal_value (x : str) : nat :=
  fold_left (fun acc c => 10 * acc + (Str.code c - 48)) x 0.

(** A schema type is listed among all the matches when one of its
    indicators occurs in the text. *)
Definition listed (hay : str) (d : SchemaDetector.schema_def) : bool :=
  0 <? length (SchemaDetector.matched hay d).

(** ** Field parser: the confidence of a field *)

(** The literal 0.9 as a binary64 value. *)
Definition nine_tenths : float := 0x1.ccccccccccccdp-1%float.

(** The confidence as a function of the three boosts (a reasonable name,
    a reasonable value, a common field word) and the penalty (a long
    value). *)
Definition confidence_of (name_ok value_ok common long : bool) : float :=
  let confidence := TableParser.half in
  let confidence :=
    if name_ok then PrimFloat.add confidence FieldParser.tenth else confidence in
  let confidence :=
    if value_ok then PrimFloat.add confidence FieldParser.tenth else confidence in
  let confidence :=
    if common then PrimFloat.add confidence TableParser.fifth else confidence in
  let confidence :=
    if long then PrimFloat.sub confidence TableParser.fifth else confidence in
  FieldParser.fmin 1%float (FieldParser.fmax 0%float confidence).

Definition confidence_values : list float :=
  flat_map (fun a =>
    flat_map (fun b =>
      flat_map (fun c => map (confidence_of a b c) [true; false])
               [true; false])
             [true; false])
           [true; false].

(** ** Parsed tables *)

(** The position of the last header equal to [h]. *)
Fixpoint last_index (h : str) (headers : list str) : option nat :=
  match headers with
  | [] => None
  | y :: l =>
    match last_index h l with
    | Some k => Some (S k)
    | None => if Str.eqb h y then Some 0 else None
    end
  end.

(** The cells of a column, from top to bottom. *)
Definition column_cells (p : TableParser.ParsedTable) (col_idx : nat) : list str :=
  flat_map (fun row => match nth_error row col_idx with
                       | Some cell => [cell]
                       | None => []
                       end)
           (TableParser.rows p).

(** No character of the text of a float is the letter o. *)
Definition not_o (c : ascii) : bool :=
  negb (Ascii.eqb (Str.lower_char c) "o").

(** No cell of the table holds a line break. *)
Definition single_line_cells (p : TableParser.ParsedTable) : bool :=
  forallb (fun cell => negb (existsb (Ascii.eqb "010") cell))
          (TableParser.headers p ++ concat (TableParser.rows p)).

(** ** The matcher: positions of a text *)

(** [p] is a position of the text [x]. *)
Definition position_of (x : str) (p : Re.pos) : Prop :=
  rev (Re.before p) ++ Re.ahead p = x.

(** The characters that end a sentence in [_extract_relevant_snippets]. *)
Definition sentence_end (c : ascii) : bool :=
  Re.one_of ".!?" c || Ascii.eqb c "010".

(** ** Sample inputs *)

(** [str] on the values that are strings, where it is the identity. *)
Definition str_of_text (v : value) : str :=
  match v with VStr x => x | _ => [] end.

Definition one_row_table : TableParser.table := [[s "Name"; s "Amount"]].

Definition empty_doc : QAEngine.FormDocument :=
  QAEngine.mkDoc "empty.pdf" "" [] [] None.

Definition w2_fields : fieldmap :=
  [(s "Form W-2", VStr "Wage and Tax Statement"); (s "EIN", VStr "12-3456789")].

Definition w2_def : SchemaDetector.schema_def :=
  nth 0 SchemaDetector.schemas (SchemaDetector.mkSchema [] [] [] 0).

Definition w2_text : str :=
  "Form W-2 Wage and Tax Statement Employee's Social Security Number Federal Income Tax Withheld".

Definition salary_docs : list QAEngine.FormDocument :=
  [ QAEngine.mkDoc "alice.txt" "" [(s "Annual Salary", VInt 110000)] [] None;
    QAEngine.mkDoc "bob.txt" "" [(s "Annual Salary", VInt 80000);
                                 (s "Bonus", VInt 5000)] [] None;
    QAEngine.mkDoc "carol.txt" "" [(s "Annual Salary", VInt 65000)] [] None ].

Definition wage_query : str := "what are the total wages and taxes for year".
Definition wage_text : str := "Total wages: 50000".

Definition garbage_text : str := "%%% ~~ 0x7f ??".

Definition newline_char : string := String "010" "".

Definition ssn_text : str := "Employee SSN: 123-45-6789".

(** A parsed table with a row of totals. *)
Definition priced_table : TableParser.ParsedTable :=
  TableParser.mkParsedTable
    [s "Item"; s "Amount"]
    [[s "Widget"; s "$100"]; [s "Gadget"; s "$250"]; [s "Total"; s "$350"]]
    2 3 true "financial".

(** A text with an e-mail address. *)
Definition contact_text : str := "Contact: john@example.com".

(** * Properties *)

(** ** Strings *)

Lemma str_eqb_eq (x y : str) : Str.eqb x y = true <-> x = y.
Proof.
  revert y; induction x as [|a x IH]; intros [|b y]; simpl; split;
    try congruence; try reflexivity.
  - intros H. apply andb_true_iff in H as [Hab Hxy].
    apply Ascii.eqb_eq in Hab. apply IH in Hxy. congruence.
  - intros H. injection H as -> ->.
    rewrite Ascii.eqb_refl. simpl. now apply IH.
Qed.

Lemma str_eqb_refl (x : str) : Str.eqb x x = true.
Proof. now apply str_eqb_eq. Qed.

Lemma str_eqb_neq (x y : str) : Str.eqb x y = false <-> x <> y.
Proof.
  split.
  - intros H E. apply str_eqb_eq in E. congruence.
  - intros H. destruct (Str.eqb x y) eqn:E; [|reflexivity].
    apply str_eqb_eq in E. contradiction.
Qed.

Lemma str_mem_In (x : str) (l : list str) : Str.mem x l = true <-> In x l.
Proof.
  unfold Str.mem. rewrite existsb_exists. split.
  - intros [y [Hy E]]. apply str_eqb_eq in E. now subst.
  - intros H. exists x. split; [assumption | apply str_eqb_refl].
Qed.

(** ** Dictionaries *)

Section DictFacts.
Variable V : Type.
Implicit Types (d : Dict.t V) (k : str) (v : V).

Lemma dict_get_set k k' v d :
  Dict.get k (Dict.set k' v d) =
  if Str.eqb k k' then Some v else Dict.get k d.
Proof.
  induction d as [|[k0 v0] d IH]; simpl.
  - reflexivity.
  - destruct (Str.eqb k' k0) eqn:E; simpl.
    + apply str_eqb_eq in E. subst k0.
      destruct (Str.eqb k k'); reflexivity.
    + destruct (Str.eqb k k0) eqn:E0.
      * apply str_eqb_eq in E0. subst k0.
        destruct (Str.eqb k k') eqn:E1; [|reflexivity].
        apply str_eqb_eq in E1. subst k'. rewrite str_eqb_refl in E. discriminate.
      * apply IH.
Qed.

Lemma dict_keys_set k v d :
  forall k', In k' (Dict.keys (Dict.set k v d)) -> k' = k \/ In k' (Dict.keys d).
Proof.
  induction d as [|[k0 v0] d IH]; simpl; intros k' H.
  - destruct H as [H|[]]. now left.
  - destruct (Str.eqb k k0) eqn:E; simpl in H.
    + now right.
    + destruct H as [H|H]; [right; now left|].
      destruct (IH _ H) as [H'|H']; [now left | right; now right].
Qed.

Lemma dict_keys_update d e :
  forall k, In k (Dict.keys (Dict.update d e)) ->
            In k (Dict.keys d) \/ In k (Dict.keys e).
Proof.
  unfold Dict.update. revert d.
  induction e as [|[k0 v0] e IH]; simpl; intros d k H.
  - now left.
  - apply IH in H. destruct H as [H|H].
    + apply dict_keys_set in H. destruct H as [->|H]; [right; now left | now left].
    + right. now right.
Qed.

Lemma dict_get_In k d v : Dict.get k d = Some v -> In (k, v) d.
Proof.
  induction d as [|[k0 v0] d IH]; simpl; [discriminate|].
  destruct (Str.eqb k k0) eqn:E.
  - apply str_eqb_eq in E. subst. intros [= ->]. now left.
  - intros H. right. now apply IH.
Qed.
End DictFacts.

(** ** Table parser *)

Section TableFacts.
Import TableParser.

Lemma length_clean_row (width : nat) (row : list str) :
  length row <= width -> length (clean_row width row) = width.
Proof.
  intros H. unfold clean_row.
  rewrite length_app, length_map, repeat_length. lia.
Qed.

Lemma max_cols_bound (tb : table) (row : list str) :
  In row tb -> length row <= max_cols tb.
Proof.
  unfold max_cols. induction tb as [|r tb IH]; simpl; [contradiction|].
  intros [->|H]; [lia|]. specialize (IH H). lia.
Qed.

Lemma normalize_rows (tb : table) :
  Forall (fun row => length row = max_cols tb) (_normalize_table tb).
Proof.
  unfold _normalize_table. destruct tb as [|r tb]; [constructor|].
  apply Forall_forall. intros row H. apply in_map_iff in H as [r0 [<- H]].
  apply length_clean_row. now apply max_cols_bound.
Qed.

Lemma normalize_length (tb : table) :
  length (_normalize_table tb) = length tb.
Proof.
  unfold _normalize_table. destruct tb; [reflexivity|]. apply length_map.
Qed.

(** What [parse] makes of one table that has a row. *)
Lemma parse_table_some (tb : table) :
  tb <> [] ->
  exists p, parse_table tb = Some p /\
    Forall (fun row => length row = max_cols tb) (rows p) /\
    (has_header p = false ->
     headers p = column_names (max_cols tb) /\ rows p = _normalize_table tb).
Proof.
  intros Hne. unfold parse_table.
  destruct tb as [|r tb]; [contradiction|].
  pose proof (normalize_rows (r :: tb)) as Hall.
  pose proof (normalize_length (r :: tb)) as Hlen.
  destruct (_normalize_table (r :: tb)) as [|first rest] eqn:En;
    [discriminate|].
  destruct (_detect_headers (first :: rest)) as [hh detected] eqn:Ed.
  eexists. split; [reflexivity|]. simpl. split.
  - destruct hh; [now inversion Hall | assumption].
  - intros ->. split; [|reflexivity].
    inversion Hall as [|? ? Hfirst _]; subst. now rewrite Hfirst.
Qed.
End TableFacts.

(** C3. For every list of ragged input tables, [parse] yields one
    ParsedTable for each input table that has a row, in order; every row of
    that ParsedTable is as long as the longest row of the input table, and
    when [has_header] is false its headers are exactly "Column 1", ...,
    "Column N" for N that greatest length. *)
Theorem parse_tables_rectangular (raw_tables : list TableParser.table) :
  Forall2
    (fun tb p =>
       Forall (fun row => length row = TableParser.max_cols tb)
              (TableParser.rows p) /\
       (TableParser.has_header p = false ->
        TableParser.headers p =
        map (fun i => s "Column " ++ Str.of_nat (i + 1))
            (seq 0 (TableParser.max_cols tb))))
    (filter has_rows raw_tables) (TableParser.parse raw_tables).
Proof.
  unfold TableParser.parse.
  induction raw_tables as [|tb tbs IH]; simpl; [constructor|].
  destruct tb as [|r tb].
  - simpl. exact IH.
  - destruct (@parse_table_some (r :: tb)) as [p [Hp [Hrows Hhead]]];
      [discriminate|].
    rewrite Hp. simpl. constructor; [|exact IH].
    split; [exact Hrows|]. intros H. now destruct (Hhead H).
Qed.



(** ** Schema detector: validation *)

Lemma expected_fields_keys :
  Dict.keys SchemaDetector.expected_fields = catalogued.
Proof. reflexivity. Qed.

Lemma dict_get_none (V : Type) (k : str) (d : Dict.t V) :
  ~ In k (Dict.keys d) -> Dict.get k d = None.
Proof.
  induction d as [|[k0 v0] d IH]; simpl; intros H; [reflexivity|].
  destruct (Str.eqb k k0) eqn:E.
  - apply str_eqb_eq in E. subst. exfalso. apply H. now left.
  - apply IH. intros H'. apply H. now right.
Qed.

(** C10. For every field map and every schema type outside w2,
    insurance_claim, job_application and loan_application (unknown
    identifiers included), [validate_fields] returns completeness 1.0 and
    no missing field. *)
Theorem validate_fields_uncatalogued (schema_type : str) (fields : fieldmap) :
  ~ In schema_type
      [s "w2"; s "insurance_claim"; s "job_application"; s "loan_application"] ->
  SchemaDetector.validate_fields schema_type fields = (1%Q, []).
Proof.
  intros H. unfold SchemaDetector.validate_fields, SchemaDetector.get_expected_fields.
  rewrite dict_get_none; [reflexivity|].
  now rewrite expected_fields_keys.
Qed.

Lemma validate_fields_uncatalogued_witness :
  ~ In (s "w4") catalogued /\
  SchemaDetector.validate_fields "w4" [(s "Wages", VInt 50000)] = (1%Q, []).
Proof.
  assert (H : ~ In (s "w4") catalogued).
  { intros H. repeat (destruct H as [H|H]; [discriminate H|]). exact H. }
  split; [exact H|].
  exact (@validate_fields_uncatalogued "w4" [(s "Wages", VInt 50000)] H).
Defined.

(** ** QA engine: the answer without context *)

Section NoContext.
Import QAEngine.
Variable py_str : value -> str.
Variable top_k : nat.
Variable use_embeddings : bool.
Variable embedder : option (str -> list str -> list str).

Lemma join_nil (sep : str) : Str.join sep [] = [].
Proof. reflexivity. Qed.

(** Nothing is retrieved from a document without text and fields,
    whatever the embedding provider. *)
Lemma retrieve_context_empty (question : str) (document : FormDocument) :
  raw_text document = [] -> fields document = [] ->
  _retrieve_context py_str top_k use_embeddings embedder question document
  = ([], []).
Proof.
  intros Ht Hf. unfold _retrieve_context, _semantic_search.
  rewrite Ht, Hf. simpl.
  destruct use_embeddings, embedder; simpl; now rewrite firstn_nil.
Qed.

Lemma answer_without_context (question : str) (document : FormDocument) :
  fst (_retrieve_context py_str top_k use_embeddings embedder question document) = [] ->
  answer_text (answer py_str top_k use_embeddings embedder question document)
  = no_information /\
  confidence (answer py_str top_k use_embeddings embedder question document)
  = 0%Q.
Proof.
  unfold answer.
  destruct (_retrieve_context py_str top_k use_embeddings embedder question document)
    as [context source_fields].
  simpl. intros ->. simpl. split; reflexivity.
Qed.
End NoContext.

(** C8. For every question and document, when the retrieved context is
    empty (in particular when the document has empty raw text and no
    fields), [answer] returns the fixed "no relevant information" text with
    confidence 0.0; the question is not looked at: [_generate_answer] gives
    this result on an empty context for every question and document. *)
Theorem no_context_answer
        (py_str : value -> str) (top_k : nat) (use_embeddings : bool)
        (embedder : option (str -> list str -> list str))
        (question : str) (document : QAEngine.FormDocument) :
  fst (QAEngine._retrieve_context py_str top_k use_embeddings embedder
         question document) = [] \/
  (QAEngine.raw_text document = [] /\ QAEngine.fields document = []) ->
  QAEngine.answer_text
    (QAEngine.answer py_str top_k use_embeddings embedder question document)
  = s "I couldn't find relevant information to answer this question." /\
  QAEngine.confidence
    (QAEngine.answer py_str top_k use_embeddings embedder question document)
  = 0%Q /\
  forall question' document',
    QAEngine._generate_answer py_str question' [] document'
    = (QAEngine.no_information, 0%Q).
Proof.
  intros H.
  assert (E : fst (QAEngine._retrieve_context py_str top_k use_embeddings
                     embedder question document) = []).
  { destruct H as [H|[Ht Hf]]; [exact H|].
    now rewrite retrieve_context_empty. }
  destruct (answer_without_context py_str top_k use_embeddings embedder
              question document E) as [Ha Hc].
  repeat split; assumption || reflexivity.
Qed.

Lemma no_context_answer_witness :
  (QAEngine.raw_text empty_doc = [] /\ QAEngine.fields empty_doc = []) /\
  QAEngine.answer_text
    (QAEngine.answer (fun _ => []) 5 true None "What is the answer?" empty_doc)
  = s "I couldn't find relevant information to answer this question." /\
  QAEngine.confidence
    (QAEngine.answer (fun _ => []) 5 true None "What is the answer?" empty_doc)
  = 0%Q /\
  forall question' document',
    QAEngine._generate_answer (fun _ => []) question' [] document'
    = (QAEngine.no_information, 0%Q).
Proof.
  split; [split; reflexivity|].
  apply (@no_context_answer (fun _ => []) 5 true None "What is the answer?"
           empty_doc).
  right. split; reflexivity.
Defined.

(** ** Schema detector: the best match *)

Lemma Qltb_lt (a b : Q) : SchemaDetector.Qltb a b = true <-> (a < b)%Q.
Proof.
  unfold SchemaDetector.Qltb. rewrite negb_true_iff. split.
  - intros H. apply Qnot_le_lt. intros Hle.
    apply Qle_bool_iff in Hle. congruence.
  - intros H. destruct (Qle_bool b a) eqn:E; [|reflexivity].
    apply Qle_bool_iff in E. exfalso. exact (Qlt_not_le _ _ H E).
Qed.

Lemma Qltb_ge (a b : Q) : SchemaDetector.Qltb a b = false <-> (b <= a)%Q.
Proof.
  unfold SchemaDetector.Qltb. rewrite negb_false_iff. apply Qle_bool_iff.
Qed.

Lemma frac_pos (a b : nat) : 0 < a -> (0 < SchemaDetector.frac a b)%Q.
Proof.
  intros H. unfold SchemaDetector.frac, Qlt. simpl. lia.
Qed.

Section DetectFacts.
Import SchemaDetector.
Variable hay : str.

Lemma candidate_score_pos (d : schema_def) :
  well_formed d -> candidate hay d -> (0 < score hay d)%Q.
Proof.
  unfold well_formed, candidate, score. intros Hw Hc.
  apply frac_pos. lia.
Qed.

Lemma consider_inv (l : list schema_def) st (d : schema_def) :
  well_formed d -> loop_inv hay l st -> loop_inv hay (l ++ [d]) (consider hay st d).
Proof.
  intros Hw Hinv. unfold consider.
  destruct (sd_required d <=? length (matched hay d)) eqn:Ec.
  - apply Nat.leb_le in Ec. fold (score hay d).
    destruct Hinv as [[-> Hnone] | [d0 [[p1 [p2 [Hl [Hc0 [Hlt Hle]]]]] ->]]]; simpl.
    + rewrite (proj2 (Qltb_lt 0 (score hay d)));
        [|now apply candidate_score_pos].
      right. exists d. split; [|reflexivity].
      exists l, []. repeat split; try assumption.
      * intros d' Hin Hc'. exfalso. exact (Hnone d' Hin Hc').
      * intros d' [].
    + destruct (Qltb (score hay d0) (score hay d)) eqn:Eq.
      * apply Qltb_lt in Eq. right. exists d. split; [|reflexivity].
        exists l, []. repeat split; try assumption; [|intros d' []].
        intros d' Hin Hc'. subst l.
        apply in_app_or in Hin. destruct Hin as [Hin|[<-|Hin]].
        -- eapply Qlt_trans; [now apply Hlt | exact Eq].
        -- exact Eq.
        -- eapply Qle_lt_trans; [now apply Hle | exact Eq].
      * apply Qltb_ge in Eq. right. exists d0. split; [|reflexivity].
        exists p1, (p2 ++ [d]). subst l. repeat split; try assumption.
        -- now rewrite <- app_assoc.
        -- intros d' Hin Hc'. apply in_app_or in Hin.
           destruct Hin as [Hin|[<-|[]]]; [now apply Hle | exact Eq].
  - apply Nat.leb_gt in Ec.
    destruct Hinv as [[-> Hnone] | [d0 [[p1 [p2 [Hl [Hc0 [Hlt Hle]]]]] ->]]].
    + left. split; [reflexivity|]. intros d' Hin.
      apply in_app_or in Hin. destruct Hin as [Hin|[<-|[]]].
      * now apply Hnone.
      * unfold candidate. lia.
    + right. exists d0. split; [|reflexivity].
      exists p1, (p2 ++ [d]). subst l. repeat split; try assumption.
      * now rewrite <- app_assoc.
      * intros d' Hin Hc'. apply in_app_or in Hin.
        destruct Hin as [Hin|[<-|[]]]; [now apply Hle|].
        unfold candidate in Hc'. lia.
Qed.

Lemma fold_consider_inv (rest l : list schema_def) st :
  Forall well_formed rest -> loop_inv hay l st ->
  loop_inv hay (l ++ rest) (fold_left (consider hay) rest st).
Proof.
  revert l st. induction rest as [|d rest IH]; intros l st Hw Hinv; simpl.
  - now rewrite app_nil_r.
  - inversion Hw as [|? ? Hd Hrest]; subst.
    replace (l ++ d :: rest) with ((l ++ [d]) ++ rest)
      by (rewrite <- app_assoc; reflexivity).
    apply IH; [assumption|]. now apply consider_inv.
Qed.
End DetectFacts.

(** The scores and confidences are rationals in the model and binary64
    floats in the code.  On every count a type of the catalog can have, the
    comparison of two scores and the test of the confidence against 0.5 come
    out the same in binary64. *)
Lemma confidence_floor_binary64 :
  forallb (fun mn =>
             Bool.eqb (confident_binary64 (fst mn) (snd mn))
                      (Qle_bool 0.5 (SchemaDetector.min1
                                       (SchemaDetector.frac (fst mn) (snd mn) * 1.2))))
          catalog_counts = true.
Proof. vm_compute. reflexivity. Qed.

Lemma score_order_binary64 :
  forallb (fun a =>
             forallb (fun b =>
                        Bool.eqb (PrimFloat.ltb (TableParser.ratio (fst a) (snd a))
                                                (TableParser.ratio (fst b) (snd b)))
                                 (SchemaDetector.Qltb
                                    (SchemaDetector.frac (fst a) (snd a))
                                    (SchemaDetector.frac (fst b) (snd b))))
                     catalog_counts)
          catalog_counts = true.
Proof. vm_compute. reflexivity. Qed.

Lemma schemas_well_formed : Forall well_formed SchemaDetector.schemas.
Proof. repeat constructor. Qed.

(** C2, as stated, fails on the empty text: with fields whose rendering
    holds four of the nine indicators of w2, that type is a candidate, no
    candidate scores higher and its confidence is 8/15 >= 0.5, yet [detect]
    reports no type. *)
Lemma detect_empty_text_counterexample :
  let hay := SchemaDetector.search_text str_of_text [] (Some w2_fields) in
  In w2_def SchemaDetector.schemas /\
  candidate hay w2_def /\
  (forall d, In d SchemaDetector.schemas -> candidate hay d ->
             (SchemaDetector.score hay d <= SchemaDetector.score hay w2_def)%Q) /\
  (0.5 <= SchemaDetector.min1 (SchemaDetector.score hay w2_def * 1.2))%Q /\
  SchemaDetector.detect str_of_text [] (Some w2_fields) = None.
Proof.
  intros hay. split; [now left|]. split; [vm_compute; lia|].
  split; [|split; [vm_compute; discriminate | reflexivity]].
  assert (H : forallb (fun d => Qle_bool (SchemaDetector.score hay d)
                                         (SchemaDetector.score hay w2_def))
                      SchemaDetector.schemas = true) by (vm_compute; reflexivity).
  intros d Hin _. rewrite forallb_forall in H.
  apply Qle_bool_iff. now apply H.
Qed.

(** C2, amended. For every text that is not empty and every optional
    field map, with the indicators looked up in the lower-cased text
    followed by the rendering of the fields: a type is a candidate only when
    it has at least its required number of matched indicators; its score is
    its matched count over its indicator count; [detect_with_confidence]
    returns the first candidate in catalog order with the greatest score,
    with confidence min(1, 1.2 * score), and nothing when there is no
    candidate; [detect] reports that type unless its confidence is below
    0.5.  On the empty text [detect] reports no type. *)
Theorem detect_first_best
        (py_str : value -> str) (text : str) (fields : option fieldmap) :
  let hay := SchemaDetector.search_text py_str text fields in
  (text = [] -> SchemaDetector.detect py_str text fields = None) /\
  (text <> [] ->
   match SchemaDetector.detect_with_confidence py_str text fields with
   | None =>
     (forall d, In d SchemaDetector.schemas ->
                ~ SchemaDetector.sd_required d
                  <= length (SchemaDetector.matched hay d)) /\
     SchemaDetector.detect py_str text fields = None
   | Some m =>
     (exists p1 d p2,
        SchemaDetector.schemas = p1 ++ d :: p2 /\
        SchemaDetector.sd_required d <= length (SchemaDetector.matched hay d) /\
        (forall d', In d' p1 -> candidate hay d' ->
           (SchemaDetector.score hay d' < SchemaDetector.score hay d)%Q) /\
        (forall d', In d' p2 -> candidate hay d' ->
           (SchemaDetector.score hay d' <= SchemaDetector.score hay d)%Q) /\
        SchemaDetector.score hay d =
          (Z.of_nat (length (SchemaDetector.matched hay d))
           # Pos.of_nat (length (SchemaDetector.sd_indicators d))) /\
        m = SchemaDetector.mkSchemaMatch
              (SchemaDetector.sd_type d)
              (SchemaDetector.min1 (SchemaDetector.score hay d * 1.2)%Q)
              (SchemaDetector.matched hay d) (SchemaDetector.sd_category d)) /\
     SchemaDetector.detect py_str text fields =
       if SchemaDetector.Qltb (SchemaDetector.confidence m) 0.5
       then None else Some (SchemaDetector.schema_type m)
   end).
Proof.
  intros hay. split.
  - intros ->. reflexivity.
  - intros Hne.
    pose proof (@fold_consider_inv hay SchemaDetector.schemas [] (None, 0%Q)
                  schemas_well_formed) as Hinv.
    simpl app in Hinv.
    assert (H0 : loop_inv hay [] (None, 0%Q)).
    { left. split; [reflexivity | intros d []]. }
    specialize (Hinv H0). clear H0.
    unfold SchemaDetector.detect, SchemaDetector.detect_with_confidence,
      SchemaDetector.detect_in.
    destruct text as [|c text']; [contradiction|].
    fold hay.
    destruct Hinv as [[-> Hnone] | [d [[p1 [p2 [Hl [Hc [Hlt Hle]]]]] ->]]]; simpl fst.
    + split; [exact Hnone | reflexivity].
    + split.
      * exists p1, d, p2. repeat split; assumption.
      * unfold SchemaDetector.Qltb. simpl SchemaDetector.confidence.
        destruct (Qle_bool 0.5 _); reflexivity.
Qed.

Lemma detect_first_best_witness :
  w2_text <> [] /\
  exists m,
    SchemaDetector.detect_with_confidence str_of_text w2_text None = Some m /\
    SchemaDetector.schema_type m = s "w2" /\
    SchemaDetector.detect str_of_text w2_text None =
      if SchemaDetector.Qltb (SchemaDetector.confidence m) 0.5
      then None else Some (SchemaDetector.schema_type m).
Proof.
  assert (Hne : w2_text <> []) by discriminate.
  split; [exact Hne|].
  pose proof (proj2 (detect_first_best str_of_text w2_text None) Hne) as H.
  destruct (SchemaDetector.detect_with_confidence str_of_text w2_text None)
    as [m|] eqn:E; [|vm_compute in E; discriminate E].
  exists m. split; [reflexivity|]. split; [|exact (proj2 H)].
  vm_compute in E. injection E as <-. reflexivity.
Defined.

(** ** Cross-form analysis: the field summary *)

Section DictUnique.
Variable V : Type.
Implicit Types (d : Dict.t V) (k : str) (v : V).

Lemma dict_set_nodup k v d :
  NoDup (Dict.keys d) -> NoDup (Dict.keys (Dict.set k v d)).
Proof.
  induction d as [|[k0 v0] d IH]; simpl; intros H.
  - repeat constructor. intros [].
  - inversion H as [|? ? Hk0 Hd]; subst.
    destruct (Str.eqb k k0) eqn:E; simpl.
    + now constructor.
    + constructor; [|now apply IH].
      intros Hin. apply dict_keys_set in Hin. destruct Hin as [->|Hin].
      * rewrite str_eqb_refl in E. discriminate.
      * contradiction.
Qed.

Lemma dict_nodup_get k v d :
  NoDup (Dict.keys d) -> In (k, v) d -> Dict.get k d = Some v.
Proof.
  induction d as [|[k0 v0] d IH]; simpl; intros H Hin; [contradiction|].
  inversion H as [|? ? Hk0 Hd]; subst.
  destruct Hin as [[= -> ->]|Hin].
  - now rewrite str_eqb_refl.
  - destruct (Str.eqb k k0) eqn:E; [|now apply IH].
    apply str_eqb_eq in E. subst k0. exfalso. apply Hk0.
    change k with (fst (k, v)). now apply in_map.
Qed.
End DictUnique.




Section SummaryFacts.
Import QAEngine.
Variable f : str.

Lemma merge_cons o x l : merge (merge o [x]) l = merge o (x :: l).
Proof.
  destruct l as [|y l]; simpl; [reflexivity|].
  now rewrite <- app_assoc.
Qed.

Lemma merge_app o l1 l2 : merge (merge o l1) l2 = merge o (l1 ++ l2).
Proof.
  destruct l1 as [|x l1]; [reflexivity|].
  destruct l2 as [|y l2]; simpl; [now rewrite app_nil_r|].
  now rewrite <- app_assoc.
Qed.

Lemma get_add_fields (source : str) (kvs : fieldmap) (acc : Dict.t (list sourced)) :
  Dict.get f (fold_left (add_field source) kvs acc) =
  merge (Dict.get f acc)
        (flat_map (fun kv => if Str.eqb f (fst kv) then [(snd kv, source)] else [])
                  kvs).
Proof.
  revert acc. induction kvs as [|[k v] kvs IH]; intros acc; simpl; [reflexivity|].
  rewrite IH. unfold add_field. simpl. rewrite dict_get_set.
  destruct (Str.eqb f k) eqn:E.
  - apply str_eqb_eq in E. subst k. simpl app.
    rewrite <- merge_cons. f_equal.
  - reflexivity.
Qed.

Lemma get_collect_from (documents : list FormDocument) (acc : Dict.t (list sourced)) :
  Dict.get f
    (fold_left (fun acc doc => fold_left (add_field (file_path doc)) (fields doc) acc)
               documents acc) =
  merge (Dict.get f acc) (occurrences f documents).
Proof.
  revert acc. induction documents as [|doc docs IH]; intros acc; simpl;
    [reflexivity|].
  rewrite IH, get_add_fields. apply merge_app.
Qed.

Lemma get_collect (documents : list FormDocument) :
  Dict.get f (collect documents) = merge None (occurrences f documents).
Proof. unfold collect. now rewrite get_collect_from. Qed.

Lemma add_fields_nodup (source : str) (kvs : fieldmap) (acc : Dict.t (list sourced)) :
  NoDup (Dict.keys acc) ->
  NoDup (Dict.keys (fold_left (add_field source) kvs acc)).
Proof.
  revert acc. induction kvs as [|kv kvs IH]; intros acc H; simpl; [assumption|].
  apply IH. unfold add_field. now apply dict_set_nodup.
Qed.

Lemma collect_nodup (documents : list FormDocument) :
  NoDup (Dict.keys (collect documents)).
Proof.
  unfold collect.
  assert (H : NoDup (Dict.keys (@nil (str * list sourced)))) by constructor.
  revert H. generalize (@nil (str * list sourced)).
  induction documents as [|doc docs IH]; intros acc H; simpl; [assumption|].
  apply IH. now apply add_fields_nodup.
Qed.









End SummaryFacts.

(** *** When the analysis returns *)















(** An [int] of 309 digits, which [parse] reads from a text, has no
    [float]: the average of the field raises OverflowError. *)
Example analysis_overflow :
  let text := s "Big: " ++ repeat "9"%char 309 in
  Dict.get "Big" (FieldParser.parse text) = Some (VInt (10 ^ 309 - 1)) /\
  QAEngine.cross_form_analysis str_of_text 5 false None "What is big?"
    [QAEngine.mkDoc "big.txt" text (FieldParser.parse text) [] None] = None.
Proof. split; vm_compute; reflexivity. Qed.

(** The statistics of the salaries 2^1024 - 2^970 and 0 are computed (the
    average is half the first), and the insight on the salary, which
    formats the greatest of them, raises OverflowError. *)
Example insight_overflow :
  let documents :=
    [QAEngine.mkDoc "a.txt" "" [(s "Salary", VInt FloatOps.float_limit)] [] None;
     QAEngine.mkDoc "b.txt" "" [(s "Salary", VInt 0)] [] None] in
  (exists summary,
      QAEngine.field_summary (QAEngine.collect documents) = Some summary /\
      QAEngine.insights_overflow summary = true) /\
  QAEngine.cross_form_analysis str_of_text 5 false None "What is the salary?"
    documents = None.
Proof.
  split; [|vm_compute; reflexivity].
  eexists. split; [vm_compute; reflexivity|]. vm_compute. reflexivity.
Qed.

(** ** Lists *)

Lemma flat_map_if (A B : Type) (p : A -> bool) (g : A -> B) (l : list A) :
  flat_map (fun a => if p a then [g a] else []) l = map g (filter p l).
Proof.
  induction l as [|a l IH]; simpl; [reflexivity|].
  destruct (p a); simpl; now rewrite IH.
Qed.

Lemma Forall2_map_r (A B : Type) (R : A -> B -> Prop) (g : A -> B) (l : list A) :
  (forall a, R a (g a)) -> Forall2 R l (map g l).
Proof.
  intros H. induction l as [|a l IH]; simpl; constructor; auto.
Qed.

(** ** Context retriever: the text strategy *)

Lemma pos_of_nat_Z (b : nat) : 1 <= b -> Z.pos (Pos.of_nat b) = Z.of_nat b.
Proof. intros H. lia. Qed.

Lemma frac_over_fifth (a b : nat) :
  1 <= b ->
  SchemaDetector.Qltb 0.2 (SchemaDetector.frac a b) = (b <? 5 * a).
Proof.
  intros Hb. destruct (b <? 5 * a) eqn:E.
  - apply Nat.ltb_lt in E. apply Qltb_lt.
    unfold SchemaDetector.frac, Qlt. simpl Qnum. simpl Qden.
    rewrite pos_of_nat_Z by assumption. lia.
  - apply Nat.ltb_ge in E. apply Qltb_ge.
    unfold SchemaDetector.frac, Qle. simpl Qnum. simpl Qden.
    rewrite pos_of_nat_Z by assumption. lia.
Qed.

Lemma weighted_below_one (a b : nat) :
  1 <= b -> a <= b ->
  SchemaDetector.min1 (SchemaDetector.frac a b * 0.8) =
  (SchemaDetector.frac a b * 0.8)%Q.
Proof.
  intros Hb Hab. unfold SchemaDetector.min1.
  destruct (Qle_bool 1 (SchemaDetector.frac a b * 0.8)) eqn:E; [|reflexivity].
  apply Qle_bool_iff in E. exfalso. revert E.
  unfold SchemaDetector.frac, Qle, Qmult. simpl Qnum. simpl Qden.
  rewrite Pos2Z.inj_mul, pos_of_nat_Z by assumption. lia.
Qed.

Lemma overlap_le (a b : list str) : Retriever.overlap a b <= length a.
Proof. unfold Retriever.overlap. apply filter_length_le. Qed.

Lemma split_chunks_nil : Retriever._split_into_chunks [] 300 = [].
Proof. vm_compute. reflexivity. Qed.

(** C6, as stated, fails: a chunk that shares two of the nine terms of the
    query is retained, and its score, 0.8 * 2/9, does not exceed 0.2. *)
Lemma text_threshold_counterexample :
  length (Retriever.terms (Str.lower wage_query)) = 9 /\
  Retriever.overlap (Retriever.terms (Str.lower wage_query))
                    (Retriever.terms (Str.lower wage_text)) = 2 /\
  Retriever._retrieve_from_text wage_query wage_text =
    [Retriever.mkResult wage_text (16 # 90) "document text" Retriever.KText] /\
  ~ (0.2 < 16 # 90)%Q.
Proof.
  repeat split; try (vm_compute; reflexivity).
  intros H. vm_compute in H. discriminate.
Qed.

(** C6, amended. In the text strategy each chunk of the raw text has as
    its ratio the number of query terms it shares over the number of query
    terms (at least 1); the chunks retained in the result pool are those
    whose ratio, before it is weighted, exceeds 0.2 (five times the shared
    terms exceed the number of query terms), in the order of the chunks, and
    the score of a retained chunk is 0.8 times its ratio. *)
Theorem text_strategy_threshold (query x : str) :
  let query_terms := Retriever.terms (Str.lower query) in
  let n := Nat.max 1 (length query_terms) in
  let shared chunk :=
    Retriever.overlap query_terms (Retriever.terms (Str.lower chunk)) in
  Forall2
    (fun chunk r =>
       Retriever.text r = chunk /\
       Retriever.score r = ((Z.of_nat (shared chunk) # Pos.of_nat n) * 0.8)%Q /\
       (Retriever.score r <= 0.8)%Q /\
       Retriever.source r = s "document text" /\
       Retriever.chunk_type r = Retriever.KText)
    (filter (fun chunk => n <? 5 * shared chunk)
            (Retriever._split_into_chunks x 300))
    (Retriever._retrieve_from_text query x).
Proof.
  intros query_terms n shared.
  assert (Hn : 1 <= n) by (unfold n; lia).
  assert (Hs : forall chunk, shared chunk <= n).
  { intros chunk. unfold shared, n.
    pose proof (overlap_le query_terms (Retriever.terms (Str.lower chunk))). lia. }
  unfold Retriever._retrieve_from_text.
  destruct x as [|c x']; [rewrite split_chunks_nil; constructor|].
  fold query_terms.
  rewrite flat_map_if.
  rewrite (filter_ext
             (fun chunk => SchemaDetector.Qltb 0.2 (Retriever.base_score query_terms chunk))
             (fun chunk => n <? 5 * shared chunk))
    by (intros chunk; now apply frac_over_fifth).
  apply Forall2_map_r. intros chunk.
  cbn [Retriever.text Retriever.score Retriever.source Retriever.chunk_type].
  unfold Retriever.base_score. fold n. fold (shared chunk).
  rewrite weighted_below_one by (try assumption; apply Hs).
  repeat split.
  unfold SchemaDetector.frac, Qle, Qmult. simpl Qnum. simpl Qden.
  rewrite Pos2Z.inj_mul, pos_of_nat_Z by assumption.
  specialize (Hs chunk). lia.
Qed.

(** ** The matcher *)

Lemma run_sound (r : regex) :
  forall (A : Type) (k : Re.pos -> option A) (p : Re.pos) (res : A),
    Re.run r p k = Some res ->
    exists q, reach r p q /\ k q = Some res.
Proof.
  induction r as [|f|r1 IH1 r2 IH2|r1 IH1 r2 IH2|g r1 IH1|i r1 IH1| |m| |f];
    intros A k p res H; simpl in H.
  - exists p. split; [constructor | assumption].
  - destruct (Re.ahead p) as [|c t] eqn:Ea; [discriminate|].
    destruct (f c) eqn:Ef; [|discriminate].
    exists (Re.step c p). split; [econstructor; eassumption | assumption].
  - apply IH1 in H as [q [Hq H]]. apply IH2 in H as [u [Hu H]].
    exists u. split; [econstructor; eassumption | assumption].
  - destruct (Re.run r1 p k) as [x|] eqn:E1.
    + injection H as ->. apply IH1 in E1 as [q [Hq E1]].
      exists q. split; [now apply reach_alt_l | assumption].
    + apply IH2 in H as [q [Hq H]].
      exists q. split; [now apply reach_alt_r | assumption].
  - revert H. generalize (length (Re.ahead p)). intros n. revert p.
    induction n as [|n IHn]; intros p H.
    + exists p. split; [constructor | assumption].
    + destruct g.
      * match type of H with
        | match ?x with _ => _ end = _ => destruct x as [y|] eqn:E1
        end.
        -- injection H as ->. apply IH1 in E1 as [q [Hq E1]].
           destruct (length (Re.ahead q) <? length (Re.ahead p)); [|discriminate].
           apply IHn in E1 as [u [Hu E1]].
           exists u. split; [econstructor; eassumption | assumption].
        -- exists p. split; [constructor | assumption].
      * destruct (k p) as [y|] eqn:Ek.
        -- injection H as ->. exists p. split; [constructor | assumption].
        -- apply IH1 in H as [q [Hq H]].
           destruct (length (Re.ahead q) <? length (Re.ahead p)); [|discriminate].
           apply IHn in H as [u [Hu H]].
           exists u. split; [econstructor; eassumption | assumption].
  - apply IH1 in H as [q [Hq H]].
    exists (Re.capture i (Re.between p q) q).
    split; [now constructor | assumption].
  - exists p. split; [constructor|].
    destruct (Re.before p) as [|c t]; [assumption|].
    destruct (Ascii.eqb c "010"); [assumption | discriminate].
  - exists p. split; [constructor|].
    destruct (Re.ahead p) as [|c t]; [assumption|].
    destruct (_ && _); [assumption | discriminate].
  - exists p. split; [constructor|].
    destruct (xorb _ _); [assumption | discriminate].
  - exists p. split; [constructor|].
    destruct (Re.before p) as [|c t]; [discriminate|].
    destruct (f c); [assumption | discriminate].
Qed.

(** The text a pattern passes over. *)
Lemma reach_ahead (r : regex) (p q : Re.pos) :
  reach r p q -> exists w, Re.ahead p = w ++ Re.ahead q.
Proof.
  induction 1 as [p|f p c t Ha Hf|r1 r2 p q u _ [w1 H1] _ [w2 H2]
                  |r1 r2 p q _ IH|r1 r2 p q _ IH|g r p
                  |g r p q u _ [w1 H1] _ [w2 H2]|i r p q _ [w H]|p|m p|p|f p];
    try (exists []; reflexivity); try assumption.
  - exists [c]. simpl. now rewrite Ha.
  - exists (w1 ++ w2). now rewrite H1, H2, app_assoc.
  - exists (w1 ++ w2). now rewrite H1, H2, app_assoc.
  - exists w. exact H.
Qed.

Lemma between_app (p q : Re.pos) (w : str) :
  Re.ahead p = w ++ Re.ahead q -> Re.between p q = w.
Proof.
  intros H. unfold Re.between. rewrite H, length_app.
  replace (length w + length (Re.ahead q) - length (Re.ahead q)) with (length w)
    by lia.
  rewrite firstn_app, Nat.sub_diag, firstn_all. simpl. apply app_nil_r.
Qed.

Lemma reach_groupless (r : regex) (p q : Re.pos) :
  reach r p q -> groupless r = true -> Re.groups q = Re.groups p.
Proof.
  induction 1; simpl; intros Hg; try reflexivity;
    try (apply andb_true_iff in Hg as [Hg1 Hg2]);
    try discriminate; auto.
  - rewrite IHreach2, IHreach1; auto.
  - rewrite IHreach2, IHreach1; auto.
Qed.

(** The leftmost match: where it starts, the pattern matches. *)
Lemma search_from_sound (n : nat) (r : regex) :
  forall p a b,
    Re.search_from n r p = Some (a, b) ->
    Re.match_at r a = Some b /\ Re.groups a = Re.groups p.
Proof.
  induction n as [|n IH]; intros p a b H; simpl in H.
  - destruct (Re.match_at r p) as [q|] eqn:E; [|discriminate].
    injection H as <- <-. now split.
  - destruct (Re.match_at r p) as [q|] eqn:E.
    + injection H as <- <-. now split.
    + destruct (Re.ahead p) as [|c t] eqn:Ea; [discriminate|].
      apply IH in H as [H1 H2]. split; [assumption|].
      rewrite H2. unfold Re.advance. now rewrite Ea.
Qed.

(** ** The matcher: the bounds of its loops

    The loops of the matcher are bounded by the length of the text ahead.
    The bound is never what stops them: with any greater bound they return
    the same, and a repetition satisfies the equation of an unbounded
    one. *)

Lemma run_star (A : Type) (g : bool) (r : regex) (p : Re.pos)
      (k : Re.pos -> option A) :
  Re.run (Star g r) p k =
  star_loop (fun p k' => Re.run r p k') g k (length (Re.ahead p)) p.
Proof. destruct g; reflexivity. Qed.

Lemma star_loop_ext (A : Type) (b1 b2 : Re.pos -> (Re.pos -> option A) -> option A)
      (g : bool) (k1 k2 : Re.pos -> option A) :
  (forall p c1 c2, (forall q, c1 q = c2 q) -> b1 p c1 = b2 p c2) ->
  (forall q, k1 q = k2 q) ->
  forall n p, star_loop b1 g k1 n p = star_loop b2 g k2 n p.
Proof.
  intros Hb Hk n. induction n as [|n IH]; intros p; simpl; [apply Hk|].
  rewrite (Hb p _ (fun q => if length (Re.ahead q) <? length (Re.ahead p)
                            then star_loop b2 g k2 n q else None)).
  - now rewrite Hk.
  - intros q. destruct (_ <? _); [apply IH | reflexivity].
Qed.

Lemma run_ext (r : regex) :
  forall (A : Type) (k1 k2 : Re.pos -> option A) (p : Re.pos),
    (forall q, k1 q = k2 q) -> Re.run r p k1 = Re.run r p k2.
Proof.
  induction r as [|f|r1 IH1 r2 IH2|r1 IH1 r2 IH2|g r1 IH1|i r1 IH1| |m| |f];
    intros A k1 k2 p H; try (simpl; now rewrite H).
  - simpl. destruct (Re.ahead p) as [|c t]; [reflexivity|].
    destruct (f c); [apply H | reflexivity].
  - simpl. apply IH1. intros q. now apply IH2.
  - simpl. now rewrite (IH1 _ k1 k2 p H), (IH2 _ k1 k2 p H).
  - rewrite !run_star. apply star_loop_ext; [|assumption].
    intros p' c1 c2 Hc. now apply IH1.
  - simpl. apply IH1. intros q. apply H.
Qed.

Lemma run_none (r : regex) :
  forall (A : Type) (k : Re.pos -> option A) (p : Re.pos),
    (forall q, k q = None) -> Re.run r p k = None.
Proof.
  induction r as [|f|r1 IH1 r2 IH2|r1 IH1 r2 IH2|g r1 IH1|i r1 IH1| |m| |f];
    intros A k p H; try (simpl; now rewrite H).
  - simpl. destruct (Re.ahead p) as [|c t]; [reflexivity|].
    destruct (f c); [apply H | reflexivity].
  - simpl. apply IH1. intros q. now apply IH2.
  - simpl. now rewrite (IH1 _ k p H), (IH2 _ k p H).
  - rewrite run_star. generalize (length (Re.ahead p)). intros n. revert p.
    induction n as [|n IHn]; intros p; simpl; [apply H|].
    rewrite IH1, H; [now destruct g|].
    intros q. destruct (_ <? _); [apply IHn | reflexivity].
  - simpl. apply IH1. intros q. apply H.
  - simpl. destruct (Re.before p) as [|c t]; [apply H|].
    destruct (Ascii.eqb c "010"); [apply H | reflexivity].
  - simpl. destruct (Re.ahead p) as [|c t]; [apply H|].
    destruct (_ && _); [apply H | reflexivity].
  - simpl. destruct (xorb _ _); [apply H | reflexivity].
  - simpl. destruct (Re.before p) as [|c t]; [reflexivity|].
    destruct (f c); [apply H | reflexivity].
Qed.

Section StarBound.
Variable A : Type.
Variable r : regex.
Variable g : bool.
Variable k : Re.pos -> option A.

Let loop := star_loop (fun p k' => Re.run r p k') g k.

(** One turn of the loop, given the result of the body. *)
Let turn (p : Re.pos) (again : option A) : option A :=
  if g
  then match again with Some v => Some v | None => k p end
  else match k p with Some v => Some v | None => again end.

Let rest (p : Re.pos) (n : nat) (q : Re.pos) : option A :=
  if length (Re.ahead q) <? length (Re.ahead p) then loop n q else None.

Lemma loop_step (n : nat) (p : Re.pos) :
  loop (S n) p = turn p (Re.run r p (rest p n)).
Proof. reflexivity. Qed.

Lemma turn_none (p : Re.pos) : turn p None = k p.
Proof. unfold turn. now destruct g, (k p). Qed.

(** More turns than characters ahead change nothing. *)
Lemma star_loop_bound (n : nat) :
  forall p, length (Re.ahead p) <= n -> loop n p = loop (length (Re.ahead p)) p.
Proof.
  induction n as [n IH] using lt_wf_ind. intros p Hle.
  destruct (Nat.eq_dec (length (Re.ahead p)) n) as [->|Hne]; [reflexivity|].
  destruct n as [|n]; [lia|].
  rewrite loop_step.
  destruct (length (Re.ahead p)) as [|j] eqn:El.
  - rewrite run_none; [apply turn_none|].
    intros q. unfold rest. now rewrite El.
  - rewrite loop_step. f_equal. apply run_ext. intros q. unfold rest.
    destruct (_ <? _) eqn:E; [|reflexivity].
    apply Nat.ltb_lt in E. rewrite El in E.
    rewrite (IH n) by lia.
    destruct (Nat.eq_dec (length (Re.ahead q)) j) as [<-|Hj]; [reflexivity|].
    symmetry. apply IH; lia.
Qed.

(** A repetition matches as the unbounded one does: one more turn of the
    body that reads something, then the repetition again; or nothing. *)
Lemma run_star_unfold (p : Re.pos) :
  Re.run (Star g r) p k =
  let again :=
    Re.run r p (fun q => if length (Re.ahead q) <? length (Re.ahead p)
                         then Re.run (Star g r) q k else None) in
  if g
  then match again with Some v => Some v | None => k p end
  else match k p with Some v => Some v | None => again end.
Proof.
  rewrite run_star. fold loop. cbv zeta.
  rewrite (run_ext r A
             (fun q => if length (Re.ahead q) <? length (Re.ahead p)
                       then Re.run (Star g r) q k else None)
             (rest p (length (Re.ahead p) - 1))).
  - destruct (length (Re.ahead p)) as [|n] eqn:El.
    + rewrite run_none by (intros q; unfold rest; now rewrite El).
      change (loop 0 p) with (k p). now destruct g, (k p).
    + rewrite loop_step. unfold turn.
      replace (S n - 1) with n by lia. reflexivity.
  - intros q. unfold rest. destruct (_ <? _) eqn:E; [|reflexivity].
    apply Nat.ltb_lt in E. rewrite run_star. fold loop.
    symmetry. apply star_loop_bound. lia.
Qed.
End StarBound.

(** The leftmost search and the scan return the same with any greater
    bound. *)
Lemma search_from_bound (r : regex) (n : nat) :
  forall p, length (Re.ahead p) <= n ->
            Re.search_from n r p = Re.search_from (length (Re.ahead p)) r p.
Proof.
  induction n as [|n IH]; intros p Hle.
  - replace (length (Re.ahead p)) with 0 by lia. reflexivity.
  - destruct (Re.ahead p) as [|c t] eqn:Ea; simpl.
    + rewrite Ea. reflexivity.
    + rewrite Ea. destruct (Re.match_at r p); [reflexivity|].
      assert (Eadv : Re.ahead (Re.advance p) = t).
      { unfold Re.advance. rewrite Ea. simpl. now rewrite Ea. }
      rewrite IH by (rewrite Eadv; simpl in Hle; lia).
      now rewrite Eadv.
Qed.

Lemma reach_offset (r : regex) (p q : Re.pos) :
  reach r p q ->
  Re.offset q + length (Re.ahead q) = Re.offset p + length (Re.ahead p).
Proof.
  unfold Re.offset.
  induction 1 as [p|f p c t Ha Hf|r1 r2 p q u _ IH1 _ IH2
                  |r1 r2 p q _ IH|r1 r2 p q _ IH|g r p
                  |g r p q u _ IH1 _ IH2|i r p q _ IH|p|m p|p|f p];
    try reflexivity; try assumption; try lia.
  simpl. rewrite Ha. simpl. lia.
Qed.

Lemma search_from_ahead (n : nat) (r : regex) :
  forall p a b, Re.search_from n r p = Some (a, b) ->
                length (Re.ahead a) <= length (Re.ahead p).
Proof.
  induction n as [|n IH]; intros p a b H; simpl in H.
  - destruct (Re.match_at r p); [|discriminate]. injection H as <- <-. lia.
  - destruct (Re.match_at r p).
    + injection H as <- <-. lia.
    + destruct (Re.ahead p) as [|c t] eqn:Ea; [discriminate|].
      apply IH in H. unfold Re.advance in H. rewrite Ea in H. simpl in H.
      rewrite Ea in H. simpl in H. simpl. lia.
Qed.

Lemma scan_bound (r : regex) (n : nat) :
  forall p, length (Re.ahead p) < n ->
            Re.scan n r p = Re.scan (S (length (Re.ahead p))) r p.
Proof.
  induction n as [n IH] using lt_wf_ind. intros p Hlt.
  destruct n as [|n]; [lia|]. simpl.
  destruct (Re.search_from _ r p) as [[a b]|] eqn:E; [|reflexivity].
  f_equal. destruct (Re.ahead b) as [|c t] eqn:Eb; [reflexivity|].
  pose proof (search_from_ahead _ _ _ _ _ E) as Ha.
  apply search_from_sound in E as [E _].
  unfold Re.match_at in E. apply run_sound in E as [q [Hr [= ->]]].
  pose proof (reach_offset _ _ _ Hr) as Ho.
  destruct (reach_ahead _ _ _ Hr) as [w Hw].
  apply (f_equal (@length ascii)) in Hw. rewrite length_app in Hw.
  set (next := if Re.offset b <=? Re.offset a then Re.advance b else b).
  assert (Hn : length (Re.ahead (Re.forget next)) < length (Re.ahead p)).
  { unfold next. simpl. destruct (Re.offset b <=? Re.offset a) eqn:Eo.
    - unfold Re.advance. rewrite Eb. simpl. rewrite Eb. simpl.
      rewrite Eb in Ho, Hw. simpl in Ho, Hw. apply Nat.leb_le in Eo. lia.
    - apply Nat.leb_gt in Eo. lia. }
  rewrite (IH n) by lia.
  symmetry. apply IH; lia.
Qed.

(** ** Trimmed strings *)

Lemma lstrip_fixed (c : ascii) (w : str) :
  Str.is_space c = false -> Str.lstrip (c :: w) = c :: w.
Proof. intros H. simpl. now rewrite H. Qed.

Lemma lstrip_head (x : str) :
  Str.lstrip x = [] \/
  exists c w, Str.lstrip x = c :: w /\ Str.is_space c = false.
Proof.
  induction x as [|c x IH]; simpl; [now left|].
  destruct (Str.is_space c) eqn:E; [exact IH|].
  right. now exists c, x.
Qed.

Lemma lstrip_suffix (x : str) : exists pre, x = pre ++ Str.lstrip x.
Proof.
  induction x as [|c x [pre IH]]; simpl; [now exists []|].
  destruct (Str.is_space c).
  - exists (c :: pre). simpl. now f_equal.
  - now exists [].
Qed.

(** A string that is not empty and has no blank at either end is
    trimmed. *)
Lemma trimmed_intro (c d : ascii) (w y : str) :
  Str.is_space c = false -> Str.is_space d = false ->
  rev (c :: w) = d :: y ->
  Str.strip (c :: w) = c :: w.
Proof.
  intros Hc Hd Hr. unfold Str.strip, Str.rstrip.
  rewrite lstrip_fixed by assumption.
  rewrite Hr, lstrip_fixed by assumption.
  rewrite <- Hr. apply rev_involutive.
Qed.

Lemma strip_idempotent (x : str) : Str.strip (Str.strip x) = Str.strip x.
Proof.
  unfold Str.strip at 2 3. unfold Str.rstrip.
  destruct (lstrip_head (rev (Str.lstrip x))) as [E | [d [u [E Hd]]]].
  - rewrite E. reflexivity.
  - rewrite E.
    destruct (lstrip_suffix (rev (Str.lstrip x))) as [pre Hpre].
    rewrite E in Hpre.
    assert (Hz : Str.lstrip x = rev (d :: u) ++ rev pre).
    { rewrite <- rev_app_distr, <- Hpre. symmetry. apply rev_involutive. }
    destruct (rev (d :: u)) as [|c w] eqn:Er.
    { apply (f_equal (@length ascii)) in Er. rewrite length_rev in Er.
      discriminate. }
    assert (Hc : Str.is_space c = false).
    { destruct (lstrip_head x) as [E0 | [c0 [w0 [E0 Hc0]]]].
      - rewrite E0 in Hz. discriminate.
      - rewrite E0 in Hz. simpl in Hz. injection Hz as -> _. assumption. }
    apply (trimmed_intro c d w u); try assumption.
    rewrite <- Er. apply rev_involutive.
Qed.

Lemma lstrip_app_last (u : str) (c : ascii) :
  Str.is_space c = false -> exists u', Str.lstrip (u ++ [c]) = u' ++ [c].
Proof.
  intros Hc. induction u as [|a u [u' IH]]; simpl.
  - rewrite Hc. now exists [].
  - destruct (Str.is_space a); [now exists u' | now exists (a :: u)].
Qed.

(** Stripping keeps a first character that is not blank. *)
Lemma strip_keeps_head (c : ascii) (w : str) :
  Str.is_space c = false -> exists w', Str.strip (c :: w) = c :: w'.
Proof.
  intros Hc. unfold Str.strip, Str.rstrip.
  rewrite lstrip_fixed by assumption. simpl rev.
  destruct (lstrip_app_last (rev w) c Hc) as [u' ->].
  rewrite rev_app_distr. simpl. now exists (rev u').
Qed.

Lemma in_range_spec (lo hi : nat) (c : ascii) :
  Str.in_range lo hi c = true <-> lo <= Str.code c <= hi.
Proof.
  unfold Str.in_range. rewrite andb_true_iff, !Nat.leb_le. reflexivity.
Qed.

Lemma not_space (c : ascii) :
  ~ (9 <= Str.code c <= 13) -> ~ (28 <= Str.code c <= 32) ->
  Str.is_space c = false.
Proof.
  intros H1 H2. unfold Str.is_space. apply orb_false_iff. split.
  - destruct (Str.in_range 9 13 c) eqn:E; [|reflexivity].
    apply in_range_spec in E. contradiction.
  - destruct (Str.in_range 28 32 c) eqn:E; [|reflexivity].
    apply in_range_spec in E. contradiction.
Qed.

Lemma digit_not_space (c : ascii) :
  Str.is_digit c = true -> Str.is_space c = false.
Proof.
  unfold Str.is_digit. rewrite in_range_spec. intros H.
  apply not_space; lia.
Qed.

Lemma alpha_not_space (c : ascii) :
  Str.is_alpha c = true -> Str.is_space c = false.
Proof.
  unfold Str.is_alpha, Str.is_upper, Str.is_lower.
  rewrite orb_true_iff, !in_range_spec. intros H.
  apply not_space; lia.
Qed.

(** The decimal digits of a number. *)
Lemma digits_aux_spec (fuel n : nat) (acc : str) :
  exists c w, Str.digits_aux (S fuel) n acc = w ++ c :: acc /\
              Str.is_digit c = true.
Proof.
  revert n acc. induction fuel as [|fuel IH]; intros n acc.
  - simpl. exists (ascii_of_nat (48 + n mod 10)), [].
    split; [now destruct (n <? 10)|].
    apply in_range_spec. unfold Str.code.
    pose proof (Nat.mod_upper_bound n 10).
    rewrite nat_ascii_embedding by lia. lia.
  - assert (Hd : Str.is_digit (ascii_of_nat (48 + n mod 10)) = true).
    { apply in_range_spec. unfold Str.code.
      pose proof (Nat.mod_upper_bound n 10).
      rewrite nat_ascii_embedding by lia. lia. }
    change (Str.digits_aux (S (S fuel)) n acc)
      with (let acc' := ascii_of_nat (48 + n mod 10) :: acc in
            if n <? 10 then acc' else Str.digits_aux (S fuel) (n / 10) acc').
    cbv zeta. destruct (n <? 10).
    + now exists (ascii_of_nat (48 + n mod 10)), [].
    + destruct (IH (n / 10) (ascii_of_nat (48 + n mod 10) :: acc))
        as [c [w [E Hc]]].
      rewrite E. exists (ascii_of_nat (48 + n mod 10)), (w ++ [c]).
      split; [now rewrite <- app_assoc | assumption].
Qed.

Lemma of_nat_last_digit (n : nat) :
  exists c w, Str.of_nat n = w ++ [c] /\ Str.is_digit c = true.
Proof. unfold Str.of_nat. apply digits_aux_spec. Qed.

(** ** Field parser: the keys of a FieldMap *)

Lemma good_keys_nil : good_keys [].
Proof. intros k []. Qed.

Lemma good_keys_set (k : str) (v : value) (d : fieldmap) :
  good_key k -> good_keys d -> good_keys (Dict.set k v d).
Proof.
  intros Hk Hd k' Hin. apply dict_keys_set in Hin.
  destruct Hin as [->|Hin]; [assumption | now apply Hd].
Qed.

Lemma good_keys_update (d e : fieldmap) :
  good_keys d -> good_keys e -> good_keys (Dict.update d e).
Proof.
  intros Hd He k Hin. apply dict_keys_update in Hin.
  destruct Hin as [Hin|Hin]; [now apply Hd | now apply He].
Qed.

Lemma good_keys_fold (A : Type) (step : fieldmap -> A -> fieldmap) (l : list A) :
  (forall d a, good_keys d -> good_keys (step d a)) ->
  forall d, good_keys d -> good_keys (fold_left step l d).
Proof.
  intros Hstep. induction l as [|a l IH]; intros d Hd; simpl; [assumption|].
  apply IH. now apply Hstep.
Qed.

Lemma generic_names_lower (k : str) :
  In k FieldParser.generic_names ->
  Str.mem (Str.lower k) FieldParser.generic_names = true.
Proof.
  intros H. unfold FieldParser.generic_names in H.
  repeat (destruct H as [<-|H]; [reflexivity|]). contradiction.
Qed.

Lemma generic_names_short (k : str) :
  In k FieldParser.generic_names -> length k <= 3.
Proof.
  intros H. unfold FieldParser.generic_names in H.
  repeat (destruct H as [<-|H]; [simpl; lia|]). contradiction.
Qed.

(** A string between a first and a last character that are not blank,
    longer than the generic names, is a good key. *)
Lemma good_key_intro (c d : ascii) (w y : str) :
  Str.is_space c = false -> Str.is_space d = false ->
  rev (c :: w) = d :: y -> 3 <= length w ->
  good_key (c :: w).
Proof.
  intros Hc Hd Hr Hl. repeat split.
  - discriminate.
  - now apply (trimmed_intro c d w y).
  - intros Hin. apply generic_names_short in Hin. simpl in Hin. lia.
Qed.

(** The name a label pattern stores a value under. *)
Lemma store_good_keys (d : fieldmap) (m : str * str) :
  good_keys d -> good_keys (FieldParser.store d m).
Proof.
  intros Hd. unfold FieldParser.store.
  destruct (500 <? _); [assumption|].
  destruct (Str.mem _ FieldParser.generic_names) eqn:Eg; [assumption|].
  destruct (TableParser.nonempty (FieldParser._normalize_field_name (fst m)))
    eqn:En; simpl; [|assumption].
  destruct (TableParser.nonempty (Str.strip (snd m))); [|assumption].
  apply good_keys_set; [|assumption]. repeat split.
  - intros E. rewrite E in En. discriminate.
  - unfold FieldParser._normalize_field_name. apply strip_idempotent.
  - intros Hin. apply generic_names_lower in Hin. congruence.
Qed.

(** The names of the special fields. *)
Lemma numbered_keys (name : string) (f : str -> str) (found : list str) :
  forall k, In k (Dict.keys (FieldParser.numbered name f found)) ->
            k = s name \/ exists i, k = s name ++ s " " ++ Str.of_nat i.
Proof.
  unfold FieldParser.numbered.
  assert (H : forall l (d : fieldmap) k,
             In k (Dict.keys
                     (fold_left (fun d ix =>
                                   Dict.set (s name ++ s " " ++ Str.of_nat (fst ix))
                                            (VStr (f (snd ix))) d) l d)) ->
             In k (Dict.keys d) \/
             exists i, k = s name ++ s " " ++ Str.of_nat i).
  { induction l as [|ix l IH]; intros d k Hin; simpl in Hin; [now left|].
    apply IH in Hin. destruct Hin as [Hin|Hin]; [|now right].
    apply dict_keys_set in Hin.
    destruct Hin as [->|Hin]; [right; now exists (fst ix) | now left]. }
  intros k Hin.
  destruct found as [|x [|y found]].
  - destruct Hin.
  - destruct Hin as [<-|[]]. now left.
  - apply H in Hin. destruct Hin as [[]|Hin]. now right.
Qed.

Lemma special_name_good (name : string) :
  In name ["Email"; "Phone"; "SSN"]%string ->
  good_key (s name) /\ forall i, good_key (s name ++ s " " ++ Str.of_nat i).
Proof.
  intros H.
  assert (Hn : exists c w, s name = c :: w /\ Str.is_space c = false /\
                           2 <= length w /\ good_key (s name)).
  { destruct H as [<-|[<-|[<-|[]]]];
      (eexists; eexists; split; [reflexivity|];
       split; [reflexivity|]; split; [simpl; lia|];
       split; [discriminate | split; [reflexivity|]];
       intros Hin; unfold FieldParser.generic_names in Hin;
       repeat (destruct Hin as [Hin|Hin]; [discriminate Hin|]);
       exact Hin). }
  destruct Hn as [c [w [E [Hc [Hl Hg]]]]].
  split; [assumption|]. intros i. rewrite E.
  destruct (of_nat_last_digit i) as [d [u [Ei Hd]]]. rewrite Ei.
  apply (good_key_intro c d (w ++ s " " ++ u ++ [d]) (rev (c :: w ++ s " " ++ u))).
  - assumption.
  - now apply digit_not_space.
  - change (c :: w ++ s " " ++ u ++ [d]) with ((c :: w) ++ s " " ++ u ++ [d]).
    replace ((c :: w) ++ s " " ++ u ++ [d])
      with (((c :: w) ++ s " " ++ u) ++ [d])
      by (now rewrite <- !app_assoc).
    rewrite rev_app_distr. reflexivity.
  - rewrite !length_app. unfold s. simpl. lia.
Qed.

Lemma numbered_good_keys (name : string) (f : str -> str) (found : list str) :
  In name ["Email"; "Phone"; "SSN"]%string ->
  good_keys (FieldParser.numbered name f found).
Proof.
  intros Hn k Hin. destruct (special_name_good name Hn) as [H1 H2].
  apply numbered_keys in Hin. destruct Hin as [->|[i ->]]; auto.
Qed.

Ltac inv H := inversion H; subst; clear H.

(** The label in front of a date starts with a letter. *)
Lemma label_starts_with_letter (context : str) (m : Re.mtch) :
  Re.search FieldParser.label_pattern context = Some m ->
  exists c w, Re.group 1 m = c :: w /\ Str.is_alpha c = true.
Proof.
  unfold Re.search.
  destruct (Re.search_from _ _ _) as [[a b]|] eqn:E; [|discriminate].
  intros [= <-]. apply search_from_sound in E as [E _].
  unfold Re.match_at in E. apply run_sound in E as [q [Hr [= ->]]].
  cbv [FieldParser.label_pattern Re.seqs Re.plus Re.opt Re.star
       FieldParser.alpha] in Hr.
  inv Hr.
  match goal with
  | H1 : reach (Grp 1 _) _ _, H2 : reach (Seq (Star _ _) _) _ _ |- _ =>
    rename H1 into Hg; rename H2 into Ht
  end.
  apply reach_groupless in Ht; [|reflexivity].
  inv Hg.
  match goal with H : reach (Seq (Seq _ _) _) _ _ |- _ => inv H end.
  match goal with H : reach (Seq (Chr _) _) _ _ |- _ => inv H end.
  match goal with H : reach (Chr _) _ _ |- _ => inv H end.
  match goal with
  | H1 : reach (Star _ _) (Re.step _ _) _, H2 : reach (Alt _ _) _ _ |- _ =>
    apply reach_ahead in H1 as [w1 H1]; apply reach_ahead in H2 as [w2 H2]
  end.
  match goal with
  | Ha : Re.ahead a = ?c :: ?t,
    Hs : Re.ahead (Re.step ?c a) = w1 ++ Re.ahead ?q,
    Hq : Re.ahead ?q = w2 ++ Re.ahead q0 |- _ =>
    exists c, (w1 ++ w2); split; [|assumption];
    assert (Hall : Re.ahead a = (c :: w1 ++ w2) ++ Re.ahead q0)
      by (rewrite Ha; simpl in Hs; rewrite Ha in Hs; simpl in Hs;
          rewrite Hs, Hq; simpl; now rewrite app_assoc)
  end.
  unfold Re.group, Re.mk. simpl. rewrite Ht. simpl.
  now apply between_app.
Qed.

Lemma date_field_good_key (text : str) (m : Re.mtch) (k : str) (v : value) :
  FieldParser.date_field text m = Some (k, v) -> good_key k.
Proof.
  unfold FieldParser.date_field.
  destruct (Re.search FieldParser.label_pattern _) as [lm|] eqn:E; [|discriminate].
  destruct (Str.mem _ _); [discriminate|].
  intros [= <- _].
  apply label_starts_with_letter in E as [c [w [E Hc]]]. rewrite E.
  apply alpha_not_space in Hc.
  destruct (strip_keeps_head c w Hc) as [w' ->].
  apply (good_key_intro c "e" (w' ++ s " Date")
                        (s "taD " ++ rev (c :: w'))).
  - assumption.
  - reflexivity.
  - change (c :: w' ++ s " Date") with ((c :: w') ++ s " Date").
    rewrite rev_app_distr. reflexivity.
  - rewrite length_app. unfold s. simpl. lia.
Qed.

Lemma set_opt_good_keys (d : fieldmap) (text : str) (m : Re.mtch) :
  good_keys d -> good_keys (FieldParser.set_opt d (FieldParser.date_field text m)).
Proof.
  intros Hd. unfold FieldParser.set_opt.
  destruct (FieldParser.date_field text m) as [[k v]|] eqn:E; [|assumption].
  apply good_keys_set; [|assumption]. now apply (date_field_good_key text m k v).
Qed.

Lemma special_fields_good_keys (text : str) :
  good_keys (FieldParser._extract_special_fields text).
Proof.
  unfold FieldParser._extract_special_fields.
  apply good_keys_fold.
  - intros d pattern Hd. apply good_keys_fold; [|assumption].
    intros d' m Hd'. now apply set_opt_good_keys.
  - repeat apply good_keys_update;
      apply numbered_good_keys; simpl; tauto.
Qed.

Lemma checkboxes_good_keys (text : str) :
  good_keys (FieldParser._extract_checkboxes text).
Proof.
  assert (H1 : good_key (s "Selected Options")).
  { apply (good_key_intro "S" "s" (s "elected Options") (rev (s "Selected Option")));
      try reflexivity. unfold s. simpl. lia. }
  assert (H2 : good_key (s "Unselected Options")).
  { apply (good_key_intro "U" "s" (s "nselected Options") (rev (s "Unselected Option")));
      try reflexivity. unfold s. simpl. lia. }
  unfold FieldParser._extract_checkboxes.
  set (unchecked := flat_map _ _). set (checked := flat_map _ _).
  clearbody unchecked checked.
  assert (Hc : good_keys match checked with
                         | [] => []
                         | _ => [(s "Selected Options", VList checked)]
                         end).
  { destruct checked; [apply good_keys_nil|].
    intros k [<-|[]]. exact H1. }
  destruct unchecked; [assumption|].
  now apply good_keys_set.
Qed.

Lemma parse_good_keys (text : str) : good_keys (FieldParser.parse text).
Proof.
  unfold FieldParser.parse. destruct text as [|c text]; [apply good_keys_nil|].
  repeat apply good_keys_update.
  - apply good_keys_fold; [|apply good_keys_nil].
    intros d pattern Hd. apply good_keys_fold; [|assumption].
    intros d' m Hd'. now apply store_good_keys.
  - apply special_fields_good_keys.
  - apply checkboxes_good_keys.
Qed.

Lemma no_match_at (text : str) (p : regex) :
  no_match text = true -> In p parser_patterns -> Re.finditer p text = [].
Proof.
  unfold no_match. rewrite forallb_forall. intros H Hin.
  specialize (H p Hin). now destruct (Re.finditer p text).
Qed.

Lemma fold_left_id (A B : Type) (step : A -> B -> A) (l : list B) (a : A) :
  (forall b, In b l -> forall x, step x b = x) -> fold_left step l a = a.
Proof.
  revert a. induction l as [|b l IH]; intros a H; simpl; [reflexivity|].
  rewrite H by (now left). apply IH. intros b' Hb'. apply H. now right.
Qed.

Lemma flat_map_nil (A B : Type) (g : A -> list B) (l : list A) :
  (forall a, In a l -> g a = []) -> flat_map g l = [].
Proof.
  induction l as [|a l IH]; intros H; simpl; [reflexivity|].
  rewrite H by (now left). apply IH. intros a' Ha'. apply H. now right.
Qed.

Lemma parse_no_match (text : str) :
  no_match text = true -> FieldParser.parse text = [].
Proof.
  intros H. unfold FieldParser.parse. destruct text as [|c text]; [reflexivity|].
  set (x := c :: text) in *.
  assert (Hp : fold_left (fun d pattern =>
                            fold_left FieldParser.store (Re.findall2 pattern x) d)
                         FieldParser.patterns [] = []).
  { apply fold_left_id. intros p Hin d. unfold Re.findall2.
    rewrite (no_match_at x p H); [reflexivity|].
    unfold parser_patterns. apply in_or_app. now left. }
  assert (Hs : FieldParser._extract_special_fields x = []).
  { unfold FieldParser._extract_special_fields, Re.findall.
    rewrite !(no_match_at x _ H)
      by (unfold parser_patterns; apply in_or_app; right; simpl; tauto).
    apply fold_left_id. intros p Hin d.
    rewrite (no_match_at x p H); [reflexivity|].
    unfold parser_patterns. apply in_or_app. right.
    apply in_or_app. right. apply in_or_app. now left. }
  assert (Hc : FieldParser._extract_checkboxes x = []).
  { unfold FieldParser._extract_checkboxes.
    assert (Hi : forall checked,
               flat_map (fun p => FieldParser.box_items (fst p) x)
                        (filter (fun p => Bool.eqb (snd p) checked)
                                FieldParser.checkbox_patterns) = []).
    { intros checked. apply flat_map_nil. intros p Hin.
      apply filter_In in Hin as [Hin _].
      unfold FieldParser.box_items.
      rewrite (no_match_at x (fst (fst p)) H); [reflexivity|].
      unfold parser_patterns. apply in_or_app. right.
      apply in_or_app. right. apply in_or_app. right.
      change (fst (fst p)) with ((fun p => fst (fst p)) p). now apply in_map. }
    now rewrite !Hi. }
  rewrite Hp, Hs, Hc. reflexivity.
Qed.

(** C5. [parse] is a total function of the text (none of the exceptions
    its conversions can raise escapes), and for every text, empty and
    garbage included, every key of the FieldMap it returns is a non-empty
    trimmed string that is not a member of the generic stoplist; when no
    pattern finds a match the FieldMap is empty. *)
Theorem parse_keys (text : str) :
  (forall k, In k (Dict.keys (FieldParser.parse text)) ->
     k <> [] /\ Str.strip k = k /\
     ~ In k [s "a"; s "b"; s "c"; s "i"; s "ii"; s "iii"; s "the"; s "and"; s "or"]) /\
  (no_match text = true -> FieldParser.parse text = []) /\
  FieldParser.parse [] = [].
Proof.
  split; [|split].
  - intros k Hin. exact (parse_good_keys text k Hin).
  - apply parse_no_match.
  - reflexivity.
Qed.

Lemma parse_keys_witness :
  no_match garbage_text = true /\ FieldParser.parse garbage_text = [].
Proof.
  assert (H : no_match garbage_text = true) by (vm_compute; reflexivity).
  split; [exact H|].
  exact (proj1 (proj2 (parse_keys garbage_text)) H).
Defined.

(** ** Field parser: SSN masking *)

(** C1. The code keeps a raw SSN: on the line "Employee SSN: 123-45-6789"
    the SSN pattern recognizes 123-45-6789 and the special extractor stores
    it masked under "SSN", but the first label pattern has already stored
    the raw digits under "Employee SSN", and nothing masks that value. *)
Theorem parse_keeps_raw_ssn :
  Re.findall FieldParser.ssn_pattern ssn_text = [s "123-45-6789"] /\
  FieldParser.parse ssn_text =
    [(s "Employee SSN", VStr "123-45-6789"); (s "SSN", VStr "XXX-XX-6789")].
Proof. split; vm_compute; reflexivity. Qed.

(** ** The characters a pattern reads *)

Lemma reach_chars (ok : ascii -> bool) (r : regex) (p q : Re.pos) :
  reach r p q -> classes_within ok r ->
  exists w, Re.ahead p = w ++ Re.ahead q /\ forallb ok w = true.
Proof.
  induction 1 as [p|f p c t Ha Hf|r1 r2 p q u _ IH1 _ IH2
                  |r1 r2 p q _ IH|r1 r2 p q _ IH|g r p
                  |g r p q u _ IH1 _ IH2|i r p q _ IH|p|m p|p|f p];
    simpl; intros Hok; try (exists []; split; reflexivity).
  - exists [c]. split; [simpl; now rewrite Ha|]. simpl. now rewrite (Hok c Hf).
  - destruct Hok as [Hok1 Hok2].
    destruct (IH1 Hok1) as [w1 [E1 F1]]. destruct (IH2 Hok2) as [w2 [E2 F2]].
    exists (w1 ++ w2). split; [now rewrite E1, E2, app_assoc|].
    rewrite forallb_app. now rewrite F1, F2.
  - apply IH. tauto.
  - apply IH. tauto.
  - destruct (IH1 Hok) as [w1 [E1 F1]]. destruct (IH2 Hok) as [w2 [E2 F2]].
    exists (w1 ++ w2). split; [now rewrite E1, E2, app_assoc|].
    rewrite forallb_app. now rewrite F1, F2.
  - destruct (IH Hok) as [w [E F]]. exists w. now split.
Qed.

(** Every match of a scan starts where the pattern matches. *)
Lemma scan_sound (n : nat) (r : regex) :
  forall p m, In m (Re.scan n r p) ->
              exists a b, m = Re.mk a b /\ Re.match_at r a = Some b.
Proof.
  induction n as [|n IH]; intros p m Hin; simpl in Hin; [contradiction|].
  destruct (Re.search_from _ r p) as [[a b]|] eqn:E; [|contradiction].
  destruct Hin as [<-|Hin].
  - apply search_from_sound in E as [E _]. now exists a, b.
  - destruct (Re.ahead b); [contradiction|]. now apply IH in Hin.
Qed.

(** The text of every match is made of characters its classes accept. *)
Lemma findall_chars (ok : ascii -> bool) (r : regex) (x tok : str) :
  classes_within ok r -> In tok (Re.findall r x) -> forallb ok tok = true.
Proof.
  intros Hok Hin. unfold Re.findall, Re.finditer in Hin.
  apply in_map_iff in Hin as [m [<- Hin]].
  apply scan_sound in Hin as [a [b [-> E]]].
  unfold Re.match_at in E. apply run_sound in E as [q [Hr [= ->]]].
  destruct (reach_chars ok r a b Hr Hok) as [w [E F]].
  simpl. now rewrite (between_app a b w E).
Qed.

Lemma all_ascii_complete (c : ascii) : In c all_ascii.
Proof.
  unfold all_ascii. rewrite <- (ascii_nat_embedding c).
  apply in_map. apply in_seq. pose proof (nat_ascii_bounded c). lia.
Qed.

Lemma by_enumeration (f g : ascii -> bool) :
  forallb (fun c => implb (f c) (g c)) all_ascii = true ->
  forall c, f c = true -> g c = true.
Proof.
  intros H c Hf. rewrite forallb_forall in H.
  specialize (H c (all_ascii_complete c)). now rewrite Hf in H.
Qed.

Lemma reach_group_ids (r : regex) (p q : Re.pos) :
  reach r p q ->
  exists new, Re.groups q = new ++ Re.groups p /\
              Forall (fun ix => In (fst ix) (group_ids r)) new.
Proof.
  induction 1 as [p|f p c t Ha Hf|r1 r2 p q u _ [n1 [E1 F1]] _ [n2 [E2 F2]]
                  |r1 r2 p q _ [n [E F]]|r1 r2 p q _ [n [E F]]|g r p
                  |g r p q u _ [n1 [E1 F1]] _ [n2 [E2 F2]]
                  |i r p q _ [n [E F]]|p|m p|p|f p];
    simpl; try (exists []; split; [reflexivity | constructor]).
  - exists (n2 ++ n1). split; [now rewrite E2, E1, app_assoc|].
    apply Forall_app. split; eapply Forall_impl; try eassumption;
      intros ix Hix; apply in_or_app; tauto.
  - exists n. split; [assumption|].
    eapply Forall_impl; [|eassumption]. intros ix Hix. apply in_or_app. tauto.
  - exists n. split; [assumption|].
    eapply Forall_impl; [|eassumption]. intros ix Hix. apply in_or_app. tauto.
  - exists (n2 ++ n1). split; [now rewrite E2, E1, app_assoc|].
    apply Forall_app. now split.
  - exists ((i, Re.between p q) :: n). split; [simpl; now rewrite E|].
    constructor; [now left|].
    eapply Forall_impl; [|eassumption]. intros ix Hix. now right.
Qed.

Lemma assoc_none (i : nat) (l : list (nat * str)) :
  Forall (fun ix => fst ix <> i) l -> Re.assoc i l = None.
Proof.
  induction 1 as [|[j x] l Hj _ IH]; simpl; [reflexivity|].
  destruct (Nat.eqb i j) eqn:E; [|assumption].
  apply Nat.eqb_eq in E. simpl in Hj. congruence.
Qed.

Lemma strip_incl (x : str) (c : ascii) : In c (Str.strip x) -> In c x.
Proof.
  assert (H : forall y, In c (Str.lstrip y) -> In c y).
  { intros y Hin. destruct (lstrip_suffix y) as [pre E]. rewrite E.
    apply in_or_app. now right. }
  unfold Str.strip, Str.rstrip. intros Hin.
  apply H. apply in_rev. apply H. now apply in_rev in Hin.
Qed.

(** ** Numbers read from text: plain decimals *)

(** [float] of a string of digits and dots is a finite number, when it is
    one at all. *)
Lemma of_str_decimal_finite (x : str) (f : PyFloat.t) :
  forallb decimal_char x = true -> PyFloat.of_str x = Some f ->
  exists q, f = PyFloat.Fin q.
Proof.
  intros Hx. unfold PyFloat.of_str.
  destruct (Re.run _ _ _) as [q|] eqn:E; [|discriminate].
  apply run_sound in E as [q' [Hr E]].
  destruct (Re.ahead q'); [|discriminate]. injection E as ->.
  assert (Hno : Re.assoc 6 (Re.groups q) = None /\ Re.assoc 7 (Re.groups q) = None).
  { cbv [PyFloat.floatvalue Re.alts] in Hr. inv Hr.
    match goal with
    | H1 : reach (Grp 1 _) _ ?q1, H2 : reach (Alt _ _) ?q1 _ |- _ =>
      pose proof (reach_ahead _ _ _ H1) as [w1 Hw1];
      apply reach_group_ids in H1 as [n1 [E1 F1]];
      rename H2 into Ha
    end.
    simpl in E1, Hw1. rewrite app_nil_r in E1.
    assert (Hin : forall c t, Re.ahead q0 = c :: t -> decimal_char c = true).
    { intros c t Hc. rewrite forallb_forall in Hx. apply Hx.
      apply (strip_incl x c). rewrite Hw1, Hc. apply in_or_app. right. now left. }
    inv Ha.
    - match goal with H : reach (Seq PyFloat.number _) _ _ |- _ =>
        apply reach_group_ids in H as [n2 [E2 F2]] end.
      rewrite E2.
      split; apply assoc_none; apply Forall_app; split;
        (eapply Forall_impl; [|eassumption]); intros ix Hix; simpl in Hix;
        intros Heq; rewrite Heq in Hix;
        repeat (destruct Hix as [Hix|Hix]; [discriminate Hix|]); exact Hix.
    - exfalso.
      match goal with H : reach (Alt _ _) _ _ |- _ => inv H end.
      + match goal with H : reach (Grp 6 _) _ _ |- _ => inv H end.
        match goal with H : reach (Seq (Seq _ _) _) _ _ |- _ => inv H end.
        match goal with H : reach (Seq (Re.ilit_c _) _) q0 _ |- _ => inv H end.
        match goal with H : reach (Re.ilit_c _) q0 _ |- _ =>
          cbv [Re.ilit_c] in H; inv H end.
        assert (Hen : forall c, decimal_char c = true ->
                  negb (Ascii.eqb (Str.lower_char c) (Str.lower_char "i")) = true)
          by (apply by_enumeration; vm_compute; reflexivity).
        match goal with
        | Hc : Re.ahead q0 = ?c :: _,
          Hf : Ascii.eqb (Str.lower_char ?c) _ = true |- _ =>
          pose proof (Hin _ _ Hc) as Hd; apply Hen in Hd;
          rewrite Hf in Hd; discriminate
        end.
      + match goal with H : reach (Grp 7 _) _ _ |- _ => inv H end.
        match goal with H : reach (Seq (Re.ilit_c _) _) q0 _ |- _ => inv H end.
        match goal with H : reach (Re.ilit_c _) q0 _ |- _ =>
          cbv [Re.ilit_c] in H; inv H end.
        assert (Hen : forall c, decimal_char c = true ->
                  negb (Ascii.eqb (Str.lower_char c) (Str.lower_char "n")) = true)
          by (apply by_enumeration; vm_compute; reflexivity).
        match goal with
        | Hc : Re.ahead q0 = ?c :: _,
          Hf : Ascii.eqb (Str.lower_char ?c) _ = true |- _ =>
          pose proof (Hin _ _ Hc) as Hd; apply Hen in Hd;
          rewrite Hf in Hd; discriminate
        end. }
  destruct Hno as [-> ->]. intros [= <-]. eexists. reflexivity.
Qed.

(** ** QA engine: quantity questions *)

Lemma number_pattern_chars : classes_within money_char QAEngine.number_pattern.
Proof.
  cbv [QAEngine.number_pattern Re.seqs Re.opt Re.plus Re.star Re.rep Re.lit
       Re.lit_c Re.digit FieldParser.cls s list_ascii_of_string classes_within].
  repeat split; try (apply by_enumeration; vm_compute; reflexivity).
Qed.

(** A token of the number pattern without its dollar sign and commas is a
    string of digits and dots. *)
Lemma token_decimal (context tok : str) :
  In tok (Re.findall QAEngine.number_pattern context) ->
  forallb decimal_char (Str.remove_char "," (Str.remove_char "$" tok)) = true.
Proof.
  intros Hin. apply (findall_chars money_char) in Hin; [|apply number_pattern_chars].
  apply forallb_forall. intros c Hc.
  unfold Str.remove_char in Hc.
  apply filter_In in Hc as [Hc H1]. apply filter_In in Hc as [Hc H2].
  rewrite forallb_forall in Hin. specialize (Hin c Hc).
  revert Hin H1 H2. revert c Hc. intros c _.
  assert (Hen : forall c,
             money_char c && negb (Ascii.eqb c ",") && negb (Ascii.eqb c "$") = true ->
             decimal_char c = true)
    by (apply by_enumeration; vm_compute; reflexivity).
  intros Hm H1 H2. apply Hen. now rewrite Hm, H1, H2.
Qed.

(** A numeral that is rounded to binary64 is a number. *)
Lemma binary64_number (q : Q) : FloatOps.binary64 (PyFloat.Fin q) <> PyFloat.NaN.
Proof.
  unfold FloatOps.binary64. destruct (Qeq_bool q 0); [discriminate|].
  cbv zeta. destruct (Qle_bool _ _); discriminate.
Qed.

Lemma parsed_numbers_numbers (context : str) :
  Forall (fun y => y <> PyFloat.NaN) (parsed_numbers context).
Proof.
  apply Forall_forall. intros f Hin. unfold parsed_numbers in Hin.
  apply in_flat_map in Hin as [tok [Htok Hin]].
  destruct (PyFloat.of_str _) as [g|] eqn:E; [|contradiction].
  destruct Hin as [<-|[]].
  destruct (of_str_decimal_finite _ _ (token_decimal context tok Htok) E) as [q ->].
  apply binary64_number.
Qed.

(** The order of the numbers: what is below a number that is not above
    [m] is not above [m], and what is not above a number that is not above
    [m] is not above [m]. *)
Lemma ltb_below (m x y : PyFloat.t) :
  m <> PyFloat.NaN -> x <> PyFloat.NaN -> y <> PyFloat.NaN ->
  FloatOps.ltb x y = true -> FloatOps.ltb m y = false -> FloatOps.ltb m x = false.
Proof.
  intros Hm Hx Hy.
  destruct m as [qm|[]|], x as [qx|[]|], y as [qy|[]|]; simpl;
    try congruence.
  rewrite Qltb_lt, !Qltb_ge. intros H1 H2.
  apply Qlt_le_weak. eapply Qlt_le_trans; eassumption.
Qed.

Lemma ltb_not_above (m x y : PyFloat.t) :
  m <> PyFloat.NaN -> x <> PyFloat.NaN -> y <> PyFloat.NaN ->
  FloatOps.ltb m x = false -> FloatOps.ltb x y = false -> FloatOps.ltb m y = false.
Proof.
  intros Hm Hx Hy.
  destruct m as [qm|[]|], x as [qx|[]|], y as [qy|[]|]; simpl;
    try congruence.
  rewrite !Qltb_ge. intros H1 H2. eapply Qle_trans; eassumption.
Qed.

Lemma ltb_irrefl (x : PyFloat.t) : FloatOps.ltb x x = false.
Proof.
  destruct x as [q|[]|]; simpl; try reflexivity.
  apply Qltb_ge, Qle_refl.
Qed.

(** [max] of numbers: an element, and no element is greater. *)
Lemma max_of_greatest (l : list PyFloat.t) :
  forall x, Forall (fun y => y <> PyFloat.NaN) (x :: l) ->
    In (FloatOps.max_of x l) (x :: l) /\
    forall y, In y (x :: l) -> FloatOps.ltb (FloatOps.max_of x l) y = false.
Proof.
  unfold FloatOps.max_of.
  induction l as [|y l IH]; intros x Hall.
  - simpl. split; [now left|]. intros y [<-|[]]. apply ltb_irrefl.
  - inversion Hall as [|? ? Hx Hl]; subst.
    inversion Hl as [|? ? Hy Hl']; subst.
    simpl fold_left.
    destruct (FloatOps.ltb x y) eqn:E.
    + destruct (IH y Hl) as [Hin Hub].
      split; [now right|].
      assert (Hm : fold_left (fun cur y0 => if FloatOps.ltb cur y0 then y0 else cur) l y
                   <> PyFloat.NaN)
        by (rewrite Forall_forall in Hl; now apply Hl).
      intros z [Hz|Hz]; [subst z|now apply Hub].
      apply (ltb_below _ x y); try assumption. apply Hub. now left.
    + assert (Hxl : Forall (fun y => y <> PyFloat.NaN) (x :: l))
        by (constructor; assumption).
      destruct (IH x Hxl) as [Hin Hub].
      assert (Hm : fold_left (fun cur y0 => if FloatOps.ltb cur y0 then y0 else cur) l x
                   <> PyFloat.NaN)
        by (rewrite Forall_forall in Hxl; now apply Hxl).
      split.
      * destruct Hin as [Hin|Hin]; [now left | right; now right].
      * intros z [Hz|[Hz|Hz]]; try subst z.
        -- apply Hub. now left.
        -- apply (ltb_not_above _ x y); try assumption. apply Hub. now left.
        -- apply Hub. now right.
Qed.

(** C7. The code departs from the claim.  Its number pattern matches a
    bare comma, so the context "Total, due", which holds no number, counts
    as one with a numeric token: a quantity question that mentions "total"
    gets that line with confidence 0.85, where the claim has the generic
    answer with confidence 0.5. *)
Theorem quantity_bare_comma :
  Re.findall QAEngine.number_pattern "Total, due" = [s ","] /\
  parsed_numbers "Total, due" = [] /\
  QAEngine._answer_quantity_question "how much is the total?" "Total, due" None
  = (s "Total, due", 0.85%Q) /\
  QAEngine._generate_answer str_of_text "How much is the total?" "Total, due" None
  = (s "Total, due", 0.85%Q).
Proof. repeat split; vm_compute; reflexivity. Qed.

(** X30. On a quantity question the answer is decided by the tokens of
    the number pattern in the context (digits and commas, with an optional
    dollar sign and two decimals): when there is a token and the question
    mentions "total" and some context line contains "total", the first
    such line, stripped, with confidence 0.85; otherwise, when some token
    reads as a number, the greatest of these numbers, each rounded to
    binary64, formatted with two decimals, with confidence 0.7; otherwise
    (no token, or no token that reads as a number) the generic answer with
    confidence 0.5. *)
Theorem quantity_question_answer (question context : str)
        (document : option QAEngine.FormDocument) :
  let numbers := Re.findall QAEngine.number_pattern context in
  let total_line :=
    if Str.contains "total" question
    then find (fun line => Str.contains "total" (Str.lower line)) (Str.lines context)
    else None in
  let result := QAEngine._answer_quantity_question question context document in
  match numbers, total_line, parsed_numbers context with
  | [], _, _ => result = (s "Based on the form: " ++ firstn 200 context, 0.5%Q)
  | _ :: _, Some line, _ => result = (Str.strip line, 0.85%Q)
  | _ :: _, None, [] =>
    result = (s "Based on the form: " ++ firstn 200 context, 0.5%Q)
  | _ :: _, None, _ :: _ =>
    exists m,
      In m (parsed_numbers context) /\
      (forall y, In y (parsed_numbers context) ->
                 y <> PyFloat.NaN /\ FloatOps.ltb m y = false) /\
      result = (s "The amount is: $" ++ FloatOps.format_comma_2f m, 0.7%Q)
  end.
Proof.
  intros numbers total_line result.
  pose proof (parsed_numbers_numbers context) as Hnum.
  unfold result, QAEngine._answer_quantity_question, QAEngine.first_of.
  unfold parsed_numbers in *.
  fold numbers. fold total_line. fold numbers in Hnum.
  set (parsed := flat_map _ numbers) in *.
  clearbody parsed total_line numbers.
  destruct numbers as [|n ns]; [reflexivity|].
  destruct total_line as [line|]; [reflexivity|].
  destruct parsed as [|x rest]; [reflexivity|].
  destruct (max_of_greatest rest x Hnum) as [Hin Hub].
  exists (FloatOps.max_of x rest). split; [exact Hin|]. split; [|reflexivity].
  intros y Hy. split; [|now apply Hub].
  rewrite Forall_forall in Hnum. now apply Hnum.
Qed.

(** A numeral of 17 digits is printed as the binary64 value next to it,
    and one beyond the range of a float as an infinity. *)
Example quantity_rounded :
  fst (QAEngine._answer_quantity_question "how much" "Paid 12345678901234567" None)
  = s "The amount is: $12,345,678,901,234,568.00" /\
  fst (QAEngine._answer_quantity_question "how much"
         (s "Paid " ++ repeat "9"%char 400) None)
  = s "The amount is: $inf".
Proof. repeat split; vm_compute; reflexivity. Qed.

(** * Further properties of the code *)

(** ** Lists *)

Lemma filter_split_length (A : Type) (f : A -> bool) (l : list A) :
  length (filter f l) + length (filter (fun x => negb (f x)) l) = length l.
Proof.
  induction l as [|a l IH]; simpl; [reflexivity|].
  destruct (f a); simpl; lia.
Qed.

Lemma filter_length_mono (A : Type) (f g : A -> bool) (l : list A) :
  (forall x, f x = true -> g x = true) ->
  length (filter f l) <= length (filter g l).
Proof.
  intros Hfg. induction l as [|a l IH]; simpl; [lia|].
  destruct (f a) eqn:Ea.
  - rewrite (Hfg a Ea). simpl. lia.
  - destruct (g a); simpl; lia.
Qed.

Lemma length_zero_nil (A : Type) (l : list A) : length l = 0 <-> l = [].
Proof. destruct l; simpl; split; congruence. Qed.

(** ** Schema detector: the completeness of the fields *)

Lemma frac_bounds (a b : nat) :
  1 <= b -> a <= b ->
  (0 <= SchemaDetector.frac a b)%Q /\ (SchemaDetector.frac a b <= 1)%Q /\
  ((SchemaDetector.frac a b == 1)%Q <-> a = b).
Proof.
  intros Hb Hab. unfold SchemaDetector.frac, Qle, Qeq. simpl.
  rewrite (pos_of_nat_Z b Hb). repeat split; try lia.
Qed.

(** X1. [validate_fields]: the missing fields are expected fields, the
    completeness is the share of the expected fields that are not missing,
    it lies between 0 and 1, and it is 1 exactly when no field is missing. *)
Theorem validate_fields_completeness (schema_type : str) (fields : fieldmap) :
  let expected := SchemaDetector.get_expected_fields schema_type in
  let completeness := fst (SchemaDetector.validate_fields schema_type fields) in
  let missing := snd (SchemaDetector.validate_fields schema_type fields) in
  (forall e, In e missing -> In e expected) /\
  (expected <> [] ->
   (completeness ==
    SchemaDetector.frac (length expected - length missing) (length expected))%Q) /\
  (0 <= completeness)%Q /\ (completeness <= 1)%Q /\
  ((completeness == 1)%Q <-> missing = []).
Proof.
  intros expected completeness missing.
  unfold completeness, missing, SchemaDetector.validate_fields.
  fold expected. clearbody expected. clear completeness missing.
  destruct expected as [|e l]; cbv zeta.
  - simpl. repeat split; try (intros; contradiction); try discriminate;
      try reflexivity.
  - assert (Hn : 1 <= length (e :: l)) by (simpl; lia).
    set (expected := e :: l) in *. clearbody expected.
    set (is_matched := fun expected_field : str => existsb _ _).
    cbn [fst snd].
    pose proof (filter_split_length _ is_matched expected) as Hsum.
    assert (Hfound : length (filter is_matched expected) <= length expected) by lia.
    destruct (frac_bounds _ _ Hn Hfound) as [H0 [H1 Heq]].
    split; [intros x Hx; apply filter_In in Hx; tauto|].
    split.
    { intros _. clear H0 H1 Heq. subst is_matched. cbv beta in *.
      match goal with
      | |- (_ == SchemaDetector.frac ?a _)%Q =>
        rewrite <- Hsum; rewrite Nat.add_sub
      end.
      reflexivity. }
    split; [exact H0|]. split; [exact H1|].
    rewrite Heq, <- length_zero_nil. subst is_matched. cbv beta in *. lia.
Qed.

Lemma dict_keys_set_incl (V : Type) (k : str) (v : V) (d : Dict.t V) :
  forall k', In k' (Dict.keys d) -> In k' (Dict.keys (Dict.set k v d)).
Proof.
  induction d as [|[k0 v0] d IH]; intros k' Hk'; simpl in *; [contradiction|].
  destruct (Str.eqb k k0); simpl.
  - exact Hk'.
  - destruct Hk' as [->|Hk']; [now left | right; now apply IH].
Qed.

(** X2. Adding or replacing a field never lowers the completeness that
    [validate_fields] reports and never adds a missing field. *)
Theorem validate_fields_monotone
        (schema_type : str) (fields : fieldmap) (k : str) (v : value) :
  let before := SchemaDetector.validate_fields schema_type fields in
  let after := SchemaDetector.validate_fields schema_type (Dict.set k v fields) in
  (fst before <= fst after)%Q /\
  (forall e, In e (snd after) -> In e (snd before)).
Proof.
  cbv zeta. unfold SchemaDetector.validate_fields.
  destruct (SchemaDetector.get_expected_fields schema_type) as [|e l]; cbv zeta.
  - simpl. split; [apply Qle_refl | tauto].
  - set (expected := e :: l). clearbody expected.
    set (m1 := fun expected_field : str =>
                 existsb _ (map Str.lower (Dict.keys fields))).
    set (m2 := fun expected_field : str =>
                 existsb _ (map Str.lower (Dict.keys (Dict.set k v fields)))).
    assert (Hm : forall x, m1 x = true -> m2 x = true).
    { intros x H. unfold m1, m2 in *.
      apply existsb_exists in H as [f [Hf Hc]]. apply existsb_exists.
      exists f. split; [|exact Hc].
      apply in_map_iff in Hf as [k' [<- Hk']]. apply in_map.
      now apply dict_keys_set_incl. }
    cbn [fst snd]. split.
    + pose proof (filter_length_mono _ m1 m2 expected Hm) as Hle.
      unfold SchemaDetector.frac, Qle. simpl Qnum. simpl Qden.
      apply Z.mul_le_mono_nonneg_r; lia.
    + intros x Hx. apply filter_In in Hx as [Hin Hx]. apply filter_In.
      split; [exact Hin|].
      change (negb (m2 x) = true) in Hx. change (negb (m1 x) = true).
      destruct (m1 x) eqn:E; [|reflexivity].
      rewrite (Hm x E) in Hx. discriminate.
Qed.

(** ** QA engine: the confidence of an answer *)

Section AnswerFacts.
Import QAEngine.
Variable py_str : value -> str.

Ltac level := unfold confidence_levels; simpl; tauto.

Lemma the_field_level (kv : str * value) :
  In (snd (the_field py_str kv)) confidence_levels.
Proof. level. Qed.

Lemma generic_level (context : str) : In (snd (generic context)) confidence_levels.
Proof. level. Qed.

Lemma by_keywords_level (keys : list string) (context : str)
      (document : option FormDocument) :
  In (snd (by_keywords py_str keys context document)) confidence_levels.
Proof.
  unfold by_keywords.
  destruct (first_of _ (doc_fields document)); [apply the_field_level|].
  destruct (first_of _ (Str.lines context)); [level | apply generic_level].
Qed.

Lemma what_level (question context : str) (document : option FormDocument) :
  In (snd (_answer_what_question py_str question context document)) confidence_levels.
Proof.
  unfold _answer_what_question.
  match goal with |- context [match ?x with Some kv => the_field py_str kv | None => _ end] =>
    destruct x end; [apply the_field_level|].
  destruct (first_of _ (Str.lines context)); level.
Qed.

Lemma quantity_level (question context : str) (document : option FormDocument) :
  In (snd (_answer_quantity_question question context document)) confidence_levels.
Proof.
  unfold _answer_quantity_question.
  destruct (Re.findall number_pattern context); [apply generic_level|].
  match goal with |- context [match ?x with Some line => _ | None => _ end] =>
    destruct x end; [level|].
  match goal with |- context [match ?x with [] => _ | _ :: _ => _ end] =>
    destruct x end; [apply generic_level | level].
Qed.

Lemma when_level (question context : str) (document : option FormDocument) :
  In (snd (_answer_when_question py_str question context document)) confidence_levels.
Proof.
  unfold _answer_when_question.
  match goal with |- context [match ?x with [] => _ | _ :: _ => _ end] =>
    destruct x end; [|level].
  destruct (first_of _ (doc_fields document));
    [apply the_field_level | apply generic_level].
Qed.

Lemma levels_range (c : Q) : In c confidence_levels -> (0.5 <= c)%Q /\ (c <= 0.9)%Q.
Proof.
  unfold confidence_levels. simpl.
  intros [<-|[<-|[<-|[<-|[<-|[<-|[]]]]]]]; split; unfold Qle; simpl; lia.
Qed.

Lemma generate_answer_level (question context : str)
      (document : option FormDocument) :
  context <> [] ->
  In (snd (_generate_answer py_str question context document)) confidence_levels.
Proof.
  intros Hctx. unfold _generate_answer.
  destruct context as [|ch context']; [contradiction|].
  set (ctx := ch :: context'). clearbody ctx.
  repeat match goal with
         | |- context [if ?b then _ else _] => destruct b
         end.
  - apply what_level.
  - apply quantity_level.
  - apply by_keywords_level.
  - apply when_level.
  - apply by_keywords_level.
  - level.
Qed.

Lemma generate_answer_zero (question context : str)
      (document : option FormDocument) :
  context = [] <-> snd (_generate_answer py_str question context document) = 0%Q.
Proof.
  destruct context as [|ch context'].
  - simpl. tauto.
  - split; [discriminate|]. intros H0.
    assert (Hne : ch :: context' <> []) by discriminate.
    pose proof (generate_answer_level question _ document Hne) as Hl.
    rewrite H0 in Hl. apply levels_range in Hl as [Hlo _].
    unfold Qle in Hlo. simpl in Hlo. lia.
Qed.

End AnswerFacts.

(** X3. [_generate_answer] gives the confidence 0 exactly when the context
    is empty; with a context the confidence is one of the levels 0.5, 0.6,
    0.7, 0.8, 0.85 and 0.9, whatever the question and the document.  So
    every confidence lies between 0 and 0.9. *)
Theorem generate_answer_confidence
        (py_str : value -> str) (question context : str)
        (document : option QAEngine.FormDocument) :
  let c := snd (QAEngine._generate_answer py_str question context document) in
  (context = [] <-> c = 0%Q) /\
  (context <> [] -> In c confidence_levels) /\
  (0 <= c)%Q /\ (c <= 0.9)%Q.
Proof.
  intros c. unfold c.
  split; [apply generate_answer_zero|].
  split; [apply generate_answer_level|].
  destruct context as [|ch context'].
  - simpl. split; unfold Qle; simpl; lia.
  - assert (Hne : ch :: context' <> []) by discriminate.
    destruct (levels_range _ (generate_answer_level py_str question _ document Hne))
      as [Hlo Hhi].
    split; [|exact Hhi].
    eapply Qle_trans; [|exact Hlo]. unfold Qle. simpl. lia.
Qed.

(** ** QA engine: the answer across documents *)

Lemma to_set_In (l : list str) (x : str) : In x (Retriever.to_set l) <-> In x l.
Proof.
  induction l as [|y l IH]; simpl; [tauto|].
  destruct (Str.mem y l) eqn:E.
  - rewrite IH. split; [tauto|]. intros [<-|H]; [|exact H].
    now apply str_mem_In.
  - simpl. rewrite IH. tauto.
Qed.

Lemma to_set_NoDup (l : list str) : NoDup (Retriever.to_set l).
Proof.
  induction l as [|y l IH]; simpl; [constructor|].
  destruct (Str.mem y l) eqn:E; [exact IH|].
  constructor; [|exact IH].
  rewrite to_set_In. intros Hin. apply str_mem_In in Hin. congruence.
Qed.

Lemma join_nonempty (sep x : str) (l : list str) :
  x <> [] -> Str.join sep (x :: l) <> [].
Proof.
  intros Hx. destruct l as [|y l]; simpl; [exact Hx|].
  destruct x; [contradiction | discriminate].
Qed.

(** X4. [answer_multiple]: the source fields are, each once, the fields
    that the retrieval selected in a document that yielded a context; the
    confidence is 0 exactly when no document yields a context; the context
    of the result has at most 1000 characters. *)
Theorem answer_multiple_sources
        (py_str : value -> str) (top_k : nat) (use_embeddings : bool)
        (embedder : option (str -> list str -> list str))
        (question : str) (documents : list QAEngine.FormDocument) :
  let r := QAEngine.answer_multiple py_str top_k use_embeddings embedder
                                    question documents in
  let retrieved :=
    QAEngine._retrieve_context py_str top_k use_embeddings embedder question in
  NoDup (QAEngine.source_fields r) /\
  (forall f, In f (QAEngine.source_fields r) <->
             exists doc, In doc documents /\ fst (retrieved doc) <> [] /\
                         In f (snd (retrieved doc))) /\
  (QAEngine.confidence r = 0%Q <->
   forall doc, In doc documents -> fst (retrieved doc) = []) /\
  length (QAEngine.context r) <= 1000.
Proof.
  intros r retrieved. unfold r, QAEngine.answer_multiple.
  fold retrieved.
  set (found := flat_map _ documents).
  assert (Hfound : forall cf, In cf found <->
            exists doc, In doc documents /\ fst (retrieved doc) <> [] /\
                        cf = (s "[" ++ QAEngine.file_path doc ++ s "]: "
                                ++ fst (retrieved doc), snd (retrieved doc))).
  { intros cf. unfold found. rewrite in_flat_map. split.
    - intros [doc [Hdoc Hin]]. exists doc. split; [exact Hdoc|].
      destruct (retrieved doc) as [context fields].
      destruct context as [|c context']; [contradiction|].
      destruct Hin as [<-|[]]. split; [discriminate | reflexivity].
    - intros [doc [Hdoc [Hne ->]]]. exists doc. split; [exact Hdoc|].
      destruct (retrieved doc) as [context fields].
      destruct context as [|c context']; [now contradiction Hne|].
      now left. }
  clearbody found.
  destruct (QAEngine._generate_answer py_str question _ None) as [answer confidence] eqn:E.
  cbn [QAEngine.source_fields QAEngine.confidence QAEngine.context].
  split; [apply to_set_NoDup|].
  split.
  { intros f. rewrite to_set_In, in_concat. split.
    - intros [l [Hl Hf]]. apply in_map_iff in Hl as [cf [<- Hcf]].
      apply Hfound in Hcf as [doc [Hdoc [Hne ->]]].
      exists doc. auto.
    - intros [doc [Hdoc [Hne Hf]]]. exists (snd (retrieved doc)). split; [|exact Hf].
      apply in_map_iff. eexists. split; [|apply Hfound; exists doc; eauto].
      reflexivity. }
  split.
  { replace confidence with
      (snd (QAEngine._generate_answer py_str question
              (Str.join (String "010" (String "010" "")) (map fst found)) None))
      by (rewrite E; reflexivity).
    rewrite <- generate_answer_zero. split.
    - intros Hjoin doc Hdoc.
      destruct (fst (retrieved doc)) as [|c context'] eqn:Ectx; [reflexivity|].
      exfalso.
      assert (Hin : In (s "[" ++ QAEngine.file_path doc ++ s "]: "
                          ++ fst (retrieved doc), snd (retrieved doc)) found).
      { apply Hfound. exists doc. rewrite Ectx. repeat split; [exact Hdoc | discriminate]. }
      destruct found as [|cf found']; [contradiction|].
      revert Hjoin. simpl map. apply join_nonempty.
      destruct (Hfound cf) as [Hcf _].
      destruct (Hcf (or_introl eq_refl)) as [doc' [_ [_ ->]]]. discriminate.
    - intros Hall. destruct found as [|cf found']; [reflexivity|].
      destruct (Hfound cf) as [Hcf _].
      destruct (Hcf (or_introl eq_refl)) as [doc' [Hdoc' [Hne _]]].
      now contradiction Hne; apply Hall. }
  apply firstn_le_length.
Qed.

(** ** Cross-form analysis: the common fields *)

Lemma filter_length_all (A : Type) (p : A -> bool) (l : list A) :
  length (filter p l) = length l <-> forall x, In x l -> p x = true.
Proof.
  induction l as [|a l IH]; simpl; [tauto|].
  pose proof (filter_length_le p l) as Hle.
  destruct (p a) eqn:E; simpl.
  - split.
    + intros H x [<-|Hx]; [exact E|]. apply IH; [lia | exact Hx].
    + intros H. f_equal. apply IH. auto.
  - split; [lia|]. intros H. rewrite (H a (or_introl eq_refl)) in E. discriminate.
Qed.

Section CommonFields.
Import QAEngine.
Variable f : str.

Lemma in_document_length (doc : FormDocument) :
  NoDup (Dict.keys (fields doc)) ->
  length (in_document f doc) =
  if Str.mem f (Dict.keys (fields doc)) then 1 else 0.
Proof.
  unfold in_document. generalize (file_path doc) as source.
  induction (fields doc) as [|[k v] kvs IH]; intros source Hnd; [reflexivity|].
  simpl in Hnd. inversion Hnd as [|? ? Hk Hnd']; subst.
  specialize (IH source Hnd').
  simpl flat_map. unfold Str.mem in *. simpl existsb.
  destruct (Str.eqb f k) eqn:E; simpl.
  - apply str_eqb_eq in E. subst k.
    rewrite IH.
    destruct (existsb (Str.eqb f) (Dict.keys kvs)) eqn:Ex; [|reflexivity].
    exfalso. apply Hk. apply existsb_exists in Ex as [k' [Hk' Heq]].
    apply str_eqb_eq in Heq. now subst k'.
  - exact IH.
Qed.

Lemma occurrences_length (documents : list FormDocument) :
  Forall (fun doc => NoDup (Dict.keys (fields doc))) documents ->
  length (occurrences f documents) =
  length (filter (fun doc => Str.mem f (Dict.keys (fields doc))) documents).
Proof.
  unfold occurrences. induction 1 as [|doc documents Hnd _ IH]; [reflexivity|].
  simpl. rewrite length_app, IH, (in_document_length doc Hnd).
  destruct (Str.mem f (Dict.keys (fields doc))); reflexivity.
Qed.

End CommonFields.

Lemma common_field_names_spec (documents : list QAEngine.FormDocument) (f : str) :
  Forall (fun doc => NoDup (Dict.keys (QAEngine.fields doc))) documents ->
  (In f (QAEngine.common_field_names (QAEngine.collect documents) documents) <->
   documents <> [] /\
   forall doc, In doc documents -> In f (Dict.keys (QAEngine.fields doc))).
Proof.
  intros Hnd. unfold QAEngine.common_field_names.
  pose proof (occurrences_length f documents Hnd) as Hlen.
  pose proof (get_collect f documents) as Hget.
  assert (Hall : length (occurrences f documents) = length documents <->
                 forall doc, In doc documents ->
                             In f (Dict.keys (QAEngine.fields doc))).
  { rewrite Hlen, filter_length_all. split; intros H doc Hdoc.
    - apply str_mem_In; auto.
    - apply str_mem_In; auto. }
  split.
  - intros Hin. apply in_map_iff in Hin as [[f' vs] [Hf Hin]]. simpl in Hf. subst f'.
    apply filter_In in Hin as [Hin Hcount]. simpl in Hcount.
    apply Nat.eqb_eq in Hcount.
    apply (dict_nodup_get _ _ _ _ (collect_nodup documents)) in Hin.
    rewrite Hin in Hget. unfold merge in Hget.
    destruct (occurrences f documents) as [|o occ] eqn:Eocc; [discriminate|].
    injection Hget as ->. simpl app in Hcount.
    split.
    + intros ->. discriminate.
    + apply Hall. exact Hcount.
  - intros [Hne Hevery]. apply Hall in Hevery.
    unfold merge in Hget.
    destruct (occurrences f documents) as [|o occ] eqn:Eocc.
    { destruct documents; [contradiction | discriminate]. }
    apply dict_get_In in Hget.
    apply in_map_iff. exists (f, [] ++ o :: occ). split; [reflexivity|].
    apply filter_In. split; [exact Hget|].
    cbn [snd app]. apply Nat.eqb_eq. exact Hevery.
Qed.

(** X5. Cross-form analysis: a field name is a common field exactly when
    there is a document and every document has a field of that name (every
    document being a dictionary, in which a name occurs once).  This holds
    of the list the analysis computes, before its statistics, and so of the
    common fields of every analysis that is returned (for documents whose
    [int]s [str] prints). *)
Theorem common_fields_in_every_document
        (py_str : value -> str) (top_k : nat) (use_embeddings : bool)
        (embedder : option (str -> list str -> list str))
        (question : str) (documents : list QAEngine.FormDocument) (f : str) :
  Forall (fun doc => NoDup (Dict.keys (QAEngine.fields doc))) documents ->
  (In f (QAEngine.common_field_names (QAEngine.collect documents) documents) <->
   documents <> [] /\
   forall doc, In doc documents -> In f (Dict.keys (QAEngine.fields doc))) /\
  (ints_printable documents = true ->
   forall a,
     QAEngine.cross_form_analysis py_str top_k use_embeddings embedder
                                  question documents = Some a ->
     (In f (QAEngine.common_fields a) <->
      documents <> [] /\
      forall doc, In doc documents -> In f (Dict.keys (QAEngine.fields doc)))).
Proof.
  intros Hnd. pose proof (common_field_names_spec documents f Hnd) as Hspec.
  split; [exact Hspec|].
  intros _ a Ha. unfold QAEngine.cross_form_analysis in Ha.
  destruct (QAEngine.field_summary (QAEngine.collect documents)) as [summary|];
    [|discriminate].
  destruct (QAEngine.insights_overflow summary); [discriminate|].
  injection Ha as <-.
  cbn [QAEngine.common_fields]. exact Hspec.
Qed.

Lemma common_fields_in_every_document_witness :
  Forall (fun doc => NoDup (Dict.keys (QAEngine.fields doc))) salary_docs /\
  ints_printable salary_docs = true /\
  exists a,
    QAEngine.cross_form_analysis str_of_text 5 false None
                                 "What is the average salary?" salary_docs = Some a /\
    (In (s "Annual Salary") (QAEngine.common_fields a) <->
     salary_docs <> [] /\
     forall doc, In doc salary_docs ->
                 In (s "Annual Salary") (Dict.keys (QAEngine.fields doc))).
Proof.
  assert (H : Forall (fun doc => NoDup (Dict.keys (QAEngine.fields doc))) salary_docs).
  { repeat constructor; simpl; intuition discriminate. }
  split; [exact H|]. split; [reflexivity|].
  eexists. split; [vm_compute; reflexivity|].
  apply (common_fields_in_every_document str_of_text 5 false None
           "What is the average salary?" salary_docs "Annual Salary" H).
  - reflexivity.
  - vm_compute. reflexivity.
Defined.

(** ** Dictionaries: lookup after an update *)

Section DictUpdate.
Variable V : Type.
Implicit Types (d e : Dict.t V) (k : str) (v : V).

Lemma dict_get_update k d e :
  NoDup (Dict.keys e) ->
  Dict.get k (Dict.update d e) =
  match Dict.get k e with Some v => Some v | None => Dict.get k d end.
Proof.
  unfold Dict.update. revert d.
  induction e as [|[k0 v0] e IH]; intros d Hnd; [reflexivity|].
  simpl in Hnd. inversion Hnd as [|? ? Hk0 Hnd']; subst.
  simpl fold_left. rewrite (IH _ Hnd'). simpl Dict.get.
  rewrite dict_get_set.
  destruct (Str.eqb k k0) eqn:E; [|reflexivity].
  apply str_eqb_eq in E. subst k0.
  now rewrite (dict_get_none V k e Hk0).
Qed.

Lemma dict_update_nodup d e :
  NoDup (Dict.keys d) -> NoDup (Dict.keys (Dict.update d e)).
Proof.
  unfold Dict.update. revert d.
  induction e as [|[k0 v0] e IH]; intros d Hnd; [exact Hnd|].
  simpl. apply IH. now apply dict_set_nodup.
Qed.

Lemma dict_get_keys k d : Dict.get k d <> None -> In k (Dict.keys d).
Proof.
  induction d as [|[k0 v0] d IH]; simpl; [congruence|].
  destruct (Str.eqb k k0) eqn:E.
  - apply str_eqb_eq in E. now left.
  - intros H. right. now apply IH.
Qed.

End DictUpdate.

(** ** Decimal numerals *)

Lemma decimal_value_snoc (w : str) (c : ascii) :
  decimal_value (w ++ [c]) = 10 * decimal_value w + (Str.code c - 48).
Proof. unfold decimal_value. now rewrite fold_left_app. Qed.

Lemma digits_aux_value (fuel : nat) :
  forall n acc, n < fuel ->
    exists w, Str.digits_aux fuel n acc = w ++ acc /\ decimal_value w = n.
Proof.
  induction fuel as [|fuel IH]; intros n acc Hlt; [lia|].
  assert (Hc : Str.code (ascii_of_nat (48 + n mod 10)) - 48 = n mod 10).
  { unfold Str.code. pose proof (Nat.mod_upper_bound n 10).
    rewrite nat_ascii_embedding by lia. lia. }
  change (Str.digits_aux (S fuel) n acc)
    with (let acc' := ascii_of_nat (48 + n mod 10) :: acc in
          if n <? 10 then acc' else Str.digits_aux fuel (n / 10) acc').
  cbv zeta. destruct (n <? 10) eqn:E.
  - apply Nat.ltb_lt in E. exists [ascii_of_nat (48 + n mod 10)].
    split; [reflexivity|].
    change (decimal_value [ascii_of_nat (48 + n mod 10)])
      with (10 * 0 + (Str.code (ascii_of_nat (48 + n mod 10)) - 48)).
    rewrite Hc, Nat.mod_small; lia.
  - apply Nat.ltb_ge in E.
    assert (Hdiv : n / 10 < fuel).
    { pose proof (Nat.div_lt n 10). lia. }
    destruct (IH (n / 10) (ascii_of_nat (48 + n mod 10) :: acc) Hdiv)
      as [w [Ew Hw]].
    exists (w ++ [ascii_of_nat (48 + n mod 10)]). split.
    + rewrite Ew. now rewrite <- app_assoc.
    + rewrite decimal_value_snoc, Hw, Hc.
      pose proof (Nat.div_mod_eq n 10). lia.
Qed.

Lemma of_nat_value (n : nat) : decimal_value (Str.of_nat n) = n.
Proof.
  unfold Str.of_nat.
  destruct (digits_aux_value (S n) n [] (Nat.lt_succ_diag_r n)) as [w [E Hw]].
  rewrite E, app_nil_r. exact Hw.
Qed.

Lemma of_nat_inj (a b : nat) : Str.of_nat a = Str.of_nat b -> a = b.
Proof.
  intros H. rewrite <- (of_nat_value a), <- (of_nat_value b). now rewrite H.
Qed.

(** ** Field parser: the numbered special fields *)

Lemma enumerate_fst (A : Type) (l : list A) (start : nat) :
  map fst (combine (seq start (length l)) l) = seq start (length l).
Proof.
  revert start. induction l as [|a l IH]; intros start; [reflexivity|].
  simpl. f_equal. apply IH.
Qed.

Lemma enumerate_nth (A : Type) (l : list A) :
  forall start i x, nth_error l i = Some x ->
                    In (start + i, x) (combine (seq start (length l)) l).
Proof.
  induction l as [|a l IH]; intros start i x Hi; [now destruct i|].
  destruct i as [|i]; simpl in Hi.
  - injection Hi as ->. left. f_equal. lia.
  - right. replace (start + S i) with (S start + i) by lia. now apply IH.
Qed.

Section Numbered.
Variable name : string.
Variable f : str -> str.

Let key (n : nat) : str := s name ++ s " " ++ Str.of_nat n.
Let step (d : fieldmap) (ix : nat * str) : fieldmap :=
  Dict.set (key (fst ix)) (VStr (f (snd ix))) d.

Lemma numbered_key_inj (a b : nat) : key a = key b -> a = b.
Proof.
  unfold key. intros H. apply app_inv_head in H. apply app_inv_head in H.
  now apply of_nat_inj.
Qed.

Lemma numbered_get_other (l : list (nat * str)) (n : nat) :
  forall d, ~ In n (map fst l) ->
            Dict.get (key n) (fold_left step l d) = Dict.get (key n) d.
Proof.
  induction l as [|[n0 x0] l IH]; intros d Hn; [reflexivity|].
  simpl in Hn. simpl fold_left. rewrite IH by tauto.
  unfold step. rewrite dict_get_set. simpl fst.
  destruct (Str.eqb (key n) (key n0)) eqn:E; [|reflexivity].
  apply str_eqb_eq, numbered_key_inj in E. subst n0. tauto.
Qed.

Lemma numbered_get_at (l : list (nat * str)) (n : nat) (x : str) :
  forall d, NoDup (map fst l) -> In (n, x) l ->
            Dict.get (key n) (fold_left step l d) = Some (VStr (f x)).
Proof.
  induction l as [|[n0 x0] l IH]; intros d Hnd Hin; [contradiction|].
  simpl in Hnd. inversion Hnd as [|? ? Hn0 Hnd']; subst.
  simpl fold_left. destruct Hin as [[= -> ->]|Hin].
  - rewrite numbered_get_other by assumption.
    unfold step. rewrite dict_get_set. simpl. now rewrite str_eqb_refl.
  - now apply IH.
Qed.

Lemma numbered_fold_nodup (l : list (nat * str)) :
  forall d, NoDup (Dict.keys d) -> NoDup (Dict.keys (fold_left step l d)).
Proof.
  induction l as [|ix l IH]; intros d Hd; [exact Hd|].
  simpl. apply IH. unfold step. now apply dict_set_nodup.
Qed.

(** The entry of the [i]-th find: under the bare name when it is the only
    one, under the name and its number (from 1) otherwise. *)
Lemma numbered_nth (found : list str) (i : nat) (x : str) :
  nth_error found i = Some x ->
  Dict.get (if length found =? 1 then s name else key (i + 1))
           (FieldParser.numbered name f found) = Some (VStr (f x)).
Proof.
  intros Hi. unfold FieldParser.numbered.
  destruct found as [|x0 [|x1 found']].
  - now destruct i.
  - destruct i as [|i]; [|now destruct i].
    injection Hi as ->. simpl. now rewrite str_eqb_refl.
  - set (found := x0 :: x1 :: found') in *.
    change (length found =? 1) with false. cbv iota.
    unfold FieldParser.enumerate1.
    apply (numbered_get_at _ (i + 1) x).
    + rewrite enumerate_fst. apply seq_NoDup.
    + rewrite Nat.add_comm. now apply enumerate_nth.
Qed.

Lemma numbered_nodup (found : list str) :
  NoDup (Dict.keys (FieldParser.numbered name f found)).
Proof.
  unfold FieldParser.numbered.
  destruct found as [|x0 [|x1 found']].
  - apply (numbered_fold_nodup _ []). constructor.
  - simpl. repeat constructor. tauto.
  - apply (numbered_fold_nodup _ []). constructor.
Qed.

End Numbered.

(** ** Field parser: the masked SSN entries *)

Lemma reach_digit (p q : Re.pos) :
  reach Re.digit p q ->
  exists c, Re.ahead p = c :: Re.ahead q /\ Str.is_digit c = true.
Proof.
  unfold Re.digit. intros H. inv H.
  match goal with
  | Ha : Re.ahead p = ?c :: ?t |- _ =>
    exists c; split; [|assumption]; simpl; rewrite Ha; reflexivity
  end.
Qed.

(** A match of the SSN pattern ends with four digits. *)
Lemma ssn_token_tail (text ssn : str) :
  In ssn (Re.findall FieldParser.ssn_pattern text) ->
  exists w a b c d,
    ssn = w ++ [a; b; c; d] /\ forallb Str.is_digit [a; b; c; d] = true.
Proof.
  intros Hin. unfold Re.findall, Re.finditer in Hin.
  apply in_map_iff in Hin as [m [<- Hin]].
  apply scan_sound in Hin as [p [q [-> E]]].
  unfold Re.match_at in E. apply run_sound in E as [q' [Hr [= ->]]].
  cbv [FieldParser.ssn_pattern Re.seqs Re.rep] in Hr.
  inv Hr.
  match goal with
  | H1 : reach (Seq Re.digit _) p ?u, H2 : reach (Seq (Re.opt _) _) ?u q |- _ =>
    apply reach_ahead in H1 as [w1 E1]; inv H2
  end.
  match goal with
  | H1 : reach (Re.opt _) ?u ?v, H2 : reach (Seq (Seq _ _) _) ?v q |- _ =>
    apply reach_ahead in H1 as [w2 E2]; inv H2
  end.
  match goal with
  | H1 : reach (Seq Re.digit Re.digit) ?u ?v, H2 : reach (Seq (Re.opt _) _) ?v q |- _ =>
    apply reach_ahead in H1 as [w3 E3]; inv H2
  end.
  match goal with
  | H1 : reach (Re.opt _) ?u ?v, H2 : reach (Seq Re.digit _) ?v q |- _ =>
    apply reach_ahead in H1 as [w4 E4]; inv H2
  end.
  match goal with
  | H1 : reach Re.digit _ _, H2 : reach (Seq Re.digit _) _ q |- _ =>
    apply reach_digit in H1 as [a [Ea Ha]]; inv H2
  end.
  match goal with
  | H1 : reach Re.digit _ _, H2 : reach (Seq Re.digit _) _ q |- _ =>
    apply reach_digit in H1 as [b [Eb Hb]]; inv H2
  end.
  match goal with
  | H1 : reach Re.digit ?u ?v, H2 : reach Re.digit ?v q |- _ =>
    apply reach_digit in H1 as [c [Ec Hc]];
    apply reach_digit in H2 as [d [Ed Hd]]
  end.
  exists (w1 ++ w2 ++ w3 ++ w4), a, b, c, d. split.
  - simpl. apply between_app.
    rewrite E1, E2, E3, E4, Ea, Eb, Ec, Ed.
    rewrite <- !app_assoc. reflexivity.
  - simpl. now rewrite Ha, Hb, Hc, Hd.
Qed.

Lemma mask_tail (w : str) (a b c d : ascii) :
  FieldParser.mask (w ++ [a; b; c; d]) = s "XXX-XX-" ++ [a; b; c; d].
Proof.
  unfold FieldParser.mask, Str.last_n. f_equal.
  rewrite length_app. simpl length. rewrite Nat.add_sub.
  rewrite skipn_app, skipn_all, Nat.sub_diag. reflexivity.
Qed.

(** The name of a date field ends with " Date". *)
Lemma date_field_key (text : str) (m : Re.mtch) (k : str) (v : value) :
  FieldParser.date_field text m = Some (k, v) ->
  exists label, k = label ++ s " Date".
Proof.
  unfold FieldParser.date_field.
  destruct (Re.search FieldParser.label_pattern _) as [lm|]; [|discriminate].
  destruct (Str.mem _ _); [discriminate|].
  intros [= <- _]. eexists. reflexivity.
Qed.

(** The names of the SSN entries end with "N" or with a digit. *)
Lemma ssn_key_last (single : bool) (n : nat) :
  let key := if single then s "SSN" else s "SSN" ++ s " " ++ Str.of_nat n in
  last key " "%char = "N"%char \/ Str.is_digit (last key " "%char) = true.
Proof.
  destruct single; cbv zeta; [now left|]. right.
  destruct (of_nat_last_digit n) as [c [w [E Hc]]]. rewrite E.
  replace (s "SSN" ++ s " " ++ w ++ [c]) with ((s "SSN" ++ s " " ++ w) ++ [c])
    by (now rewrite <- !app_assoc).
  now rewrite last_last.
Qed.

Lemma date_key_last (label : str) : last (label ++ s " Date") " "%char = "e"%char.
Proof.
  replace (label ++ s " Date") with ((label ++ s " Dat") ++ s "e")
    by (now rewrite <- app_assoc).
  apply last_last.
Qed.

Lemma special_fields_nodup (text : str) :
  NoDup (Dict.keys (FieldParser._extract_special_fields text)).
Proof.
  unfold FieldParser._extract_special_fields.
  assert (Hfold : forall (A : Type) (step : fieldmap -> A -> fieldmap) (l : list A),
             (forall d a, NoDup (Dict.keys d) -> NoDup (Dict.keys (step d a))) ->
             forall d, NoDup (Dict.keys d) -> NoDup (Dict.keys (fold_left step l d))).
  { intros A step l Hstep. induction l as [|a l IH]; intros d Hd; [exact Hd|].
    simpl. apply IH. now apply Hstep. }
  apply Hfold.
  - intros d pattern Hd. apply Hfold; [|exact Hd].
    intros d' m Hd'. unfold FieldParser.set_opt.
    destruct (FieldParser.date_field text m) as [[k v]|]; [|exact Hd'].
    now apply dict_set_nodup.
  - repeat apply dict_update_nodup. apply numbered_nodup.
Qed.

(** What the special extractor stores for an SSN is not touched by the
    date fields that follow. *)
Lemma special_fields_ssn (text key : str) (v : value) :
  last key " "%char = "N"%char \/ Str.is_digit (last key " "%char) = true ->
  Dict.get key (FieldParser.numbered "SSN" FieldParser.mask
                  (Re.findall FieldParser.ssn_pattern text)) = Some v ->
  Dict.get key (FieldParser._extract_special_fields text) = Some v.
Proof.
  intros Hlast Hget. unfold FieldParser._extract_special_fields.
  assert (Hfold : forall (A : Type) (step : fieldmap -> A -> fieldmap) (l : list A),
             (forall d a, Dict.get key (step d a) = Dict.get key d) ->
             forall d, Dict.get key (fold_left step l d) = Dict.get key d).
  { intros A step l Hstep. induction l as [|a l IH]; intros d; [reflexivity|].
    simpl. now rewrite IH, Hstep. }
  rewrite Hfold.
  - rewrite dict_get_update by apply numbered_nodup. now rewrite Hget.
  - intros d pattern. apply Hfold. intros d' m. unfold FieldParser.set_opt.
    destruct (FieldParser.date_field text m) as [[k v']|] eqn:E; [|reflexivity].
    apply date_field_key in E as [label ->].
    rewrite dict_get_set.
    destruct (Str.eqb key (label ++ s " Date")) eqn:Ek; [|reflexivity].
    apply str_eqb_eq in Ek. subst key. rewrite date_key_last in Hlast.
    destruct Hlast; discriminate.
Qed.

Lemma checkboxes_keys (text k : str) :
  In k (Dict.keys (FieldParser._extract_checkboxes text)) ->
  last k " "%char = "s"%char.
Proof.
  unfold FieldParser._extract_checkboxes.
  set (checked := flat_map _ (filter (fun p => Bool.eqb (snd p) true) _)).
  set (unchecked := flat_map _ (filter (fun p => Bool.eqb (snd p) false) _)).
  clearbody checked unchecked.
  intros Hin.
  assert (Hk : k = s "Selected Options" \/ k = s "Unselected Options").
  { destruct unchecked.
    - destruct checked; [contradiction|]. destruct Hin as [<-|[]]. now left.
    - apply dict_keys_set in Hin. destruct Hin as [->|Hin]; [now right|].
      destruct checked; [contradiction|]. destruct Hin as [<-|[]]. now left. }
  destruct Hk as [->| ->]; reflexivity.
Qed.

Lemma findall_ssn_nil : Re.findall FieldParser.ssn_pattern [] = [].
Proof. vm_compute. reflexivity. Qed.

(** X6. SSN masking in [parse]: the [i]-th SSN-shaped token of the text
    (counted from 0) ends with four digits, and the result has the entry
    "XXX-XX-" followed by these digits under the name "SSN" when the text
    has one such token, under "SSN i+1" when it has several, whatever a
    label pattern captured under that name. *)
Theorem parse_masks_ssn_entries (text : str) (i : nat) (ssn : str) :
  let ssns := Re.findall FieldParser.ssn_pattern text in
  nth_error ssns i = Some ssn ->
  let key := if length ssns =? 1 then s "SSN"
             else s "SSN" ++ s " " ++ Str.of_nat (i + 1) in
  exists w a b c d,
    ssn = w ++ [a; b; c; d] /\
    forallb Str.is_digit [a; b; c; d] = true /\
    Dict.get key (FieldParser.parse text) =
    Some (VStr (s "XXX-XX-" ++ [a; b; c; d])).
Proof.
  intros ssns Hi key.
  destruct (ssn_token_tail text ssn (nth_error_In _ _ Hi)) as [w [a [b [c [d [E Hd]]]]]].
  exists w, a, b, c, d. split; [exact E|]. split; [exact Hd|].
  rewrite <- (mask_tail w), <- E.
  assert (Hget : Dict.get key (FieldParser.numbered "SSN" FieldParser.mask ssns)
                 = Some (VStr (FieldParser.mask ssn)))
    by exact (numbered_nth "SSN" FieldParser.mask ssns i ssn Hi).
  assert (Hlast : last key " "%char = "N"%char \/
                  Str.is_digit (last key " "%char) = true)
    by exact (ssn_key_last (length ssns =? 1) (i + 1)).
  clearbody key.
  apply (special_fields_ssn text key _ Hlast) in Hget.
  destruct text as [|ch text'].
  - unfold ssns in Hi. rewrite findall_ssn_nil in Hi. now destruct i.
  - unfold FieldParser.parse.
    set (x := ch :: text') in *. clearbody x.
    rewrite dict_get_update.
    + destruct (Dict.get key (FieldParser._extract_checkboxes x)) eqn:Ec.
      * assert (Hne : Dict.get key (FieldParser._extract_checkboxes x) <> None)
          by congruence.
        apply dict_get_keys, checkboxes_keys in Hne. rewrite Hne in Hlast.
        destruct Hlast; discriminate.
      * rewrite dict_get_update by apply special_fields_nodup.
        now rewrite Hget.
    + unfold FieldParser._extract_checkboxes.
      match goal with |- context [match ?u with [] => ?f | _ :: _ => _ end] =>
        destruct u end;
      match goal with |- context [match ?u with [] => [] | _ :: _ => _ end] =>
        destruct u end; simpl; repeat constructor; simpl; intuition discriminate.
Qed.

Lemma parse_masks_ssn_entries_witness :
  nth_error (Re.findall FieldParser.ssn_pattern ssn_text) 0 = Some (s "123-45-6789") /\
  exists w a b c d,
    s "123-45-6789" = w ++ [a; b; c; d] /\
    forallb Str.is_digit [a; b; c; d] = true /\
    Dict.get (if length (Re.findall FieldParser.ssn_pattern ssn_text) =? 1
              then s "SSN" else s "SSN" ++ s " " ++ Str.of_nat (0 + 1))
             (FieldParser.parse ssn_text) =
    Some (VStr (s "XXX-XX-" ++ [a; b; c; d])).
Proof.
  assert (H : nth_error (Re.findall FieldParser.ssn_pattern ssn_text) 0
              = Some (s "123-45-6789")) by (vm_compute; reflexivity).
  split; [exact H|].
  apply (parse_masks_ssn_entries ssn_text 0 (s "123-45-6789") H).
Defined.

(** ** Table parser: normalising twice *)

Section NormalizeFacts.
Import TableParser.

Let clean (cell : str) : str := if nonempty cell then Str.strip cell else [].

Lemma clean_idempotent (cell : str) : clean (clean cell) = clean cell.
Proof.
  unfold clean. destruct cell as [|c cell]; [reflexivity|]. simpl nonempty.
  destruct (Str.strip (c :: cell)) eqn:E; [reflexivity|].
  simpl nonempty. rewrite <- E. apply strip_idempotent.
Qed.

Lemma clean_row_cells (width : nat) (row : list str) :
  map clean (clean_row width row) = clean_row width row.
Proof.
  unfold clean_row. fold clean.
  rewrite map_app, map_map, (map_ext _ clean clean_idempotent).
  f_equal. induction (width - length (map clean row)) as [|n IH]; [reflexivity|].
  simpl. now rewrite IH.
Qed.

Lemma clean_row_fixed (width : nat) (row : list str) :
  length row <= width ->
  clean_row width (clean_row width row) = clean_row width row.
Proof.
  intros Hle. pose proof (length_clean_row width row Hle) as Hlen.
  change (clean_row width (clean_row width row))
    with (map clean (clean_row width row) ++
          repeat [] (width - length (map clean (clean_row width row)))).
  rewrite clean_row_cells, Hlen, Nat.sub_diag. apply app_nil_r.
Qed.

Lemma max_cols_constant (tb : table) (width : nat) :
  tb <> [] -> Forall (fun row => length row = width) tb -> max_cols tb = width.
Proof.
  unfold max_cols. intros Hne Hall.
  assert (H : fold_right Nat.max 0 (map (@length str) tb) =
              match tb with [] => 0 | _ => width end).
  { clear Hne. induction Hall as [|row' tb' Hrow' _ IH]; [reflexivity|].
    simpl. rewrite IH, Hrow'. destruct tb'; [apply Nat.max_0_r | apply Nat.max_id]. }
  rewrite H. destruct tb; [contradiction | reflexivity].
Qed.

End NormalizeFacts.

(** X7. [_normalize_table] is idempotent: a normalised table is left as it
    is by a second normalisation. *)
Theorem normalize_table_idempotent (tb : TableParser.table) :
  TableParser._normalize_table (TableParser._normalize_table tb)
  = TableParser._normalize_table tb.
Proof.
  destruct tb as [|row tb]; [reflexivity|].
  set (t := row :: tb).
  assert (Hne : TableParser._normalize_table t <> []).
  { intros H. apply (f_equal (@length _)) in H.
    rewrite normalize_length in H. discriminate. }
  pose proof (normalize_rows t) as Hrows.
  pose proof (max_cols_constant _ _ Hne Hrows) as Hmax.
  destruct (TableParser._normalize_table t) as [|row' tb'] eqn:E; [contradiction|].
  unfold TableParser._normalize_table at 1. rewrite Hmax.
  rewrite <- E. unfold TableParser._normalize_table, t.
  fold t. rewrite map_map. apply map_ext_in.
  intros r Hr. apply clean_row_fixed. now apply max_cols_bound.
Qed.

(** ** Context retriever: the chunks of a text *)

Section ChunkFacts.
Import Retriever.
Variable chunk_size : nat.
Variable sentences : list str.

(** A chunk is not empty, and it exceeds the chunk size by more than the
    blank that joins two sentences only when it is one sentence. *)
Let fits (chunk : str) : Prop :=
  chunk <> [] /\ (length chunk <= chunk_size + 1 \/ In chunk sentences).

Let inv (st : list str * str) : Prop :=
  Forall fits (fst st) /\ (snd st = [] \/ fits (snd st)).

Lemma add_sentence_inv (st : list str * str) (sentence : str) :
  In sentence sentences -> inv st -> inv (add_sentence chunk_size st sentence).
Proof.
  destruct st as [chunks current]. unfold inv, add_sentence. simpl fst. simpl snd.
  intros Hin [Hchunks Hcur].
  assert (Hs : sentence = [] \/ fits sentence).
  { destruct sentence; [now left | right]. split; [discriminate | now right]. }
  destruct (length current + length sentence <=? chunk_size) eqn:E.
  - apply Nat.leb_le in E. simpl. split; [exact Hchunks|].
    destruct current as [|c current]; [|right; split; [discriminate|left]].
    + destruct sentence as [|ch sentence]; [now left | right].
      split; [discriminate | left]. simpl in *. lia.
    + rewrite !length_app. simpl in *. lia.
  - simpl. split; [|exact Hs].
    destruct current as [|c current]; [exact Hchunks|].
    apply Forall_app. split; [exact Hchunks|].
    constructor; [|constructor]. destruct Hcur as [Hcur|Hcur]; [discriminate | exact Hcur].
Qed.

Lemma fold_add_sentence_inv (l : list str) :
  forall st, incl l sentences -> inv st ->
             inv (fold_left (add_sentence chunk_size) l st).
Proof.
  induction l as [|x l IH]; intros st Hincl Hst; [exact Hst|].
  simpl. apply IH.
  - intros y Hy. apply Hincl. now right.
  - apply add_sentence_inv; [|exact Hst]. apply Hincl. now left.
Qed.

Lemma chunks_of_sentences :
  let st := fold_left (add_sentence chunk_size) sentences ([], []) in
  Forall fits (match snd st with [] => fst st | _ => fst st ++ [snd st] end).
Proof.
  intros st.
  assert (H : inv st).
  { apply fold_add_sentence_inv; [apply incl_refl|]. split; [constructor | now left]. }
  destruct H as [Hchunks Hcur].
  destruct (snd st) as [|c current] eqn:E; [exact Hchunks|].
  apply Forall_app. split; [exact Hchunks|].
  constructor; [|constructor]. destruct Hcur as [Hcur|Hcur]; [discriminate | exact Hcur].
Qed.

End ChunkFacts.

(** X8. [_split_into_chunks]: no chunk is empty, and a chunk is longer
    than the chunk size plus one (the blank that joins the last sentence)
    only when it is a single sentence of a paragraph. *)
Theorem split_into_chunks_bounds (x : str) (chunk_size : nat) :
  Forall (fun chunk =>
            chunk <> [] /\
            (length chunk <= chunk_size + 1 \/
             exists para,
               In para (Re.split (Re.seqs [Retriever.newline; Re.star Re.space;
                                           Retriever.newline]) x) /\
               In chunk (Re.split (Seq (Behind (Re.one_of ".!?")) (Re.plus Re.space))
                                  (Str.strip para))))
         (Retriever._split_into_chunks x chunk_size).
Proof.
  unfold Retriever._split_into_chunks.
  apply Forall_flat_map. apply Forall_forall. intros para0 Hpara.
  destruct (Str.strip para0) as [|c para] eqn:E; [constructor|].
  destruct (length (c :: para) <=? chunk_size) eqn:El.
  - apply Nat.leb_le in El. constructor; [|constructor].
    split; [discriminate | left; lia].
  - rewrite <- E.
    set (sentences := Re.split _ (Str.strip para0)).
    pose proof (chunks_of_sentences chunk_size sentences) as H. cbv zeta in H.
    destruct (fold_left (Retriever.add_sentence chunk_size) sentences ([], []))
      as [chunks current].
    simpl fst in H. simpl snd in H.
    eapply Forall_impl; [|exact H].
    intros chunk [Hne [Hlen|Hin]]; (split; [exact Hne|]); [now left | right].
    exists para0. split; [exact Hpara | exact Hin].
Qed.

(** ** QA engine: the fields a context is taken from *)

Lemma overlap_pos (a b : list str) :
  0 < Retriever.overlap a b -> exists w, In w a /\ In w b.
Proof.
  unfold Retriever.overlap. intros H.
  destruct (filter _ a) as [|w l] eqn:E; [simpl in H; lia|].
  assert (Hin : In w (filter (fun x => Str.mem x b) a)) by (rewrite E; now left).
  apply filter_In in Hin as [Ha Hb]. exists w. split; [exact Ha|].
  now apply str_mem_In.
Qed.

Lemma frac_zero (b : nat) : (SchemaDetector.frac 0 b == 0)%Q.
Proof. reflexivity. Qed.

(** X9. [_retrieve_context]: every source field is a field of the document
    whose name or value shares with the question a word that is not a stop
    word. *)
Theorem source_fields_share_a_word
        (py_str : value -> str) (top_k : nat) (use_embeddings : bool)
        (embedder : option (str -> list str -> list str))
        (question : str) (document : QAEngine.FormDocument) :
  Forall (fun f =>
            exists v w,
              In (f, v) (QAEngine.fields document) /\
              In w (QAEngine.word_set (Str.lower question)) /\
              ~ In w QAEngine.stop_words /\
              (In w (QAEngine.word_set (Str.lower f)) \/
               In w (QAEngine.word_set (Str.lower (py_str v)))))
         (snd (QAEngine._retrieve_context py_str top_k use_embeddings embedder
                                          question document)).
Proof.
  unfold QAEngine._retrieve_context. cbn [snd].
  apply Forall_forall. intros f Hf.
  apply in_map_iff in Hf as [[f' v] [Ef Hin]]. simpl in Ef. subst f'.
  apply filter_In in Hin as [Hin Hrel]. cbn [fst snd] in Hrel.
  exists v.
  unfold QAEngine._calculate_relevance in Hrel.
  set (qt := filter _ (QAEngine.word_set (Str.lower question))) in Hrel.
  set (n := Nat.max 1 (length qt)) in Hrel.
  assert (Hshare : 0 < Retriever.overlap qt (QAEngine.word_set (Str.lower f)) \/
                   0 < Retriever.overlap qt (QAEngine.word_set (Str.lower (py_str v)))).
  { revert Hrel.
    destruct (Retriever.overlap qt (QAEngine.word_set (Str.lower f))) eqn:E1;
      [|intros _; left; lia].
    destruct (Retriever.overlap qt (QAEngine.word_set (Str.lower (py_str v)))) eqn:E2;
      [|intros _; right; lia].
    intros Hrel. exfalso. unfold QAEngine.Qmax in Hrel.
    match type of Hrel with
    | context [if ?b then _ else _] => destruct b
    end; apply Qltb_lt in Hrel; unfold Qlt, SchemaDetector.frac in Hrel;
      simpl in Hrel; lia. }
  assert (Hqt : forall w, In w qt ->
                          In w (QAEngine.word_set (Str.lower question)) /\
                          ~ In w QAEngine.stop_words).
  { intros w Hw. apply filter_In in Hw as [Hw Hs]. split; [exact Hw|].
    intros Hstop. apply str_mem_In in Hstop. rewrite Hstop in Hs. discriminate. }
  destruct Hshare as [H|H]; apply overlap_pos in H as [w [Hw Hw']];
    exists w; destruct (Hqt w Hw) as [Hq Hs]; repeat split; auto.
Qed.

(** ** Sorting *)

Section SortedFacts.
Variable A : Type.
Variable lt : A -> A -> bool.

Lemma insert_perm (x : A) (l : list A) :
  Permutation (Builtins.insert lt x l) (x :: l).
Proof.
  induction l as [|y l IH]; simpl; [apply Permutation_refl|].
  destruct (lt x y); [|apply Permutation_refl].
  eapply Permutation_trans; [apply perm_skip, IH | apply perm_swap].
Qed.

Lemma sorted_reverse_perm (l : list A) :
  Permutation (Builtins.sorted_reverse lt l) l.
Proof.
  unfold Builtins.sorted_reverse.
  induction l as [|x l IH]; simpl; [constructor|].
  eapply Permutation_trans; [apply insert_perm | now apply perm_skip].
Qed.

Lemma sorted_reverse_In (l : list A) (x : A) :
  In x (Builtins.sorted_reverse lt l) <-> In x l.
Proof.
  split; apply Permutation_in;
    [apply sorted_reverse_perm | apply Permutation_sym, sorted_reverse_perm].
Qed.

Lemma sorted_reverse_Forall (P : A -> Prop) (l : list A) :
  Forall P l -> Forall P (Builtins.sorted_reverse lt l).
Proof.
  intros H. eapply Permutation_Forall; [|exact H].
  apply Permutation_sym, sorted_reverse_perm.
Qed.

(** On elements whose keys are totally ordered, the result is in
    descending order. *)
Variable ok : A -> Prop.
Hypothesis lt_asym : forall a b, ok a -> ok b -> lt a b = true -> lt b a = false.
Hypothesis lt_trans :
  forall a b c, ok a -> ok b -> ok c ->
                lt a b = false -> lt b c = false -> lt a c = false.

Let descending : list A -> Prop := StronglySorted (fun a b => lt a b = false).

Lemma insert_descending (x : A) (l : list A) :
  ok x -> Forall ok l -> descending l -> descending (Builtins.insert lt x l).
Proof.
  intros Hx Hl Hs. induction Hs as [|y l Hs IH Hy]; simpl.
  - constructor; constructor.
  - inversion Hl as [|? ? Hoky Hokl]; subst.
    destruct (lt x y) eqn:E.
    + constructor; [now apply IH|].
      eapply Permutation_Forall; [apply Permutation_sym, insert_perm|].
      constructor; [now apply lt_asym | exact Hy].
    + constructor; [now constructor|].
      constructor; [exact E|].
      rewrite Forall_forall in *. intros z Hz.
      apply (lt_trans x y z); auto.
Qed.

Lemma sorted_reverse_descending (l : list A) :
  Forall ok l -> descending (Builtins.sorted_reverse lt l).
Proof.
  unfold Builtins.sorted_reverse.
  induction 1 as [|x l Hx Hl IH]; simpl; [constructor|].
  apply insert_descending; [exact Hx | | exact IH].
  now apply sorted_reverse_Forall.
Qed.

End SortedFacts.

(** ** Schema detector: all the matches *)

Lemma StronglySorted_impl (A : Type) (R S : A -> A -> Prop) (l : list A) :
  (forall a b, R a b -> S a b) -> StronglySorted R l -> StronglySorted S l.
Proof.
  intros HRS. induction 1 as [|a l _ IH Ha]; constructor; [exact IH|].
  eapply Forall_impl; [|exact Ha]. intros b. apply HRS.
Qed.

Lemma min1_bounds (x : Q) :
  (0 < x)%Q -> (0 < SchemaDetector.min1 x)%Q /\ (SchemaDetector.min1 x <= 1)%Q.
Proof.
  intros Hx. unfold SchemaDetector.min1.
  destruct (Qle_bool 1 x) eqn:E.
  - split; [reflexivity | apply Qle_refl].
  - split; [exact Hx|].
    apply Qlt_le_weak. apply Qnot_le_lt. intros H.
    apply Qle_bool_iff in H. congruence.
Qed.

Lemma Qltb_asym (a b : Q) :
  SchemaDetector.Qltb a b = true -> SchemaDetector.Qltb b a = false.
Proof.
  intros H. apply Qltb_lt in H. apply Qltb_ge. now apply Qlt_le_weak.
Qed.

Lemma Qltb_trans (a b c : Q) :
  SchemaDetector.Qltb a b = false -> SchemaDetector.Qltb b c = false ->
  SchemaDetector.Qltb a c = false.
Proof.
  intros H1 H2. apply Qltb_ge in H1, H2. apply Qltb_ge.
  eapply Qle_trans; eassumption.
Qed.

(** The confidences are compared as rationals in the model and as
    binary64 floats in the code.  On every pair of counts that types of the
    catalog can have the two comparisons agree, so the sorted order is the
    same. *)
Lemma confidence_order_binary64 :
  forallb (fun a =>
             forallb (fun b =>
                        Bool.eqb
                          (PrimFloat.ltb (confidence_binary64 (fst a) (snd a))
                                         (confidence_binary64 (fst b) (snd b)))
                          (SchemaDetector.Qltb
                             (SchemaDetector.min1
                                (SchemaDetector.frac (fst a) (snd a) * 1.2))
                             (SchemaDetector.min1
                                (SchemaDetector.frac (fst b) (snd b) * 1.2))))
                     catalog_counts)
          catalog_counts = true.
Proof. vm_compute. reflexivity. Qed.

Section AllMatches.
Import SchemaDetector.
Variable py_str : value -> str.

(** The matches before they are sorted: the match of every listed type,
    in the order of the catalog. *)
Lemma all_matches_unsorted (hay : str) (catalog : list schema_def) :
  flat_map (fun d =>
              match matched hay d with
              | [] => []
              | matched_indicators =>
                let sc := frac (length matched_indicators)
                               (length (sd_indicators d)) in
                [mkSchemaMatch (sd_type d) (min1 (sc * 1.2)%Q)
                               matched_indicators (sd_category d)]
              end) catalog
  = map (the_match hay) (filter (listed hay) catalog).
Proof.
  match goal with |- flat_map ?f _ = _ => set (step := f) end.
  induction catalog as [|d catalog IH]; [reflexivity|].
  change (flat_map step (d :: catalog)) with (step d ++ flat_map step catalog).
  rewrite IH. cbn [filter].
  assert (Hl : listed hay d = match matched hay d with [] => false | _ => true end)
    by (unfold listed; now destruct (matched hay d)).
  rewrite Hl. unfold step.
  destruct (matched hay d) eqn:E; [reflexivity|].
  cbn [map app]. f_equal. unfold the_match, score. now rewrite E.
Qed.

Lemma detect_all_matches_perm (text : str) (fields : option fieldmap) :
  text <> [] ->
  Permutation (detect_all_matches py_str text fields)
              (map (the_match (search_text py_str text fields))
                   (filter (listed (search_text py_str text fields)) schemas)).
Proof.
  intros Hne. unfold detect_all_matches.
  destruct text as [|c text]; [contradiction|].
  cbv zeta. rewrite all_matches_unsorted. apply sorted_reverse_perm.
Qed.

Lemma the_match_confidence (hay : str) (d : schema_def) :
  listed hay d = true ->
  (0 < confidence (the_match hay d))%Q /\ (confidence (the_match hay d) <= 1)%Q.
Proof.
  unfold listed. intros H. apply Nat.ltb_lt in H.
  unfold the_match. cbn [confidence]. apply min1_bounds.
  unfold score.
  apply (Qlt_le_trans _ (frac (length (matched hay d)) (length (sd_indicators d)) * 1)).
  - rewrite Qmult_1_r. now apply frac_pos.
  - apply Qlt_le_weak. rewrite !(Qmult_comm (frac _ _)).
    apply Qmult_lt_compat_r; [now apply frac_pos | reflexivity].
Qed.

End AllMatches.

(** X10. [detect_all_matches] lists the match of every schema type that
    has an indicator in the text (for a text that is not empty; nothing
    for the empty text), by descending confidence, and every confidence
    lies between 0, excluded, and 1. *)
Theorem detect_all_matches_listing
        (py_str : value -> str) (text : str) (fields : option fieldmap) :
  let hay := SchemaDetector.search_text py_str text fields in
  let ms := SchemaDetector.detect_all_matches py_str text fields in
  (text = [] -> ms = []) /\
  (text <> [] ->
   Permutation ms (map (the_match hay) (filter (listed hay) SchemaDetector.schemas))) /\
  StronglySorted
    (fun a b => (SchemaDetector.confidence b <= SchemaDetector.confidence a)%Q) ms /\
  Forall (fun m => (0 < SchemaDetector.confidence m)%Q /\
                   (SchemaDetector.confidence m <= 1)%Q) ms.
Proof.
  intros hay ms. split; [intros ->; reflexivity|].
  split; [apply detect_all_matches_perm|].
  split.
  - unfold ms, SchemaDetector.detect_all_matches.
    destruct text as [|c text]; [constructor|]. cbv zeta.
    eapply StronglySorted_impl;
      [|apply (sorted_reverse_descending _ _ (fun _ => True))].
    + intros a b H. cbv beta in H. now apply Qltb_ge in H.
    + intros a b _ _. apply Qltb_asym.
    + intros a b c0 _ _ _. apply Qltb_trans.
    + apply Forall_forall. tauto.
  - destruct text as [|c text]; [constructor|].
    eapply Permutation_Forall;
      [apply Permutation_sym, detect_all_matches_perm; discriminate|].
    apply Forall_forall. intros m Hm.
    apply in_map_iff in Hm as [d [<- Hd]]. apply filter_In in Hd as [_ Hd].
    now apply the_match_confidence.
Qed.

(** X11. The match that [detect_with_confidence] returns is one of the
    matches that [detect_all_matches] lists. *)
Theorem detect_all_matches_has_best
        (py_str : value -> str) (text : str) (fields : option fieldmap)
        (m : SchemaDetector.SchemaMatch) :
  SchemaDetector.detect_with_confidence py_str text fields = Some m ->
  In m (SchemaDetector.detect_all_matches py_str text fields).
Proof.
  unfold SchemaDetector.detect_with_confidence, SchemaDetector.detect_in.
  destruct text as [|c text]; [discriminate|].
  set (t := c :: text). set (hay := SchemaDetector.search_text py_str t fields).
  intros Hm.
  assert (Hinv : loop_inv hay ([] ++ SchemaDetector.schemas)
                   (fold_left (SchemaDetector.consider hay) SchemaDetector.schemas
                              (None, 0%Q))).
  { apply fold_consider_inv; [apply schemas_well_formed|].
    left. split; [reflexivity | intros d []]. }
  destruct Hinv as [[Hst _]|[d [Hbest Hst]]].
  - rewrite Hst in Hm. discriminate.
  - rewrite Hst in Hm. injection Hm as <-.
    destruct Hbest as [p1 [p2 [Hcat [Hcand _]]]]. simpl app in Hcat.
    assert (Hin : In d SchemaDetector.schemas)
      by (rewrite Hcat; apply in_or_app; right; now left).
    eapply Permutation_in;
      [apply Permutation_sym, detect_all_matches_perm; discriminate|].
    fold t. fold hay. apply in_map. apply filter_In. split; [exact Hin|].
    unfold listed. apply Nat.ltb_lt.
    pose proof schemas_well_formed as Hwf. rewrite Forall_forall in Hwf.
    specialize (Hwf d Hin). unfold well_formed in Hwf. unfold candidate in Hcand.
    lia.
Qed.

Lemma detect_all_matches_has_best_witness :
  exists m,
    SchemaDetector.detect_with_confidence str_of_text w2_text None = Some m /\
    In m (SchemaDetector.detect_all_matches str_of_text w2_text None).
Proof.
  destruct (SchemaDetector.detect_with_confidence str_of_text w2_text None)
    as [m|] eqn:E; [|vm_compute in E; discriminate E].
  exists m. split; [reflexivity|].
  exact (detect_all_matches_has_best str_of_text w2_text None m E).
Defined.

(** ** Field parser: the confidence of a field *)

Lemma confidence_of_value (a b c d : bool) :
  In (confidence_of a b c d) confidence_values.
Proof.
  unfold confidence_values.
  apply in_flat_map. exists a. split; [destruct a; simpl; tauto|].
  apply in_flat_map. exists b. split; [destruct b; simpl; tauto|].
  apply in_flat_map. exists c. split; [destruct c; simpl; tauto|].
  apply in_map. destruct d; simpl; tauto.
Qed.

Lemma calculate_confidence_of (name value : str) :
  FieldParser._calculate_confidence name value =
  confidence_of ((2 <? length name) && (length name <? 50))
                ((1 <? length value) && (length value <? 200))
                (existsb (fun cf => Str.contains cf (Str.lower name))
                         FieldParser.common_fields)
                (200 <? length value).
Proof. reflexivity. Qed.

Lemma confidence_values_asym :
  forallb (fun a =>
             forallb (fun b => implb (PrimFloat.ltb a b) (negb (PrimFloat.ltb b a)))
                     confidence_values)
          confidence_values = true.
Proof. vm_compute. reflexivity. Qed.

Lemma confidence_values_trans :
  forallb (fun a =>
    forallb (fun b =>
      forallb (fun c =>
                 implb (negb (PrimFloat.ltb a b) && negb (PrimFloat.ltb b c))
                       (negb (PrimFloat.ltb a c)))
              confidence_values)
            confidence_values)
          confidence_values = true.
Proof. vm_compute. reflexivity. Qed.

(** X12. [_calculate_confidence] exceeds 0.3, the threshold of
    [parse_with_confidence], unless the value has more than 200 characters
    while the name has at most 2 or at least 50 characters and holds none
    of the common field words; it always lies between 0.3 and 0.9, so the
    clamp to the range from 0 to 1 never takes effect. *)
Theorem calculate_confidence_threshold (name value : str) :
  let reasonable_name := (2 <? length name) && (length name <? 50) in
  let common :=
    existsb (fun cf => Str.contains cf (Str.lower name)) FieldParser.common_fields in
  let c := FieldParser._calculate_confidence name value in
  PrimFloat.ltb FieldParser.three_tenths c
  = negb ((200 <? length value) && negb reasonable_name && negb common) /\
  PrimFloat.leb FieldParser.three_tenths c = true /\
  PrimFloat.leb c nine_tenths = true.
Proof.
  intros reasonable_name common c. unfold c.
  rewrite calculate_confidence_of. fold reasonable_name. fold common.
  destruct (200 <? length value) eqn:E.
  - apply Nat.ltb_lt in E.
    assert (Hv : (length value <? 200) = false) by (apply Nat.ltb_ge; lia).
    rewrite Hv, andb_false_r.
    destruct reasonable_name, common; vm_compute; repeat split; reflexivity.
  - destruct reasonable_name, ((1 <? length value) && (length value <? 200)), common;
      vm_compute; repeat split; reflexivity.
Qed.

(** X13. [parse_with_confidence] returns its matches by descending
    confidence; every match has the confidence of its name and value, which
    exceeds 0.3. *)
Theorem parse_with_confidence_sorted (text : str) :
  let results := FieldParser.parse_with_confidence text in
  StronglySorted
    (fun a b => PrimFloat.ltb (FieldParser.fm_confidence a)
                              (FieldParser.fm_confidence b) = false) results /\
  Forall (fun r =>
            FieldParser.fm_confidence r =
            FieldParser._calculate_confidence (FieldParser.fm_name r)
                                              (FieldParser.fm_value r) /\
            PrimFloat.ltb FieldParser.three_tenths (FieldParser.fm_confidence r)
            = true) results.
Proof.
  intros results. unfold results, FieldParser.parse_with_confidence.
  set (found := flat_map _ FieldParser.patterns).
  assert (Hfound : Forall (fun r =>
            FieldParser.fm_confidence r =
            FieldParser._calculate_confidence (FieldParser.fm_name r)
                                              (FieldParser.fm_value r) /\
            PrimFloat.ltb FieldParser.three_tenths (FieldParser.fm_confidence r)
            = true) found).
  { unfold found. apply Forall_flat_map, Forall_forall. intros pattern _.
    apply Forall_flat_map, Forall_forall. intros m _.
    destruct (PrimFloat.ltb _ _) eqn:E; constructor; [|constructor].
    split; [reflexivity | exact E]. }
  clearbody found. split; [|now apply sorted_reverse_Forall].
  apply (sorted_reverse_descending _ _
           (fun r => In (FieldParser.fm_confidence r) confidence_values)).
  - intros a b Ha Hb H.
    pose proof confidence_values_asym as Hall.
    rewrite forallb_forall in Hall. specialize (Hall _ Ha).
    rewrite forallb_forall in Hall. specialize (Hall _ Hb).
    rewrite H in Hall. simpl in Hall. now apply negb_true_iff in Hall.
  - intros a b c Ha Hb Hc H1 H2.
    pose proof confidence_values_trans as Hall.
    rewrite forallb_forall in Hall. specialize (Hall _ Ha).
    rewrite forallb_forall in Hall. specialize (Hall _ Hb).
    rewrite forallb_forall in Hall. specialize (Hall _ Hc).
    rewrite H1, H2 in Hall. simpl in Hall. now apply negb_true_iff in Hall.
  - eapply Forall_impl; [|exact Hfound].
    intros r [Hr _]. rewrite Hr, calculate_confidence_of.
    apply confidence_of_value.
Qed.

(** ** Context retriever: the field and table strategies *)

Lemma Qltb_frac_pos (a b : nat) :
  SchemaDetector.Qltb 0 (SchemaDetector.frac a b) = (0 <? a).
Proof.
  apply eq_true_iff_eq. rewrite Qltb_lt, Nat.ltb_lt.
  unfold Qlt, SchemaDetector.frac. simpl. lia.
Qed.

Lemma overlap_pos_iff (a b : list str) :
  (0 <? Retriever.overlap a b) = existsb (fun w => Str.mem w b) a.
Proof.
  unfold Retriever.overlap.
  induction a as [|w a IH]; [reflexivity|].
  simpl. destruct (Str.mem w b); [reflexivity | exact IH].
Qed.

Lemma existsb_orb (A : Type) (f g : A -> bool) (l : list A) :
  existsb (fun x => f x || g x) l = existsb f l || existsb g l.
Proof.
  induction l as [|x l IH]; [reflexivity|].
  simpl. rewrite IH. destruct (f x), (g x), (existsb f l); reflexivity.
Qed.

Lemma ltb_sum_pos (a b : nat) : (0 <? a * 2 + b) = (0 <? a) || (0 <? b).
Proof.
  apply eq_true_iff_eq. rewrite orb_true_iff, !Nat.ltb_lt. lia.
Qed.

(** X14. The field strategy of the retriever returns, in the order of the
    fields, one result for every field whose name or value shares a term
    with the query, with the name of the field as its source and a score
    above 0 and at most 1. *)
Theorem retrieve_from_fields_selection
        (py_str : value -> str) (query : str) (fields : fieldmap) :
  let query_terms := Retriever.terms (Str.lower query) in
  let shares (kv : str * value) :=
    existsb (fun w =>
               Str.mem w (Retriever.terms (Str.lower (fst kv))) ||
               Str.mem w (Retriever.terms (Str.lower (py_str (snd kv)))))
            query_terms in
  let results := Retriever._retrieve_from_fields py_str query fields in
  map Retriever.source results = map fst (filter shares fields) /\
  Forall (fun r => (0 < Retriever.score r)%Q /\ (Retriever.score r <= 1)%Q /\
                   Retriever.chunk_type r = Retriever.KField) results.
Proof.
  intros query_terms shares results.
  unfold results, Retriever._retrieve_from_fields. fold query_terms.
  split.
  - induction fields as [|kv fields IH]; [reflexivity|].
    cbn [flat_map filter]. rewrite map_app, IH.
    rewrite Qltb_frac_pos, ltb_sum_pos, !overlap_pos_iff.
    unfold shares at 2. rewrite existsb_orb.
    destruct (existsb _ query_terms || existsb _ query_terms); reflexivity.
  - apply Forall_flat_map, Forall_forall. intros kv _.
    destruct (SchemaDetector.Qltb 0 _) eqn:E; constructor; [|constructor].
    apply Qltb_lt in E. cbn [Retriever.score Retriever.chunk_type].
    destruct (min1_bounds _ E) as [H0 H1]. auto.
Qed.

Lemma combine_seq_In (A : Type) (l : list A) :
  forall start i x, In (i, x) (combine (seq start (length l)) l) ->
                    start <= i /\ nth_error l (i - start) = Some x.
Proof.
  induction l as [|a l IH]; intros start i x Hin; [contradiction|].
  simpl in Hin. destruct Hin as [[= <- <-]|Hin].
  - rewrite Nat.sub_diag. split; [lia | reflexivity].
  - apply IH in Hin as [Hle Hnth]. split; [lia|].
    replace (i - start) with (S (i - S start)) by lia. exact Hnth.
Qed.

Lemma enumerate_In (A : Type) (l : list A) (i : nat) (x : A) :
  In (i, x) (Builtins.enumerate l) -> nth_error l i = Some x.
Proof.
  intros Hin. apply combine_seq_In in Hin as [_ Hnth].
  now rewrite Nat.sub_0_r in Hnth.
Qed.

(** X15. The table strategy returns only tables that have a row, named
    "Table" with their position in the document counted from 1, with at
    most the first 500 characters of their text and a score above 0.1 and
    at most 1. *)
Theorem retrieve_from_tables_results
        (query : str) (tables : list (list (list str))) :
  Forall (fun r =>
            exists i tb,
              nth_error tables i = Some tb /\ tb <> [] /\
              Retriever.source r = s "Table " ++ Str.of_nat (i + 1) /\
              Retriever.text r = firstn 500 (Retriever.table_text tb) /\
              (0.1 < Retriever.score r)%Q /\ (Retriever.score r <= 1)%Q /\
              Retriever.chunk_type r = Retriever.KTable)
         (Retriever._retrieve_from_tables query tables).
Proof.
  unfold Retriever._retrieve_from_tables.
  apply Forall_flat_map, Forall_forall. intros [i tb] Hin.
  cbn [fst snd].
  destruct tb as [|row tb]; [constructor|].
  destruct (SchemaDetector.Qltb 0.1 _) eqn:E; constructor; [|constructor].
  apply Qltb_lt in E. exists i, (row :: tb).
  cbn [Retriever.source Retriever.text Retriever.score Retriever.chunk_type].
  split; [now apply enumerate_In|].
  split; [discriminate|]. split; [reflexivity|]. split; [reflexivity|].
  split; [|split; [|reflexivity]].
  - unfold SchemaDetector.min1. destruct (Qle_bool 1 _); [reflexivity | exact E].
  - apply min1_bounds. eapply Qlt_trans; [|exact E]. reflexivity.
Qed.

(** X16. A query without a word of three characters retrieves nothing:
    the field, table and text strategies all return the empty list. *)
Theorem retrieve_nothing_without_terms
        (py_str : value -> str) (query : str) (fields : fieldmap)
        (tables : list (list (list str))) (x : str) :
  Retriever.terms (Str.lower query) = [] ->
  Retriever._retrieve_from_fields py_str query fields = [] /\
  Retriever._retrieve_from_tables query tables = [] /\
  Retriever._retrieve_from_text query x = [].
Proof.
  intros Hq.
  unfold Retriever._retrieve_from_fields, Retriever._retrieve_from_tables,
    Retriever._retrieve_from_text, Retriever.base_score.
  rewrite Hq. repeat split.
  - apply flat_map_nil. intros kv _. reflexivity.
  - apply flat_map_nil. intros [i tb] _. now destruct tb.
  - destruct x; [reflexivity|]. apply flat_map_nil. intros chunk _. reflexivity.
Qed.

Lemma retrieve_nothing_without_terms_witness :
  Retriever.terms (Str.lower "is it ok") = [] /\
  Retriever._retrieve_from_fields str_of_text "is it ok" w2_fields = [] /\
  Retriever._retrieve_from_tables "is it ok" [one_row_table] = [] /\
  Retriever._retrieve_from_text "is it ok" w2_text = [].
Proof.
  assert (H : Retriever.terms (Str.lower "is it ok") = []) by (vm_compute; reflexivity).
  split; [exact H|].
  exact (retrieve_nothing_without_terms str_of_text "is it ok" w2_fields
           [one_row_table] w2_text H).
Defined.

(** ** Parsed tables: rows as dictionaries *)

Section RowDict.
Import ParsedTables.
Variable row : list str.

Let step (acc : option (Dict.t str)) (ih : nat * str) : option (Dict.t str) :=
  match acc with
  | Some d =>
    match nth_error row (fst ih) with
    | Some cell => Some (Dict.set (snd ih) cell d)
    | None => None
    end
  | None => None
  end.

Lemma row_dict_fold_none (l : list (nat * str)) : fold_left step l None = None.
Proof. induction l as [|ih l IH]; [reflexivity | exact IH]. Qed.

Lemma row_dict_fold_some (hs : list str) :
  forall start d,
    start + length hs <= length row ->
    exists d',
      fold_left step (combine (seq start (length hs)) hs) (Some d) = Some d' /\
      forall h, Dict.get h d' =
                match last_index h hs with
                | Some k => nth_error row (start + k)
                | None => Dict.get h d
                end.
Proof.
  induction hs as [|h0 hs IH]; intros start d Hlen.
  - exists d. split; [reflexivity|]. intros h. reflexivity.
  - simpl in Hlen. simpl combine. simpl fold_left.
    destruct (nth_error row start) as [cell|] eqn:E;
      [|apply nth_error_None in E; lia].
    destruct (IH (S start) (Dict.set h0 cell d)) as [d' [Hd' Hget]]; [lia|].
    exists d'. split; [exact Hd'|]. intros h. rewrite Hget. simpl last_index.
    destruct (last_index h hs) as [k|].
    + f_equal. lia.
    + rewrite dict_get_set. destruct (Str.eqb h h0); [|reflexivity].
      now rewrite Nat.add_0_r.
Qed.

Lemma row_dict_fold_short (hs : list str) :
  forall start d,
    start <= length row -> length row < start + length hs ->
    fold_left step (combine (seq start (length hs)) hs) (Some d) = None.
Proof.
  induction hs as [|h0 hs IH]; intros start d Hle Hlt; [simpl in Hlt; lia|].
  simpl in Hlt. simpl combine. simpl fold_left.
  destruct (nth_error row start) as [cell|] eqn:E.
  - apply IH; [|lia].
    assert (start < length row) by (apply nth_error_Some; congruence). lia.
  - apply row_dict_fold_none.
Qed.

Lemma row_dict_some (headers : list str) :
  length headers <= length row ->
  exists d, row_dict headers row = Some d /\
            forall h, Dict.get h d =
                      match last_index h headers with
                      | Some k => nth_error row k
                      | None => None
                      end.
Proof.
  intros Hlen. destruct (row_dict_fold_some headers 0 [] Hlen) as [d [Hd Hget]].
  exists d. split; [exact Hd|]. intros h. rewrite Hget.
  destruct (last_index h headers); reflexivity.
Qed.

Lemma row_dict_none (headers : list str) :
  length row < length headers -> row_dict headers row = None.
Proof. intros Hlt. apply row_dict_fold_short; lia. Qed.

End RowDict.

Lemma all_some_Forall2 (A B : Type) (f : A -> option B) (R : A -> B -> Prop)
      (l : list A) :
  Forall (fun a => exists b, f a = Some b /\ R a b) l ->
  exists r, ParsedTables.all_some (map f l) = Some r /\ Forall2 R l r.
Proof.
  induction 1 as [|a l [b [Hb HR]] _ [r [Hr HF]]].
  - exists []. split; [reflexivity | constructor].
  - exists (b :: r). simpl. rewrite Hb, Hr. split; [reflexivity | now constructor].
Qed.

Lemma all_some_none (A B : Type) (f : A -> option B) (l : list A) :
  ParsedTables.all_some (map f l) = None <-> Exists (fun a => f a = None) l.
Proof.
  induction l as [|a l IH]; simpl.
  - split; [discriminate | intros H; inversion H].
  - destruct (f a) as [b|] eqn:E.
    + destruct (ParsedTables.all_some (map f l)) as [r|].
      * split; [discriminate|]. intros H. inversion H as [? ? Ha|? ? Hl]; subst.
        -- congruence.
        -- apply IH in Hl. discriminate.
      * split; [|reflexivity]. intros _. right. now apply IH.
    + split; [|reflexivity]. intros _. now left.
Qed.

(** X17. [to_dict_list] raises (IndexError) exactly when a row has fewer
    cells than the table has headers.  Otherwise it gives one dictionary
    for every row, which maps a header to the cell of the row in the last
    column of that name and has no other key. *)
Theorem to_dict_list_defined (p : TableParser.ParsedTable) :
  (ParsedTables.to_dict_list p = None <->
   Exists (fun row => length row < length (TableParser.headers p))
          (TableParser.rows p)) /\
  forall dicts,
    ParsedTables.to_dict_list p = Some dicts ->
    Forall2 (fun row d =>
               forall h, Dict.get h d =
                         match last_index h (TableParser.headers p) with
                         | Some k => nth_error row k
                         | None => None
                         end)
            (TableParser.rows p) dicts.
Proof.
  unfold ParsedTables.to_dict_list. split.
  - rewrite all_some_none. split; intros H; apply Exists_exists in H as [row [Hin Hrow]];
      apply Exists_exists; exists row; (split; [exact Hin|]).
    + destruct (Nat.lt_ge_cases (length row) (length (TableParser.headers p)))
        as [Hlt|Hge]; [exact Hlt|].
      destruct (row_dict_some row _ Hge) as [d [Hd _]]. congruence.
    + now apply row_dict_none.
  - intros dicts Hd.
    assert (Hall : Forall (fun row =>
               exists d, ParsedTables.row_dict (TableParser.headers p) row = Some d /\
                 forall h, Dict.get h d =
                           match last_index h (TableParser.headers p) with
                           | Some k => nth_error row k
                           | None => None
                           end) (TableParser.rows p)).
    { apply Forall_forall. intros row Hin.
      destruct (Nat.lt_ge_cases (length row) (length (TableParser.headers p)))
        as [Hlt|Hge]; [|now apply row_dict_some].
      exfalso.
      assert (Hn : ParsedTables.all_some
                     (map (ParsedTables.row_dict (TableParser.headers p))
                          (TableParser.rows p)) = None).
      { apply all_some_none. apply Exists_exists. exists row.
        split; [exact Hin | now apply row_dict_none]. }
      congruence. }
    destruct (all_some_Forall2 _ _ _ _ _ Hall) as [r [Hr HF]].
    rewrite Hr in Hd. injection Hd as <-. exact HF.
Qed.

(** ** Parsed tables: the tables that [parse] builds *)

Lemma detect_headers_first (tb : TableParser.table) (detected : list str) :
  TableParser._detect_headers tb = (true, detected) ->
  exists rest, tb = detected :: rest.
Proof.
  unfold TableParser._detect_headers.
  destruct tb as [|first [|second rest]]; try discriminate.
  cbv zeta. destruct (2 <=? _); [|discriminate].
  intros [= <-]. eexists. reflexivity.
Qed.

Lemma length_column_names (n : nat) : length (TableParser.column_names n) = n.
Proof. unfold TableParser.column_names. now rewrite length_map, length_seq. Qed.

Lemma parse_table_widths (tb : TableParser.table) (p : TableParser.ParsedTable) :
  TableParser.parse_table tb = Some p ->
  Forall (fun row => length row = length (TableParser.headers p)) (TableParser.rows p) /\
  TableParser.column_count p = length (TableParser.headers p) /\
  TableParser.row_count p = length (TableParser.rows p).
Proof.
  unfold TableParser.parse_table.
  destruct tb as [|r tb]; [discriminate|].
  pose proof (normalize_rows (r :: tb)) as Hall.
  destruct (TableParser._normalize_table (r :: tb)) as [|first rest] eqn:En;
    [discriminate|].
  destruct (TableParser._detect_headers (first :: rest)) as [hh detected] eqn:Ed.
  intros [= <-]. cbn [TableParser.headers TableParser.rows
                      TableParser.column_count TableParser.row_count].
  split; [|split; reflexivity].
  inversion Hall as [|? ? Hfirst Hrest]; subst.
  destruct hh.
  - apply detect_headers_first in Ed as [rest' [= <- <-]].
    eapply Forall_impl; [|exact Hrest]. intros row Hrow. simpl in Hrow. congruence.
  - rewrite length_column_names.
    eapply Forall_impl; [|exact Hall]. intros row Hrow. simpl in Hrow. congruence.
Qed.

Lemma parse_In (raw_tables : list TableParser.table) (p : TableParser.ParsedTable) :
  In p (TableParser.parse raw_tables) ->
  exists tb, In tb raw_tables /\ TableParser.parse_table tb = Some p.
Proof.
  unfold TableParser.parse. intros Hin. apply in_flat_map in Hin as [tb [Htb Hp]].
  exists tb. split; [exact Htb|].
  destruct (TableParser.parse_table tb) as [p'|]; [|contradiction].
  destruct Hp as [<-|[]]. reflexivity.
Qed.

(** X18. On every table that [parse] builds, [column_count] and
    [row_count] are the numbers of its headers and rows, every row has one
    cell for each header, and [to_dict_list] gives one dictionary for each
    row. *)
Theorem parse_to_dict_list (raw_tables : list TableParser.table) :
  Forall (fun p =>
            TableParser.column_count p = length (TableParser.headers p) /\
            TableParser.row_count p = length (TableParser.rows p) /\
            Forall (fun row => length row = TableParser.column_count p)
                   (TableParser.rows p) /\
            exists dicts, ParsedTables.to_dict_list p = Some dicts /\
                          length dicts = TableParser.row_count p)
         (TableParser.parse raw_tables).
Proof.
  apply Forall_forall. intros p Hin.
  apply parse_In in Hin as [tb [_ Hp]].
  apply parse_table_widths in Hp as [Hrows [Hcc Hrc]].
  split; [exact Hcc|]. split; [exact Hrc|]. rewrite Hcc, Hrc.
  split; [exact Hrows|].
  unfold ParsedTables.to_dict_list.
  destruct (all_some_Forall2 _ _ (ParsedTables.row_dict (TableParser.headers p))
              (fun _ _ => True) (TableParser.rows p)) as [r [Hr HF]].
  - eapply Forall_impl; [|exact Hrows]. intros row Hrow. cbv beta in Hrow.
    destruct (row_dict_some row (TableParser.headers p)) as [d [Hd _]]; [lia|].
    exists d. split; [exact Hd | exact I].
  - exists r. split; [exact Hr|]. symmetry. eapply Forall2_length. exact HF.
Qed.

(** ** Parsed tables: aggregation *)

Lemma of_str_nil : PyFloat.of_str [] = None.
Proof. vm_compute. reflexivity. Qed.

Lemma is_numeric_number_of (cell : str) :
  TableParser._is_numeric cell =
  match ParsedTables.number_of cell with Some _ => true | None => false end.
Proof.
  unfold TableParser._is_numeric, ParsedTables.number_of.
  destruct cell as [|c cell]; [|reflexivity].
  simpl Re.delete. now rewrite of_str_nil.
Qed.

Lemma column_values_cells (p : TableParser.ParsedTable) (col_idx : nat) :
  length (ParsedTables.column_values p col_idx) =
  TableParser.count TableParser._is_numeric (column_cells p col_idx).
Proof.
  unfold ParsedTables.column_values, column_cells, TableParser.count.
  induction (TableParser.rows p) as [|row rows IH]; [reflexivity|].
  cbn [flat_map]. rewrite length_app, filter_app, length_app, IH. f_equal.
  destruct (nth_error row col_idx) as [cell|]; [|reflexivity].
  cbn [filter]. rewrite is_numeric_number_of.
  destruct (ParsedTables.number_of cell); reflexivity.
Qed.

(** X19. [aggregate] with the operation "count" gives the number of cells
    that [_is_numeric] accepts in the first column named as asked, and
    None when there is no such column or no such cell. *)
Theorem aggregate_count (p : TableParser.ParsedTable) (column : str) :
  ParsedTables.aggregate p column "count" =
  if Str.mem column (TableParser.headers p) then
    match TableParser.count TableParser._is_numeric
            (column_cells p (ParsedTables.index column (TableParser.headers p))) with
    | 0 => None
    | n => Some (ParsedTables.ACount n)
    end
  else None.
Proof.
  unfold ParsedTables.aggregate.
  destruct (Str.mem column (TableParser.headers p)); [|reflexivity].
  cbn [negb]. cbv zeta. rewrite <- column_values_cells.
  destruct (ParsedTables.column_values p _) as [|x rest]; reflexivity.
Qed.

(** ** Parsed tables: the totals *)

Lemma startswith_In (pat y : str) :
  Str.startswith pat y = true -> forall c, In c pat -> In c y.
Proof.
  revert y. induction pat as [|a pat IH]; intros y H c Hc; [contradiction|].
  destruct y as [|b y]; [discriminate|]. simpl in H.
  apply andb_true_iff in H as [Hab Hrest]. apply Ascii.eqb_eq in Hab. subst b.
  destruct Hc as [<-|Hc]; [now left | right; now apply (IH y)].
Qed.

Lemma contains_In (pat y : str) :
  Str.contains pat y = true -> forall c, In c pat -> In c y.
Proof.
  induction y as [|b y IH]; simpl; intros H c Hc.
  - rewrite orb_false_r in H. exact (startswith_In pat [] H c Hc).
  - apply orb_true_iff in H as [H|H].
    + exact (startswith_In pat (b :: y) H c Hc).
    + right. exact (IH H c Hc).
Qed.

Lemma strip_no_space (x : str) :
  forallb (fun c => negb (Str.is_space c)) x = true -> Str.strip x = x.
Proof.
  intros H. rewrite forallb_forall in H.
  destruct x as [|c w]; [reflexivity|].
  destruct (rev (c :: w)) as [|d y] eqn:E.
  - apply (f_equal (@length _)) in E. rewrite length_rev in E. discriminate.
  - apply (trimmed_intro c d w y).
    + apply negb_true_iff. apply (H c). now left.
    + apply negb_true_iff. apply (H d). apply in_rev. rewrite E. now left.
    + exact E.
Qed.

Lemma floatvalue_chars : classes_within not_o PyFloat.floatvalue.
Proof.
  cbv [PyFloat.floatvalue PyFloat.number PyFloat.exponent PyFloat.digitpart
       PyFloat.sign Re.seqs Re.alts Re.opt Re.star Re.ilit Re.ilit_c Re.lit
       Re.lit_c Re.digit s list_ascii_of_string classes_within].
  repeat split; try (apply by_enumeration; vm_compute; reflexivity).
Qed.

(** The text of a float has no letter o. *)
Lemma of_str_chars (x : str) (f : PyFloat.t) :
  PyFloat.of_str x = Some f -> forallb not_o (Str.strip x) = true.
Proof.
  unfold PyFloat.of_str.
  destruct (Re.run _ _ _) as [q|] eqn:E; [|discriminate]. intros _.
  apply run_sound in E as [q' [Hr E]].
  destruct (Re.ahead q') eqn:Ea; [|discriminate].
  destruct (reach_chars not_o _ _ _ Hr floatvalue_chars) as [w [Hw Hok]].
  rewrite Ea, app_nil_r in Hw. simpl in Hw. now rewrite Hw.
Qed.

(** A cell that holds the word "total" is not a number. *)
Lemma number_of_total (cell : str) :
  Str.contains "total" (Str.lower cell) = true ->
  ParsedTables.number_of cell = None.
Proof.
  intros H.
  assert (Ho : In "o"%char (Str.lower cell))
    by (apply (contains_In _ _ H); simpl; tauto).
  unfold Str.lower in Ho. apply in_map_iff in Ho as [c [Hc Hin]].
  unfold ParsedTables.number_of.
  set (dropped := fun c : ascii => Re.one_of "$,%" c || Str.is_space c).
  destruct (PyFloat.of_str (Re.delete dropped cell)) as [f|] eqn:E; [|reflexivity].
  exfalso. apply of_str_chars in E.
  assert (Hkeep : forall c, Ascii.eqb (Str.lower_char c) "o" = true ->
                            negb (dropped c) = true)
    by (apply by_enumeration; vm_compute; reflexivity).
  assert (Hns : forall c, negb (dropped c) = true -> negb (Str.is_space c) = true).
  { intros c0. unfold dropped. destruct (Re.one_of "$,%" c0), (Str.is_space c0);
      simpl; congruence. }
  rewrite strip_no_space in E.
  - rewrite forallb_forall in E. specialize (E c).
    unfold not_o in E. rewrite Hc in E. simpl in E.
    assert (Hfalse : false = true); [|discriminate].
    apply E. unfold Re.delete. apply filter_In. split; [exact Hin|].
    apply Hkeep. rewrite Hc. reflexivity.
  - apply forallb_forall. intros c0 Hc0. unfold Re.delete in Hc0.
    apply filter_In in Hc0 as [_ Hc0]. now apply Hns.
Qed.

Lemma dict_set_In (V : Type) (k : str) (v : V) (d : Dict.t V) (kv : str * V) :
  In kv (Dict.set k v d) -> kv = (k, v) \/ In kv d.
Proof.
  induction d as [|[k0 v0] d IH]; simpl.
  - intros [<-|[]]. now left.
  - destruct (Str.eqb k k0) eqn:E.
    + apply str_eqb_eq in E. subst k0. intros [<-|H]; [now left | right; now right].
    + intros [<-|H]; [right; now left|].
      apply IH in H. destruct H as [H|H]; [now left | right; now right].
Qed.

Section Totals.
Import ParsedTables.
Variable p : TableParser.ParsedTable.

(** Where a total comes from: a number in a row that has "total" in its
    first cell, under the header, in a column after the first. *)
Let sourced (hv : str * PyFloat.t) : Prop :=
  exists row i cell,
    In row (TableParser.rows p) /\ is_total_row row = true /\ 0 < i /\
    nth_error (TableParser.headers p) i = Some (fst hv) /\
    nth_error row i = Some cell /\ number_of cell = Some (snd hv).

Lemma add_totals_sourced (row : list str) (totals : Dict.t PyFloat.t) :
  In row (TableParser.rows p) -> is_total_row row = true ->
  Forall sourced totals ->
  Forall sourced (add_totals (TableParser.headers p) totals row).
Proof.
  intros Hrow Htotal. unfold add_totals.
  assert (Hl : forall ih, In ih (Builtins.enumerate (TableParser.headers p)) ->
                          nth_error (TableParser.headers p) (fst ih) = Some (snd ih)).
  { intros [i h] Hin. now apply enumerate_In. }
  revert totals.
  induction (Builtins.enumerate (TableParser.headers p)) as [|[i h] l IH];
    intros totals Hall; [exact Hall|].
  simpl fold_left. apply IH; [intros ih Hih; apply Hl; now right|].
  cbn [fst snd].
  destruct (nth_error row i) as [cell|] eqn:Ec; [|exact Hall].
  destruct (number_of cell) as [f|] eqn:Ef; [|exact Hall].
  apply Forall_forall. intros hv Hin. apply dict_set_In in Hin.
  destruct Hin as [->|Hin]; [|rewrite Forall_forall in Hall; now apply Hall].
  exists row, i, cell. cbn [fst snd].
  repeat split; try assumption; [|exact (Hl (i, h) (or_introl eq_refl))].
  destruct i as [|i]; [|lia]. exfalso.
  destruct row as [|first row']; [discriminate|].
  simpl in Ec. injection Ec as ->. simpl in Htotal.
  rewrite (number_of_total cell Htotal) in Ef. discriminate.
Qed.

End Totals.

(** X20. Every entry of [find_totals] is the number of a cell that stands
    under that header in a row with "total" in its first cell; the cell is
    never the first one, which holds the word and so is not a number. *)
Theorem find_totals_entries (p : TableParser.ParsedTable) :
  Forall (fun hv =>
            exists row i cell,
              In row (TableParser.rows p) /\
              ParsedTables.is_total_row row = true /\ 0 < i /\
              nth_error (TableParser.headers p) i = Some (fst hv) /\
              nth_error row i = Some cell /\
              ParsedTables.number_of cell = Some (snd hv))
         (ParsedTables.find_totals p).
Proof.
  unfold ParsedTables.find_totals.
  set (sourced := fun hv : str * PyFloat.t => exists row i cell, _).
  assert (H : forall rows totals,
             incl rows (TableParser.rows p) -> Forall sourced totals ->
             Forall sourced
               (fold_left (fun totals row =>
                             if ParsedTables.is_total_row row
                             then ParsedTables.add_totals (TableParser.headers p)
                                                          totals row
                             else totals) rows totals)).
  { induction rows as [|row rows IH]; intros totals Hincl Hall; [exact Hall|].
    simpl. apply IH; [intros r Hr; apply Hincl; now right|].
    destruct (ParsedTables.is_total_row row) eqn:E; [|exact Hall].
    apply add_totals_sourced; [apply Hincl; now left | exact E | exact Hall]. }
  apply H; [apply incl_refl | constructor].
Qed.

(** ** Strings: lines *)

Section Lines.
(** A separator of one character. *)
Variable nl : ascii.
Let single_line (x : str) : Prop := ~ In nl x.

Lemma split_aux_line (w rest cur : str) :
  single_line w ->
  Str.split_aux [nl] (w ++ rest) 0 cur = Str.split_aux [nl] rest 0 (rev w ++ cur).
Proof.
  revert cur. induction w as [|c w IH]; intros cur Hw; [reflexivity|].
  simpl app. simpl Str.split_aux.
  destruct (Ascii.eqb nl c) eqn:E.
  - apply Ascii.eqb_eq in E. exfalso. apply Hw. now left.
  - simpl. rewrite IH by (intros H; apply Hw; now right).
    now rewrite <- app_assoc.
Qed.

Lemma split_aux_break (rest cur : str) :
  Str.split_aux [nl] (nl :: rest) 0 cur = rev cur :: Str.split_aux [nl] rest 0 [].
Proof. simpl. now rewrite Ascii.eqb_refl. Qed.

(** Splitting what was joined gives the parts back. *)
Lemma split_join (x : str) (l : list str) :
  Forall single_line (x :: l) ->
  Str.split [nl] (Str.join [nl] (x :: l)) = x :: l.
Proof.
  unfold Str.split.
  revert x. induction l as [|y l IH]; intros x Hall.
  - inversion Hall as [|? ? Hx _]; subst. simpl Str.join.
    rewrite <- (app_nil_r x) at 1. rewrite split_aux_line by exact Hx.
    simpl. now rewrite app_nil_r, rev_involutive.
  - inversion Hall as [|? ? Hx Hrest]; subst.
    change (Str.join [nl] (x :: y :: l)) with (x ++ nl :: Str.join [nl] (y :: l)).
    rewrite split_aux_line by exact Hx. rewrite split_aux_break.
    rewrite app_nil_r, rev_involutive. f_equal. now apply IH.
Qed.

End Lines.

Lemma join_In (sep : str) (l : list str) (c : ascii) :
  In c (Str.join sep l) -> In c sep \/ exists x, In x l /\ In c x.
Proof.
  induction l as [|x l IH]; [contradiction|].
  destruct l as [|y l].
  - simpl. intros H. right. exists x. split; [now left | exact H].
  - change (Str.join sep (x :: y :: l)) with (x ++ sep ++ Str.join sep (y :: l)).
    intros H. apply in_app_or in H as [H|H].
    + right. exists x. split; [now left | exact H].
    + apply in_app_or in H as [H|H]; [now left|].
      apply IH in H as [H|[z [Hz Hc]]]; [now left|].
      right. exists z. split; [now right | exact Hc].
Qed.

(** ** Parsed tables: the Markdown table *)

Section Markdown.
Import ParsedTables.

Lemma length_padded (n : nat) (row : list str) : length (padded n row) = n.
Proof.
  unfold padded. rewrite length_firstn, length_app, repeat_length. lia.
Qed.

Lemma padded_In (n : nat) (row : list str) (cell : str) :
  In cell (padded n row) -> In cell row \/ cell = [].
Proof.
  unfold padded. intros H.
  assert (Hin : In cell (row ++ repeat [] (n - length row))).
  { rewrite <- (firstn_skipn n (row ++ repeat [] (n - length row))).
    apply in_or_app. now left. }
  clear H. apply in_app_or in Hin as [H|H]; [now left|].
  apply repeat_spec in H. now right.
Qed.

Lemma md_line_single (cells : list str) :
  (forall cell, In cell cells -> ~ In "010"%char cell) ->
  ~ In "010"%char (md_line cells).
Proof.
  intros Hcells H. unfold md_line in H.
  apply in_app_or in H as [H|H].
  { simpl in H. intuition discriminate. }
  apply in_app_or in H as [H|H].
  - apply join_In in H as [H|[x [Hx Hc]]].
    + simpl in H. intuition discriminate.
    + now apply (Hcells x).
  - simpl in H. intuition discriminate.
Qed.

End Markdown.

(** X21. [to_markdown] on a table whose cells hold no line break: the
    text has one line of headers, one line of dashes and one line for every
    row, and the line of a row has one cell for each header, a short row
    being padded with empty cells and a long row cut. *)
Theorem to_markdown_lines (p : TableParser.ParsedTable) :
  single_line_cells p = true ->
  let n := length (TableParser.headers p) in
  Str.lines (ParsedTables.to_markdown p) =
    ParsedTables.md_line (TableParser.headers p) ::
    ParsedTables.md_line (map (fun _ => s "---") (TableParser.headers p)) ::
    map (fun row => ParsedTables.md_line (ParsedTables.padded n row))
        (TableParser.rows p) /\
  Forall (fun row => length (ParsedTables.padded n row) = n) (TableParser.rows p).
Proof.
  intros Hsingle n. split; [|apply Forall_forall; intros row _; apply length_padded].
  unfold single_line_cells in Hsingle. rewrite forallb_forall in Hsingle.
  assert (Hcell : forall cell,
             In cell (TableParser.headers p ++ concat (TableParser.rows p)) ->
             ~ In "010"%char cell).
  { intros cell Hin Hnl. specialize (Hsingle cell Hin).
    apply negb_true_iff in Hsingle.
    assert (Ht : existsb (Ascii.eqb "010") cell = true); [|congruence].
    apply existsb_exists. exists "010"%char. split; [exact Hnl | reflexivity]. }
  unfold ParsedTables.to_markdown. fold n.
  apply (split_join "010"%char).
  constructor; [|constructor].
  - apply md_line_single. intros cell Hin. apply Hcell, in_or_app. now left.
  - apply md_line_single. intros cell Hin.
    apply in_map_iff in Hin as [h [<- _]]. simpl. intuition discriminate.
  - apply Forall_forall. intros line Hline.
    apply in_map_iff in Hline as [row [<- Hrow]].
    apply md_line_single. intros cell Hin.
    apply padded_In in Hin as [Hin| ->]; [|tauto].
    apply Hcell, in_or_app. right. apply in_concat. exists row. now split.
Qed.

Lemma to_markdown_lines_witness :
  single_line_cells priced_table = true /\
  Str.lines (ParsedTables.to_markdown priced_table) =
    ParsedTables.md_line (TableParser.headers priced_table) ::
    ParsedTables.md_line (map (fun _ => s "---") (TableParser.headers priced_table)) ::
    map (fun row => ParsedTables.md_line
                      (ParsedTables.padded (length (TableParser.headers priced_table)) row))
        (TableParser.rows priced_table) /\
  Forall (fun row =>
            length (ParsedTables.padded (length (TableParser.headers priced_table)) row)
            = length (TableParser.headers priced_table))
         (TableParser.rows priced_table).
Proof.
  split; [reflexivity|].
  exact (to_markdown_lines priced_table eq_refl).
Defined.

(** ** Table parser: no row is lost *)

Lemma parse_Forall2 (R : TableParser.table -> TableParser.ParsedTable -> Prop)
      (raw_tables : list TableParser.table) :
  (forall tb p, TableParser.parse_table tb = Some p -> R tb p) ->
  Forall2 R (filter has_rows raw_tables) (TableParser.parse raw_tables).
Proof.
  intros HR. unfold TableParser.parse.
  induction raw_tables as [|tb tbs IH]; simpl; [constructor|].
  destruct tb as [|r tb]; [exact IH|].
  destruct (parse_table_some (r :: tb)) as [p [Hp _]]; [discriminate|].
  rewrite Hp. simpl. constructor; [now apply HR | exact IH].
Qed.

(** X22. [parse] loses no row: for every input table that has a row, the
    header row of the parsed table (when one was detected) followed by its
    rows is the normalised input table, and otherwise its rows are. *)
Theorem parse_keeps_rows (raw_tables : list TableParser.table) :
  Forall2
    (fun tb p =>
       (if TableParser.has_header p then [TableParser.headers p] else [])
         ++ TableParser.rows p
       = TableParser._normalize_table tb /\
       TableParser.row_count p
       = length tb - (if TableParser.has_header p then 1 else 0))
    (filter has_rows raw_tables) (TableParser.parse raw_tables).
Proof.
  apply parse_Forall2. intros tb p. unfold TableParser.parse_table.
  destruct tb as [|r tb]; [discriminate|].
  pose proof (normalize_length (r :: tb)) as Hlen.
  destruct (TableParser._normalize_table (r :: tb)) as [|first rest] eqn:En;
    [discriminate|].
  destruct (TableParser._detect_headers (first :: rest)) as [hh detected] eqn:Ed.
  intros [= <-].
  cbn [TableParser.headers TableParser.rows TableParser.has_header
       TableParser.row_count].
  destruct hh.
  - apply detect_headers_first in Ed as [rest' [= <- <-]].
    split; [reflexivity|]. simpl in *. lia.
  - split; [reflexivity|]. simpl in *. lia.
Qed.

(** ** Field parser: the type of a value *)

Section ProcessValue.
Import FieldParser.

(** A pattern that cannot match a text made of characters of one kind:
    every match of it reads a character of another kind. *)
Let reads_other (ok : ascii -> bool) (r : regex) : Prop :=
  forall p q, reach r p q ->
              exists c, In c (Re.ahead p) /\ ok c = false.

Lemma reads_chr (ok f : ascii -> bool) :
  (forall c, f c = true -> ok c = false) -> reads_other ok (Chr f).
Proof.
  intros Hf p q H. inv H.
  match goal with Ha : Re.ahead p = ?c :: _ |- _ =>
    exists c; split; [rewrite Ha; now left | now apply Hf] end.
Qed.

Lemma reads_seq_l (ok : ascii -> bool) (r1 r2 : regex) :
  reads_other ok r1 -> reads_other ok (Seq r1 r2).
Proof. intros H1 p q H. inv H. eauto. Qed.

Lemma reads_seq_r (ok : ascii -> bool) (r1 r2 : regex) :
  reads_other ok r2 -> reads_other ok (Seq r1 r2).
Proof.
  intros H2 p q H. inv H.
  match goal with
  | Ha : reach r1 p ?u, Hb : reach r2 ?u q |- _ =>
    apply reach_ahead in Ha as [w Hw]; apply H2 in Hb as [c [Hc Hok]];
    exists c; split; [rewrite Hw; apply in_or_app; now right | exact Hok]
  end.
Qed.

Lemma reads_alt (ok : ascii -> bool) (r1 r2 : regex) :
  reads_other ok r1 -> reads_other ok r2 -> reads_other ok (Alt r1 r2).
Proof. intros H1 H2 p q H. inv H; eauto. Qed.

Lemma reads_no_match (ok : ascii -> bool) (r : regex) (x : str) :
  reads_other ok r -> forallb ok x = true -> Re.matches r x = false.
Proof.
  intros Hr Hx. unfold Re.matches, Re.match_at.
  destruct (Re.run r (Re.start x) _) as [q|] eqn:E; [|reflexivity].
  apply run_sound in E as [q' [Hreach _]].
  apply Hr in Hreach as [c [Hc Hok]]. simpl in Hc.
  rewrite forallb_forall in Hx. rewrite (Hx c Hc) in Hok. discriminate.
Qed.

Lemma digit_not_alpha : forall c, Str.is_digit c = true -> Str.is_alpha c = false.
Proof.
  assert (H : forall c, Str.is_digit c = true -> negb (Str.is_alpha c) = true)
    by (apply by_enumeration; vm_compute; reflexivity).
  intros c Hc. now apply negb_true_iff, H.
Qed.

Lemma space_not_alpha : forall c, Str.is_space c = true -> Str.is_alpha c = false.
Proof.
  assert (H : forall c, Str.is_space c = true -> negb (Str.is_alpha c) = true)
    by (apply by_enumeration; vm_compute; reflexivity).
  intros c Hc. now apply negb_true_iff, H.
Qed.

(** No pattern of a currency amount or of a date matches a word. *)
Lemma currency_reads_other : reads_other Str.is_alpha currency_pattern.
Proof.
  unfold currency_pattern. apply reads_alt.
  - cbv [Re.seqs]. apply reads_seq_l. unfold Re.lit, s, list_ascii_of_string, Re.lit_c.
    apply reads_chr.
    assert (H : forall c, Ascii.eqb "$" c = true -> negb (Str.is_alpha c) = true)
      by (apply by_enumeration; vm_compute; reflexivity).
    intros c Hc. now apply negb_true_iff, H.
  - cbv [Re.seqs Re.plus]. apply reads_seq_l, reads_seq_l.
    apply reads_chr. exact digit_not_alpha.
Qed.

Lemma digits_first_reads_other (rest : regex) :
  reads_other Str.is_alpha (Seq (Re.between_n 1 2 Re.digit) rest).
Proof.
  apply reads_seq_l. cbv [Re.between_n Re.rep]. apply reads_seq_l.
  apply reads_chr. exact digit_not_alpha.
Qed.

Lemma date_patterns_read_other :
  Forall (reads_other Str.is_alpha) date_patterns.
Proof.
  unfold date_patterns. repeat constructor.
  - unfold date_mdy. cbv [Re.seqs]. apply digits_first_reads_other.
  - unfold date_ymd. cbv [Re.seqs Re.rep]. apply reads_seq_l, reads_seq_l.
    apply reads_chr. exact digit_not_alpha.
  - unfold date_month_day. cbv [Re.seqs Re.plus].
    apply reads_seq_r, reads_seq_l, reads_seq_l.
    apply reads_chr. exact space_not_alpha.
  - unfold date_day_month. cbv [Re.seqs]. apply digits_first_reads_other.
Qed.

Lemma no_date_matches (ok : ascii -> bool) (x : str) :
  Forall (reads_other ok) date_patterns -> forallb ok x = true ->
  existsb (fun pattern => Re.matches pattern x) date_patterns = false.
Proof.
  intros Hall Hx. induction Hall as [|r l Hr _ IH]; [reflexivity|].
  simpl. now rewrite (reads_no_match ok r x Hr Hx), IH.
Qed.

Lemma lower_alpha (x : str) :
  forallb Str.is_alpha (Str.lower x) = true -> forallb Str.is_alpha x = true.
Proof.
  assert (H : forall c, Str.is_alpha (Str.lower_char c) = true -> Str.is_alpha c = true)
    by (apply by_enumeration; vm_compute; reflexivity).
  unfold Str.lower. induction x as [|c x IH]; [reflexivity|].
  simpl. intros Hx. apply andb_true_iff in Hx as [Hc Hx].
  now rewrite (H c Hc), IH.
Qed.

Lemma lower_digits (x : str) : forallb Str.is_digit x = true -> Str.lower x = x.
Proof.
  assert (H : forall c, Str.is_digit c = true ->
                        Ascii.eqb (Str.lower_char c) c = true)
    by (apply by_enumeration; vm_compute; reflexivity).
  unfold Str.lower. induction x as [|c x IH]; [reflexivity|].
  simpl. intros Hx. apply andb_true_iff in Hx as [Hc Hx].
  apply H, Ascii.eqb_eq in Hc. now rewrite Hc, IH.
Qed.

(** X23. [_process_value] turns the words yes, no, true, false, y and n,
    in any case and with blanks around them, into a boolean: True for yes,
    true and y, False for the others. *)
Theorem process_value_boolean (value0 : str) :
  Str.mem (Str.lower (Str.strip value0))
          [s "yes"; s "no"; s "true"; s "false"; s "y"; s "n"] = true ->
  _process_value value0 =
  VBool (Str.mem (Str.lower (Str.strip value0)) [s "yes"; s "true"; s "y"]).
Proof.
  intros Hmem. unfold _process_value.
  set (value := Str.strip value0) in *. clearbody value.
  assert (Halpha : forallb Str.is_alpha value = true).
  { apply lower_alpha. apply str_mem_In in Hmem.
    repeat (destruct Hmem as [<-|Hmem]; [reflexivity|]). contradiction. }
  rewrite (reads_no_match Str.is_alpha _ value currency_reads_other Halpha).
  rewrite (no_date_matches Str.is_alpha value date_patterns_read_other Halpha).
  now rewrite Hmem.
Qed.

Lemma process_value_boolean_witness :
  Str.mem (Str.lower (Str.strip " Yes "))
          [s "yes"; s "no"; s "true"; s "false"; s "y"; s "n"] = true /\
  _process_value " Yes " =
  VBool (Str.mem (Str.lower (Str.strip " Yes ")) [s "yes"; s "true"; s "y"]).
Proof.
  split; [reflexivity|]. exact (process_value_boolean " Yes " eq_refl).
Defined.

Lemma not_digit (f : ascii -> bool) :
  forallb (fun c => implb (f c) (negb (Str.is_digit c))) all_ascii = true ->
  forall c, f c = true -> Str.is_digit c = false.
Proof.
  intros H c Hc. apply negb_true_iff. revert c Hc. now apply by_enumeration.
Qed.

Lemma lit_reads_other (ok : ascii -> bool) (c : ascii) (x : string) :
  ok c = false -> reads_other ok (Re.lit (s (String c x))).
Proof.
  intros Hc. unfold s. simpl list_ascii_of_string.
  assert (Hchr : reads_other ok (Re.lit_c c)).
  { apply reads_chr. intros d Hd. apply Ascii.eqb_eq in Hd. now subst d. }
  destruct (list_ascii_of_string x); simpl; [exact Hchr | now apply reads_seq_l].
Qed.

Lemma currency_reads_letter : reads_other Str.is_digit currency_pattern.
Proof.
  unfold currency_pattern. apply reads_alt.
  - cbv [Re.seqs]. apply reads_seq_l. now apply lit_reads_other.
  - cbv [Re.seqs Re.alts]. do 4 apply reads_seq_r.
    repeat apply reads_alt; try (now apply lit_reads_other).
    apply reads_seq_l. now apply lit_reads_other.
Qed.

Lemma separator_reads_other (r rest : regex) :
  reads_other Str.is_digit (Seq r (Seq (cls [] "/-") rest)).
Proof.
  apply reads_seq_r, reads_seq_l. unfold cls. apply reads_chr.
  apply not_digit. vm_compute. reflexivity.
Qed.

Lemma date_patterns_read_letter :
  Forall (reads_other Str.is_digit) date_patterns.
Proof.
  unfold date_patterns. repeat constructor.
  - unfold date_mdy. cbv [Re.seqs]. apply separator_reads_other.
  - unfold date_ymd. cbv [Re.seqs]. apply separator_reads_other.
  - unfold date_month_day. cbv [Re.seqs Re.plus].
    apply reads_seq_r, reads_seq_l, reads_seq_l.
    apply reads_chr. intros c Hc. apply negb_true_iff.
    revert c Hc. apply by_enumeration. vm_compute. reflexivity.
  - unfold date_day_month. cbv [Re.seqs Re.plus].
    apply reads_seq_r, reads_seq_l, reads_seq_l.
    apply reads_chr. intros c Hc. apply negb_true_iff.
    revert c Hc. apply by_enumeration. vm_compute. reflexivity.
Qed.

(** X24. [_process_value] turns a string of at most 4300 decimal digits,
    with blanks around it or not, into the integer it stands for; a longer
    string of digits, which [int] refuses, stays a string (without the
    blanks around it). *)
Theorem process_value_integer (value0 : str) :
  Str.isdigit (Str.strip value0) = true ->
  _process_value value0 =
  if length (Str.strip value0) <=? PyFloat.max_str_digits
  then VInt (PyFloat.digits_val (Str.strip value0))
  else VStr (Str.strip value0).
Proof.
  intros Hd. unfold _process_value.
  set (value := Str.strip value0) in *. clearbody value.
  pose proof Hd as Hdigits. unfold Str.isdigit in Hdigits.
  apply andb_true_iff in Hdigits as [Hne Hdigits].
  rewrite (reads_no_match Str.is_digit _ value currency_reads_letter Hdigits).
  rewrite (no_date_matches Str.is_digit value date_patterns_read_letter Hdigits).
  rewrite (lower_digits value Hdigits).
  assert (Hword : Str.mem value [s "yes"; s "no"; s "true"; s "false"; s "y"; s "n"]
                  = false).
  { destruct (Str.mem value _) eqn:E; [|reflexivity].
    apply str_mem_In in E.
    repeat (destruct E as [<-|E]; [discriminate Hdigits|]). contradiction. }
  rewrite Hword.
  assert (Hdot : existsb (Ascii.eqb ".") value = false).
  { destruct (existsb _ value) eqn:E; [|reflexivity].
    apply existsb_exists in E as [c [Hc Heq]]. apply Ascii.eqb_eq in Heq. subst c.
    rewrite forallb_forall in Hdigits. now specialize (Hdigits _ Hc). }
  rewrite Hdot, Hd. cbn [orb].
  assert (Hcomma : Str.remove_char "," value = value).
  { unfold Str.remove_char. clear -Hdigits.
    induction value as [|c value IH]; [reflexivity|].
    simpl in Hdigits. apply andb_true_iff in Hdigits as [Hc Hrest].
    simpl. destruct (Ascii.eqb c ",") eqn:E.
    - apply Ascii.eqb_eq in E. subst c. discriminate.
    - simpl. now rewrite IH. }
  rewrite Hcomma. unfold PyFloat.int_of_str.
  destruct value as [|c value']; [discriminate|].
  destruct (Ascii.eqb c "-") eqn:E.
  - apply Ascii.eqb_eq in E. subst c. discriminate.
  - rewrite Hd. cbn [andb].
    now destruct (length (c :: value') <=? PyFloat.max_str_digits).
Qed.

Lemma process_value_integer_witness :
  Str.isdigit (Str.strip "0042 ") = true /\
  _process_value "0042 " =
  if length (Str.strip "0042 ") <=? PyFloat.max_str_digits
  then VInt (PyFloat.digits_val (Str.strip "0042 "))
  else VStr (Str.strip "0042 ").
Proof.
  split; [reflexivity|]. exact (process_value_integer "0042 " eq_refl).
Defined.

(** A numeral of 4301 digits stays a string. *)
Example process_value_long_numeral :
  _process_value (repeat "9"%char 4301) = VStr (repeat "9"%char 4301).
Proof. vm_compute. reflexivity. Qed.

End ProcessValue.

(** ** Field parser: e-mail addresses and phone numbers *)

Lemma numbered_keys_head (name : string) (f : str -> str) (found : list str)
      (k : str) :
  In k (Dict.keys (FieldParser.numbered name f found)) ->
  exists w, k = s name ++ w.
Proof.
  intros H. apply numbered_keys in H as [->|[i ->]].
  - exists []. now rewrite app_nil_r.
  - eexists. reflexivity.
Qed.

Lemma numbered_key_not_date (name : string) (single : bool) (n : nat) :
  name = "Email"%string \/ name = "Phone"%string ->
  let key := if single then s name else s name ++ s " " ++ Str.of_nat n in
  (forall label, key <> label ++ s " Date") /\ last key " "%char <> "s"%char.
Proof.
  intros Hname. destruct single; cbv zeta.
  - split.
    + intros label H. destruct label as [|c label].
      * destruct Hname as [-> | ->]; vm_compute in H; discriminate H.
      * apply (f_equal (@length _)) in H. rewrite length_app in H.
        destruct Hname as [-> | ->]; unfold s in H; simpl in H; lia.
    + destruct Hname as [-> | ->]; vm_compute; discriminate.
  - destruct (of_nat_last_digit n) as [c [w [E Hc]]]. rewrite E.
    replace (s name ++ s " " ++ w ++ [c]) with ((s name ++ s " " ++ w) ++ [c])
      by (now rewrite <- !app_assoc).
    split.
    + intros label H. apply (f_equal (fun k => last k " "%char)) in H.
      rewrite last_last, date_key_last in H. subst c. discriminate.
    + rewrite last_last. intros ->. discriminate.
Qed.

(** The date fields leave an entry alone whose name does not end with
    " Date". *)
Lemma special_fields_entry (text key : str) :
  (forall label, key <> label ++ s " Date") ->
  Dict.get key (FieldParser._extract_special_fields text) =
  Dict.get key
    (Dict.update
       (Dict.update
          (FieldParser.numbered "Email" (fun x => x)
             (Re.findall FieldParser.email_pattern text))
          (FieldParser.numbered "Phone" (fun x => x)
             (Re.findall FieldParser.phone_pattern text)))
       (FieldParser.numbered "SSN" FieldParser.mask
          (Re.findall FieldParser.ssn_pattern text))).
Proof.
  intros Hkey. unfold FieldParser._extract_special_fields.
  assert (Hfold : forall (A : Type) (step : fieldmap -> A -> fieldmap) (l : list A),
             (forall d a, Dict.get key (step d a) = Dict.get key d) ->
             forall d, Dict.get key (fold_left step l d) = Dict.get key d).
  { intros A step l Hstep. induction l as [|a l IH]; intros d; [reflexivity|].
    simpl. now rewrite IH, Hstep. }
  apply Hfold. intros d pattern. apply Hfold. intros d' m.
  unfold FieldParser.set_opt.
  destruct (FieldParser.date_field text m) as [[k v']|] eqn:E; [|reflexivity].
  apply date_field_key in E as [label ->].
  rewrite dict_get_set.
  destruct (Str.eqb key (label ++ s " Date")) eqn:Ek; [|reflexivity].
  apply str_eqb_eq in Ek. now apply Hkey in Ek.
Qed.

Lemma numbered_get_foreign (name : string) (f : str -> str)
      (found : list str) (key : str) :
  (forall w, key <> s name ++ w) ->
  Dict.get key (FieldParser.numbered name f found) = None.
Proof.
  intros Hkey. apply dict_get_none. intros Hin.
  apply numbered_keys_head in Hin as [w E]. now apply (Hkey w).
Qed.

(** An entry of the special extractor reaches the result of [parse] when
    no check box field has its name. *)
Lemma parse_special_entry (text key : str) (v : value) :
  text <> [] -> last key " "%char <> "s"%char ->
  Dict.get key (FieldParser._extract_special_fields text) = Some v ->
  Dict.get key (FieldParser.parse text) = Some v.
Proof.
  intros Hne Hlast Hget. unfold FieldParser.parse.
  destruct text as [|ch text']; [contradiction|].
  set (x := ch :: text') in *. clearbody x.
  rewrite dict_get_update.
  - destruct (Dict.get key (FieldParser._extract_checkboxes x)) eqn:Ec.
    + assert (Hn : Dict.get key (FieldParser._extract_checkboxes x) <> None)
        by congruence.
      apply dict_get_keys, checkboxes_keys in Hn. contradiction.
    + rewrite dict_get_update by apply special_fields_nodup.
      now rewrite Hget.
  - unfold FieldParser._extract_checkboxes.
    match goal with |- context [match ?u with [] => ?f | _ :: _ => _ end] =>
      destruct u end;
    match goal with |- context [match ?u with [] => [] | _ :: _ => _ end] =>
      destruct u end; simpl; repeat constructor; simpl; intuition discriminate.
Qed.

Lemma findall_nil_email : Re.findall FieldParser.email_pattern [] = [].
Proof. vm_compute. reflexivity. Qed.

Lemma findall_nil_phone : Re.findall FieldParser.phone_pattern [] = [].
Proof. vm_compute. reflexivity. Qed.

(** X25. Every e-mail address and every phone number that the patterns
    find in a text is in the result of [parse] as it was found: under
    "Email" or "Phone" when it is the only one, under the name and its
    number, counted from 1, when there are several. *)
Theorem parse_stores_special_entries
        (text : str) (name : string) (pattern : regex) (i : nat) (x : str) :
  In (name, pattern)
     [("Email"%string, FieldParser.email_pattern);
      ("Phone"%string, FieldParser.phone_pattern)] ->
  let found := Re.findall pattern text in
  nth_error found i = Some x ->
  let key := if length found =? 1 then s name
             else s name ++ s " " ++ Str.of_nat (i + 1) in
  Dict.get key (FieldParser.parse text) = Some (VStr x).
Proof.
  intros Hname found Hi key.
  assert (Hn : name = "Email"%string \/ name = "Phone"%string).
  { destruct Hname as [[= <- _]|[[= <- _]|[]]]; tauto. }
  assert (Hkey : (forall label, key <> label ++ s " Date") /\
                 last key " "%char <> "s"%char)
    by exact (numbered_key_not_date name (length found =? 1) (i + 1) Hn).
  destruct Hkey as [Hdate Hlast].
  assert (Hget : Dict.get key (FieldParser.numbered name (fun x => x) found)
                 = Some (VStr x))
    by exact (numbered_nth name (fun x => x) found i x Hi).
  assert (Hhead : exists w, key = s name ++ w).
  { apply (numbered_keys_head name (fun x => x) found).
    apply dict_get_keys. congruence. }
  destruct Hhead as [w Hw].
  assert (Hne : text <> []).
  { intros ->. unfold found in Hi.
    destruct Hname as [[= <- <-]|[[= <- <-]|[]]];
      [rewrite findall_nil_email in Hi | rewrite findall_nil_phone in Hi];
      now destruct i. }
  apply (parse_special_entry text key _ Hne Hlast).
  rewrite (special_fields_entry text key Hdate).
  clearbody key.
  rewrite dict_get_update by apply numbered_nodup.
  assert (Hforeign : forall (other : string) (f : str -> str) (l : list str),
             hd_error (s other) <> hd_error (s name) -> s other <> [] ->
             Dict.get key (FieldParser.numbered other f l) = None).
  { intros other f l Hhd Hother. apply numbered_get_foreign. intros w' H.
    rewrite Hw in H. apply Hhd.
    destruct (s other) as [|c o]; [contradiction|].
    destruct (s name) as [|c' n'] eqn:En.
    - destruct Hn as [-> | ->]; discriminate En.
    - simpl in H. injection H as -> _. reflexivity. }
  destruct Hname as [[= <- <-]|[[= <- <-]|[]]]; fold found.
  - rewrite (Hforeign "SSN"%string) by (vm_compute; congruence).
    rewrite dict_get_update by apply numbered_nodup.
    rewrite (Hforeign "Phone"%string) by (vm_compute; congruence).
    exact Hget.
  - rewrite (Hforeign "SSN"%string) by (vm_compute; congruence).
    rewrite dict_get_update by apply numbered_nodup.
    now rewrite Hget.
Qed.

Lemma parse_stores_special_entries_witness :
  In ("Email"%string, FieldParser.email_pattern)
     [("Email"%string, FieldParser.email_pattern);
      ("Phone"%string, FieldParser.phone_pattern)] /\
  nth_error (Re.findall FieldParser.email_pattern contact_text) 0
  = Some (s "john@example.com") /\
  Dict.get (if length (Re.findall FieldParser.email_pattern contact_text) =? 1
            then s "Email" else s "Email" ++ s " " ++ Str.of_nat (0 + 1))
           (FieldParser.parse contact_text) = Some (VStr "john@example.com").
Proof.
  assert (H1 : In ("Email"%string, FieldParser.email_pattern)
                  [("Email"%string, FieldParser.email_pattern);
                   ("Phone"%string, FieldParser.phone_pattern)]) by (now left).
  assert (H2 : nth_error (Re.findall FieldParser.email_pattern contact_text) 0
               = Some (s "john@example.com")) by (vm_compute; reflexivity).
  split; [exact H1|]. split; [exact H2|].
  exact (parse_stores_special_entries contact_text "Email" FieldParser.email_pattern
           0 (s "john@example.com") H1 H2).
Defined.

(** ** Field parser: the check box fields *)

Lemma box_items_good (pg : regex * nat) (text : str) :
  Forall (fun item => item <> [] /\ length item < 100 /\ Str.strip item = item)
         (FieldParser.box_items pg text).
Proof.
  unfold FieldParser.box_items. apply Forall_forall. intros item Hin.
  apply filter_In in Hin as [Hin Hok].
  apply andb_true_iff in Hok as [Hne Hlen].
  apply in_map_iff in Hin as [m [<- _]].
  split; [|split].
  - intros E. rewrite E in Hne. discriminate.
  - now apply Nat.ltb_lt.
  - apply strip_idempotent.
Qed.

Lemma checkboxes_nil : FieldParser._extract_checkboxes [] = [].
Proof. vm_compute. reflexivity. Qed.

Lemma checkboxes_nodup (text : str) :
  NoDup (Dict.keys (FieldParser._extract_checkboxes text)).
Proof.
  unfold FieldParser._extract_checkboxes.
  match goal with |- context [match ?u with [] => ?f | _ :: _ => _ end] =>
    destruct u end;
  match goal with |- context [match ?u with [] => [] | _ :: _ => _ end] =>
    destruct u end; simpl; repeat constructor; simpl; intuition discriminate.
Qed.

(** X26. The check box fields: every field that [_extract_checkboxes]
    builds is a list, not empty, of labels that are not empty, shorter than
    100 characters and trimmed, and [parse] returns it under its name
    whatever the other patterns captured under that name. *)
Theorem checkbox_fields (text : str) :
  Forall (fun kv =>
            exists items,
              snd kv = VList items /\ items <> [] /\
              Forall (fun item => item <> [] /\ length item < 100 /\
                                  Str.strip item = item) items /\
              Dict.get (fst kv) (FieldParser.parse text) = Some (snd kv))
         (FieldParser._extract_checkboxes text).
Proof.
  destruct text as [|ch text']; [rewrite checkboxes_nil; constructor|].
  set (x := ch :: text').
  assert (Hparse : forall kv, In kv (FieldParser._extract_checkboxes x) ->
                     Dict.get (fst kv) (FieldParser.parse x) = Some (snd kv)).
  { intros [k v] Hin. unfold FieldParser.parse, x. fold x. cbn [fst snd].
    rewrite dict_get_update by apply checkboxes_nodup.
    now rewrite (dict_nodup_get _ _ _ _ (checkboxes_nodup x) Hin). }
  apply Forall_forall. intros kv Hin. specialize (Hparse kv Hin).
  revert Hin Hparse. generalize (FieldParser.parse x) as result.
  unfold FieldParser._extract_checkboxes.
  set (checked := flat_map _ (filter (fun p => Bool.eqb (snd p) true) _)).
  set (unchecked := flat_map _ (filter (fun p => Bool.eqb (snd p) false) _)).
  assert (Hc : Forall (fun item => item <> [] /\ length item < 100 /\
                                   Str.strip item = item) checked).
  { unfold checked. apply Forall_flat_map, Forall_forall. intros p _.
    apply box_items_good. }
  assert (Hu : Forall (fun item => item <> [] /\ length item < 100 /\
                                   Str.strip item = item) unchecked).
  { unfold unchecked. apply Forall_flat_map, Forall_forall. intros p _.
    apply box_items_good. }
  clearbody checked unchecked. intros result Hin Hget.
  assert (Hkv : (kv = (s "Selected Options", VList checked) /\ checked <> []) \/
                (kv = (s "Unselected Options", VList unchecked) /\ unchecked <> [])).
  { destruct unchecked as [|u unchecked'].
    - destruct checked as [|c checked']; [contradiction|].
      destruct Hin as [<-|[]]. left. split; [reflexivity | discriminate].
    - apply dict_set_In in Hin. destruct Hin as [->|Hin].
      + right. split; [reflexivity | discriminate].
      + destruct checked as [|c checked']; [contradiction|].
        destruct Hin as [<-|[]]. left. split; [reflexivity | discriminate]. }
  destruct Hkv as [[-> Hne]|[-> Hne]]; eexists; repeat split; eauto.
Qed.

(** ** Parsed tables: when an aggregate is defined *)

Lemma count_existsb (A : Type) (f : A -> bool) (l : list A) :
  (0 <? TableParser.count f l) = existsb f l.
Proof.
  unfold TableParser.count. induction l as [|a l IH]; [reflexivity|].
  simpl. destruct (f a); [reflexivity | exact IH].
Qed.

(** X27. [aggregate] gives a result exactly when the column is a header,
    a cell of the first column of that name is numeric, and the operation
    is one of sum, avg, min, max and count; otherwise it gives None. *)
Theorem aggregate_defined
        (p : TableParser.ParsedTable) (column operation : str) :
  ParsedTables.aggregate p column operation <> None <->
  In column (TableParser.headers p) /\
  existsb TableParser._is_numeric
          (column_cells p (ParsedTables.index column (TableParser.headers p)))
  = true /\
  In operation [s "sum"; s "avg"; s "min"; s "max"; s "count"].
Proof.
  unfold ParsedTables.aggregate.
  rewrite <- count_existsb, <- column_values_cells, <- str_mem_In.
  destruct (Str.mem column (TableParser.headers p)); cbn [negb];
    [|split; [congruence | intros [H _]; discriminate]].
  cbv zeta.
  destruct (ParsedTables.column_values p _) as [|x rest];
    [split; [congruence | intros [_ [H _]]; discriminate]|].
  assert (Hop : forall name : string,
             Str.eqb operation (s name) = false -> operation <> s name)
    by (intros name H; now apply str_eqb_neq).
  destruct (Str.eqb operation "sum") eqn:E1;
    [apply str_eqb_eq in E1; subst; split; [intros _ | discriminate];
     repeat split; simpl; tauto|].
  destruct (Str.eqb operation "avg") eqn:E2;
    [apply str_eqb_eq in E2; subst; split; [intros _ | discriminate];
     repeat split; simpl; tauto|].
  destruct (Str.eqb operation "min") eqn:E3;
    [apply str_eqb_eq in E3; subst; split; [intros _ | discriminate];
     repeat split; simpl; tauto|].
  destruct (Str.eqb operation "max") eqn:E4;
    [apply str_eqb_eq in E4; subst; split; [intros _ | discriminate];
     repeat split; simpl; tauto|].
  destruct (Str.eqb operation "count") eqn:E5;
    [apply str_eqb_eq in E5; subst; split; [intros _ | discriminate];
     repeat split; simpl; tauto|].
  apply Hop in E1, E2, E3, E4, E5.
  split; [congruence|]. intros [_ [_ Hin]].
  repeat (destruct Hin as [Hin|Hin]; [symmetry in Hin; contradiction|]).
  destruct Hin.
Qed.

(** ** The matcher: the pieces of a split *)

Lemma position_step (x : str) (p : Re.pos) (c : ascii) (t : str) :
  Re.ahead p = c :: t -> position_of x p -> position_of x (Re.step c p).
Proof.
  unfold position_of. intros Ha Hp. simpl. rewrite Ha. simpl.
  rewrite <- app_assoc. simpl. now rewrite <- Ha.
Qed.

Lemma position_offset (x : str) (p : Re.pos) :
  position_of x p -> skipn (Re.offset p) x = Re.ahead p.
Proof.
  unfold position_of, Re.offset. intros <-.
  rewrite skipn_app, length_rev, Nat.sub_diag, skipn_all2 by (rewrite length_rev; lia).
  reflexivity.
Qed.

Lemma reach_position (x : str) (r : regex) (p q : Re.pos) :
  reach r p q -> position_of x p -> position_of x q.
Proof.
  induction 1 as [p|f p c t Ha Hf|r1 r2 p q u _ IH1 _ IH2
                  |r1 r2 p q _ IH|r1 r2 p q _ IH|g r p
                  |g r p q u _ IH1 _ IH2|i r p q _ IH|p|m p|p|f p];
    intros Hp; auto.
  now apply (position_step x p c t).
Qed.

Section SplitPieces.
Variable r : regex.
(** The pattern matches wherever a character of the class [f] stands, and
    never the empty string. *)
Variable f : ascii -> bool.
Hypothesis matches_at :
  forall p c t, Re.ahead p = c :: t -> f c = true -> Re.match_at r p <> None.
Hypothesis not_empty :
  forall a b, Re.match_at r a = Some b -> length (Re.ahead b) < length (Re.ahead a).
Variable x : str.

Let clean (w : str) : Prop := forallb (fun c => negb (f c)) w = true.

Lemma search_none (n : nat) :
  forall p, length (Re.ahead p) <= n -> Re.search_from n r p = None ->
            clean (Re.ahead p).
Proof.
  induction n as [|n IH]; intros p Hlen Hs; simpl in Hs;
    destruct (Re.match_at r p) as [q|] eqn:Em; try discriminate.
  - destruct (Re.ahead p); [reflexivity | simpl in Hlen; lia].
  - destruct (Re.ahead p) as [|c t] eqn:Ea; [reflexivity|].
    unfold clean. simpl.
    destruct (f c) eqn:Ef; [now destruct (matches_at p c t Ea Ef)|].
    simpl.
    assert (Hadv : Re.ahead (Re.advance p) = t)
      by (unfold Re.advance; rewrite Ea; simpl; now rewrite Ea).
    rewrite <- Hadv. apply (IH (Re.advance p)).
    + rewrite Hadv. simpl in Hlen. lia.
    + exact Hs.
Qed.

Lemma search_some (n : nat) :
  forall p a b,
    position_of x p -> Re.search_from n r p = Some (a, b) ->
    exists w, Re.ahead p = w ++ Re.ahead a /\ clean w /\
              Re.offset a = Re.offset p + length w /\
              position_of x a /\ Re.match_at r a = Some b.
Proof.
  induction n as [|n IH]; intros p a b Hp Hs; simpl in Hs;
    destruct (Re.match_at r p) as [q|] eqn:Em.
  - injection Hs as <- <-. exists []. repeat split; auto.
  - discriminate.
  - injection Hs as <- <-. exists []. repeat split; auto.
  - destruct (Re.ahead p) as [|c t] eqn:Ea; [discriminate|].
    assert (Hadv : Re.advance p = Re.step c p) by (unfold Re.advance; now rewrite Ea).
    rewrite Hadv in Hs.
    apply IH in Hs; [|now apply (position_step x p c t)].
    destruct Hs as [w [Hw [Hc [Ho [Hpa Hm]]]]].
    exists (c :: w). simpl in Hw. rewrite Ea in Hw. simpl in Hw.
    split; [simpl; now rewrite Hw|].
    split.
    { unfold clean. simpl. destruct (f c) eqn:Ef;
        [now destruct (matches_at p c t Ea Ef) | exact Hc]. }
    split; [rewrite Ho; unfold Re.offset; simpl; lia|].
    split; assumption.
Qed.

Lemma match_position (a b : Re.pos) :
  position_of x a -> Re.match_at r a = Some b ->
  position_of x b /\ Re.offset a < Re.offset b.
Proof.
  intros Hp Hm. pose proof (not_empty a b Hm) as Hlen.
  unfold Re.match_at in Hm. apply run_sound in Hm as [q [Hr [= ->]]].
  split; [now apply (reach_position x r a b)|].
  pose proof (reach_offset r a b Hr). lia.
Qed.

(** No piece of the split holds a character of the class. *)
Lemma scan_pieces (n : nat) :
  forall p, position_of x p -> length (Re.ahead p) < n ->
            Forall clean (Re.split_at (Re.scan n r p) (Re.offset p) x).
Proof.
  induction n as [|n IH]; intros p Hp Hlen; [lia|].
  simpl Re.scan.
  destruct (Re.search_from (length (Re.ahead p)) r p) as [[a b]|] eqn:Es.
  - destruct (search_some _ p a b Hp Es) as [w [Hw [Hc [Ho [Hpa Hm]]]]].
    destruct (match_position a b Hpa Hm) as [Hpb Hlt].
    assert (Hab : length (Re.ahead b) < length (Re.ahead a))
      by exact (not_empty a b Hm).
    assert (Hwlen : length (Re.ahead a) <= length (Re.ahead p))
      by (rewrite Hw, length_app; lia).
    simpl Re.split_at. constructor.
    + cbn [Re.m_start Re.mk]. rewrite (position_offset x p Hp), Hw, Ho.
      replace (Re.offset p + length w - Re.offset p) with (length w) by lia.
      rewrite firstn_app, firstn_all, Nat.sub_diag. simpl. now rewrite app_nil_r.
    + cbn [Re.m_end Re.mk].
      destruct (Re.ahead b) as [|c t] eqn:Eb.
      * simpl. constructor; [|constructor].
        rewrite (position_offset x b Hpb), Eb. reflexivity.
      * assert (Hnext : (Re.offset b <=? Re.offset a) = false)
          by (apply Nat.leb_gt; exact Hlt).
        rewrite Hnext.
        change (Re.offset b) with (Re.offset (Re.forget b)).
        apply IH.
        -- exact Hpb.
        -- simpl. rewrite Eb. simpl in *. lia.
  - simpl. constructor; [|constructor].
    rewrite (position_offset x p Hp). apply (search_none _ p (le_n _) Es).
Qed.

Lemma split_pieces : Forall clean (Re.split r x).
Proof.
  unfold Re.split, Re.finditer.
  apply (scan_pieces (S (length x)) (Re.start x)).
  - reflexivity.
  - simpl. lia.
Qed.

End SplitPieces.

(** ** QA engine: the snippets of a text *)

Section PlusClass.
Variable f : ascii -> bool.

Lemma plus_matches_at (p : Re.pos) (c : ascii) (t : str) :
  Re.ahead p = c :: t -> f c = true -> Re.match_at (Re.plus (Chr f)) p <> None.
Proof.
  intros Ea Ef. unfold Re.match_at, Re.plus.
  change (Re.run (Seq (Chr f) (Star true (Chr f))) p (fun q => Some q))
    with (match Re.ahead p with
          | c :: _ =>
            if f c
            then Re.run (Star true (Chr f)) (Re.step c p) (fun q => Some q)
            else None
          | [] => None
          end).
  rewrite Ea, Ef, run_star_unfold. cbv zeta.
  destruct (Re.run (Chr f) _ _); discriminate.
Qed.

Lemma plus_not_empty (a b : Re.pos) :
  Re.match_at (Re.plus (Chr f)) a = Some b ->
  length (Re.ahead b) < length (Re.ahead a).
Proof.
  unfold Re.match_at, Re.plus. intros Hm.
  apply run_sound in Hm as [q [Hr [= ->]]].
  inv Hr.
  match goal with
  | H1 : reach (Chr f) a ?u, H2 : reach (Star true (Chr f)) ?u b |- _ =>
    inv H1; apply reach_ahead in H2 as [w Hw]
  end.
  match goal with Ha : Re.ahead a = _ :: _ |- _ =>
    simpl in Hw; rewrite Ha in Hw; simpl in Hw; rewrite Ha, Hw end.
  simpl. rewrite length_app. lia.
Qed.

End PlusClass.

Lemma firstn_incl (A : Type) (n : nat) (l : list A) (a : A) :
  In a (firstn n l) -> In a l.
Proof.
  intros H. rewrite <- (firstn_skipn n l). apply in_or_app. now left.
Qed.

(** X28. [_extract_relevant_snippets] returns at most three snippets; a
    snippet is trimmed, has from 10 to 500 characters, shares at least two
    terms with the question, and is a single sentence: it holds none of
    the characters that end a sentence (".", "!", "?" and the line
    break). *)
Theorem relevant_snippets (question x : str) :
  let snippets := QAEngine._extract_relevant_snippets question x in
  length snippets <= 3 /\
  Forall (fun snippet =>
            10 <= length snippet /\ length snippet <= 500 /\
            2 <= Retriever.overlap (Retriever.terms (Str.lower question))
                                   (Retriever.terms (Str.lower snippet)) /\
            Str.strip snippet = snippet /\
            forallb (fun c => negb (sentence_end c)) snippet = true)
         snippets.
Proof.
  intros snippets. unfold snippets, QAEngine._extract_relevant_snippets.
  destruct x as [|ch x']; [split; [simpl; lia | constructor]|].
  set (text := ch :: x'). cbv zeta.
  split; [apply firstn_le_length|].
  pose proof (split_pieces (Re.plus (Chr sentence_end)) sentence_end
                (plus_matches_at sentence_end) (plus_not_empty sentence_end) text)
    as Hpieces.
  change (Chr sentence_end)
    with (Chr (fun c => Re.one_of ".!?" c || Ascii.eqb c "010")) in Hpieces.
  rewrite Forall_forall in Hpieces.
  apply Forall_forall. intros snippet Hin.
  apply firstn_incl in Hin. apply in_flat_map in Hin as [sentence [Hs Hin]].
  specialize (Hpieces sentence Hs).
  destruct (_ || _) eqn:Elen; [contradiction|].
  apply orb_false_iff in Elen as [E10 E500].
  apply Nat.ltb_ge in E10, E500.
  destruct (2 <=? _) eqn:Eov; [|contradiction].
  apply Nat.leb_le in Eov.
  destruct Hin as [<-|[]].
  split; [exact E10|]. split; [exact E500|]. split; [exact Eov|].
  split; [apply strip_idempotent|].
  apply forallb_forall. intros c Hc. apply strip_incl in Hc.
  rewrite forallb_forall in Hpieces. now apply Hpieces.
Qed.

(** ** Field parser: the normal form of a field name *)

Section Words.

(** A word: not empty and without a blank. *)
Let word (w : str) : Prop :=
  w <> [] /\ forallb (fun c => negb (Str.is_space c)) w = true.

Lemma words_aux_words (x : str) :
  forall cur, forallb (fun c => negb (Str.is_space c)) cur = true ->
              Forall word (Str.words_aux x cur).
Proof.
  assert (Hrev : forall cur : str,
             cur <> [] -> forallb (fun c => negb (Str.is_space c)) cur = true ->
             word (rev cur)).
  { intros cur Hne Hcur. split.
    - intros E. apply Hne. apply (f_equal (@rev _)) in E.
      now rewrite rev_involutive in E.
    - apply forallb_forall. intros c Hc. apply in_rev in Hc.
      rewrite forallb_forall in Hcur. now apply Hcur. }
  induction x as [|c x IH]; intros cur Hcur; simpl.
  - destruct cur as [|d cur]; [constructor|].
    constructor; [|constructor]. now apply Hrev.
  - destruct (Str.is_space c) eqn:E.
    + destruct cur as [|d cur]; [now apply IH|].
      constructor; [now apply Hrev | now apply IH].
    + apply IH. simpl. now rewrite E, Hcur.
Qed.

Lemma words_aux_word (w rest cur : str) :
  forallb (fun c => negb (Str.is_space c)) w = true ->
  Str.words_aux (w ++ rest) cur = Str.words_aux rest (rev w ++ cur).
Proof.
  revert cur. induction w as [|c w IH]; intros cur Hw; [reflexivity|].
  simpl in Hw. apply andb_true_iff in Hw as [Hc Hw].
  apply negb_true_iff in Hc. simpl. rewrite Hc, (IH _ Hw).
  now rewrite <- app_assoc.
Qed.

(** Splitting the words that were joined by blanks gives them back. *)
Lemma words_join (l : list str) :
  Forall word l -> Str.words (Str.join " " l) = l.
Proof.
  unfold Str.words. induction 1 as [|w l [Hne Hw] Hl IH]; [reflexivity|].
  assert (Hrev : rev w <> []).
  { intros E. apply Hne. apply (f_equal (@rev _)) in E.
    now rewrite rev_involutive in E. }
  destruct l as [|w2 l].
  - simpl Str.join. rewrite <- (app_nil_r w) at 1.
    rewrite (words_aux_word w [] [] Hw), app_nil_r. simpl.
    destruct (rev w) eqn:E; [contradiction|].
    now rewrite <- E, rev_involutive.
  - change (Str.join " " (w :: w2 :: l))
      with (w ++ " "%char :: Str.join " " (w2 :: l)).
    rewrite (words_aux_word w _ [] Hw), app_nil_r.
    change (Str.words_aux (" "%char :: Str.join " " (w2 :: l)) (rev w))
      with (match rev w with
            | [] => Str.words_aux (Str.join " " (w2 :: l)) []
            | _ => rev (rev w) :: Str.words_aux (Str.join " " (w2 :: l)) []
            end).
    destruct (rev w) eqn:E; [contradiction|].
    rewrite <- E, rev_involutive. f_equal. exact IH.
Qed.

(** Words joined by blanks have no blank at their ends. *)
Lemma join_words_trimmed (l : list str) :
  Forall word l -> Str.strip (Str.join " " l) = Str.join " " l.
Proof.
  intros Hl. destruct l as [|w l]; [reflexivity|].
  assert (Hlast : exists d y, rev (Str.join " " (w :: l)) = d :: y /\
                              Str.is_space d = false).
  { clear -Hl. revert w Hl. induction l as [|w2 l IH]; intros w Hl.
    - inversion Hl as [|? ? [Hne Hw] _]; subst. simpl Str.join.
      destruct (rev w) as [|d y] eqn:E.
      + exfalso. apply Hne. apply (f_equal (@rev _)) in E.
        now rewrite rev_involutive in E.
      + exists d, y. split; [reflexivity|].
        apply negb_true_iff. rewrite forallb_forall in Hw. apply Hw.
        apply in_rev. rewrite E. now left.
    - inversion Hl as [|? ? _ Hl']; subst.
      destruct (IH w2 Hl') as [d [y [E Hd]]].
      change (Str.join " " (w :: w2 :: l))
        with (w ++ " "%char :: Str.join " " (w2 :: l)).
      rewrite rev_app_distr.
      change (rev (" "%char :: Str.join " " (w2 :: l)))
        with (rev (Str.join " " (w2 :: l)) ++ [" "%char]).
      rewrite E.
      exists d, ((y ++ [" "%char]) ++ rev w). split; [reflexivity | exact Hd]. }
  destruct Hlast as [d [y [E Hd]]].
  inversion Hl as [|? ? [Hne Hw] _]; subst.
  destruct w as [|c w']; [contradiction|].
  assert (Hc : Str.is_space c = false).
  { simpl in Hw. apply andb_true_iff in Hw as [Hc _]. now apply negb_true_iff. }
  match goal with
  | |- Str.strip ?j = ?j =>
    assert (Hjoin : exists rest, j = c :: rest)
      by (destruct l; simpl; eexists; reflexivity);
    destruct Hjoin as [rest Hjoin]; rewrite Hjoin in E |- *
  end.
  now apply (trimmed_intro c d rest y).
Qed.

Lemma words_are_words (x : str) : Forall word (Str.words x).
Proof. now apply words_aux_words. Qed.

End Words.

(** X29. [_normalize_field_name] gives the words of the name joined by
    single blanks, and it is idempotent: a normalised name is left as it
    is. *)
Theorem normalize_field_name_idempotent (name : str) :
  let normalized := FieldParser._normalize_field_name name in
  normalized = Str.join " " (Str.words name) /\
  FieldParser._normalize_field_name normalized = normalized.
Proof.
  intros normalized. unfold normalized, FieldParser._normalize_field_name.
  pose proof (words_are_words name) as Hw.
  rewrite (join_words_trimmed _ Hw). split; [reflexivity|].
  rewrite (words_join _ Hw). now apply join_words_trimmed.
Qed.

(** ** Scenarios of the specification and tests of the repository

    The model run on the examples that the specification and
    [tests/test_agent.py] give. *)

Example column_names_12 :
  TableParser.column_names 12 =
  SchemaDetector.strs
    ["Column 1"; "Column 2"; "Column 3"; "Column 4"; "Column 5"; "Column 6";
     "Column 7"; "Column 8"; "Column 9"; "Column 10"; "Column 11"; "Column 12"].
Proof. vm_compute. reflexivity. Qed.

Example scenario_field_extraction :
  FieldParser.parse (s ("Name: John Doe" ++ newline_char ++ "Amount: $1,234.56")%string)
  = [(s "Name", VStr "John Doe");
     (s "Amount", VCurrency (PyFloat.Fin 1234.56) "$1,234.56")].
Proof. vm_compute. reflexivity. Qed.

Example test_parse_ssn_masked :
  FieldParser.parse "SSN: 123-45-6789" = [(s "SSN", VStr "XXX-XX-6789")].
Proof. vm_compute. reflexivity. Qed.

Example test_parse_simple_table :
  map (fun p => (TableParser.has_header p, TableParser.headers p,
                 TableParser.row_count p))
      (TableParser.parse
         [[[s "Name"; s "Amount"; s "Date"];
           [s "Item 1"; s "$100"; s "01/01/2024"];
           [s "Item 2"; s "$200"; s "01/02/2024"]]])
  = [(true, [s "Name"; s "Amount"; s "Date"], 2)].
Proof. vm_compute. reflexivity. Qed.

Example test_normalize_table :
  TableParser._normalize_table
    [[s "A"; s "B"; s "C"]; [s "1"; s "2"]; [s "3"; s "4"; s "5"]]
  = [[s "A"; s "B"; s "C"]; [s "1"; s "2"; []]; [s "3"; s "4"; s "5"]].
Proof. vm_compute. reflexivity. Qed.

Example scenario_schema_detection :
  SchemaDetector.detect str_of_text w2_text None = Some (s "w2").
Proof. vm_compute. reflexivity. Qed.

Example scenario_aggregation :
  match QAEngine.field_summary (QAEngine.collect salary_docs) with
  | Some summary =>
    match Dict.get "Annual Salary" summary with
    | Some st =>
      QAEngine.st_count st = 3 /\
      QAEngine.st_sum st = FloatOps.NInt 255000 /\
      (exists q, QAEngine.st_average st = PyFloat.Fin q /\ (q == 85000)%Q) /\
      QAEngine.st_min st = FloatOps.NInt 65000 /\
      QAEngine.st_max st = FloatOps.NInt 110000
    | None => False
    end
  | None => False
  end.
Proof.
  vm_compute. split; [reflexivity|]. split; [reflexivity|].
  split; [|split; reflexivity].
  eexists. split; [reflexivity|]. reflexivity.
Qed.
